(** * spiffe-rotate: a shallow embedding of the rotation manager, the Vault/OpenBao
    PKI client and issuer, and the SPIFFE authorizer.

    Go strings are byte strings, so they are [String.string]; [int64] and
    [time.Duration] are [Z] with the two's-complement wrap written out; a nil
    pointer is [None]; [error] values are their messages.  Everything the
    repository takes from Go's standard library (JSON, PEM, X.509, URL
    rendering, the HTTP transport) enters through explicit parameters. *)

From Stdlib Require Import ZArith List String Ascii Bool Lia Arith.
From Stdlib Require Import DecimalString.
Import ListNotations.
Open Scope string_scope.

(** * Part I: definitions *)

(** ** The functions of Go's [strings] package that the repository calls *)
Module strings.

(** [strings.Split(s, sep)] for a one-byte separator: always at least one
    piece, [n+1] pieces for [n] separators. *)
Fixpoint Split (s : string) (sep : ascii) : list string :=
  match s with
  | EmptyString => [EmptyString]
  | String c rest =>
      if Ascii.eqb c sep then EmptyString :: Split rest sep
      else match Split rest sep with
           | seg :: segs => String c seg :: segs
           | [] => [String c EmptyString]
           end
  end.

(** [strings.Count(s, substr)] for a non-empty [substr]: the number of
    non-overlapping instances, scanning left to right.  [skip] bytes of a match
    just counted are passed over. *)
Fixpoint CountFrom (skip : nat) (s substr : string) : nat :=
  match s with
  | EmptyString => 0
  | String _ rest =>
      match skip with
      | S k => CountFrom k rest substr
      | O => if prefix substr s
             then S (CountFrom (String.length substr - 1) rest substr)
             else CountFrom 0 rest substr
      end
  end.

Definition Count (s substr : string) : nat := CountFrom 0 s substr.

(** [strings.Contains(s, substr)]. *)
Fixpoint Contains (s substr : string) : bool :=
  if prefix substr s then true
  else match s with
       | EmptyString => false
       | String _ rest => Contains rest substr
       end.

(** [strings.HasPrefix(s, prefix)]. *)
Definition HasPrefix (s pre : string) : bool := prefix pre s.

(** [strings.HasSuffix(s, suffix)]. *)
Fixpoint HasSuffix (s suffix : string) : bool :=
  if String.eqb s suffix then true
  else match s with
       | EmptyString => false
       | String _ rest => HasSuffix rest suffix
       end.

(** [strings.TrimSuffix(s, suffix)]. *)
Definition TrimSuffix (s suffix : string) : string :=
  if HasSuffix s suffix
  then substring 0 (String.length s - String.length suffix) s
  else s.

(** [strings.TrimLeft(s, cutset)] for a one-byte cutset. *)
Fixpoint TrimLeft (s : string) (cut : ascii) : string :=
  match s with
  | EmptyString => EmptyString
  | String c rest => if Ascii.eqb c cut then TrimLeft rest cut else s
  end.

(** [strings.TrimRight(s, cutset)] for a one-byte cutset. *)
Fixpoint TrimRight (s : string) (cut : ascii) : string :=
  match s with
  | EmptyString => EmptyString
  | String c rest =>
      match TrimRight rest cut with
      | EmptyString => if Ascii.eqb c cut then EmptyString else String c EmptyString
      | t => String c t
      end
  end.

End strings.

(** ** Go values shared by the packages *)

(** An [error] is its message ([err.Error()]); a nil error is [None]. *)
Definition error := string.

(** [int64] arithmetic: the mathematical result wrapped to 64 bits. *)
Definition wrap64 (z : Z) : Z := ((z + 2 ^ 63) mod 2 ^ 64 - 2 ^ 63)%Z.

(** [fmt]'s [%d] and [big.Int.String]: the decimal numeral. *)
Definition itoa (z : Z) : string := NilZero.string_of_int (Z.to_int z).

Module time.

(** A [time.Duration] is an [int64] count of nanoseconds. *)
Definition Duration := Z.
Definition Millisecond : Duration := 1000000%Z.
Definition Second : Duration := 1000000000%Z.
Definition minDuration : Duration := (- 2 ^ 63)%Z.
Definition maxDuration : Duration := (2 ^ 63 - 1)%Z.

(** A [time.Time] is read as the instant it denotes, in nanoseconds since
    the Unix epoch; the range of the type (about 292 billion years around
    year 1) is not modelled. *)
Definition Time := Z.

(** [time.Time{}]: January 1, year 1, 00:00 UTC. *)
Definition zeroTime : Time := (-62135596800 * 1000000000)%Z.

(** [t.Sub(u)]: the difference, saturated at the largest and smallest
    [Duration]. *)
Definition Sub (t u : Time) : Duration :=
  if (maxDuration <? t - u)%Z then maxDuration
  else if (t - u <? minDuration)%Z then minDuration
  else (t - u)%Z.

(** [t.Add(d)]. *)
Definition Add (t : Time) (d : Duration) : Time := (t + d)%Z.

(** [t.UnixNano()], an [int64]. *)
Definition UnixNano (t : Time) : Z := wrap64 t.

End time.

Module url.

(** What the repository reads of a [*url.URL]: the [Scheme] field and the
    result of [String()]. *)
Record URL := { Scheme : string; String_ : string }.

End url.

Module x509.

(** What the repository reads of a parsed [*x509.Certificate]. Its URIs are
    the non-nil pointers that parsing produces; [SerialNumber] is the
    [*big.Int]'s value. *)
Record Certificate := {
  Raw : string;
  Subject_CommonName : string;
  SerialNumber : Z;
  DNSNames : list string;
  URIs : list url.URL;
  NotAfter : time.Time
}.

(** A [*x509.CertPool]: the certificates added so far, without repeats. *)
Definition CertPool := list Certificate.

Definition NewCertPool : CertPool := [].

Definition contains (pool : CertPool) (c : Certificate) : bool :=
  existsb (fun have => Raw have =? Raw c) pool.

(** [addCert] skips a certificate the pool already holds. *)
Definition addCert (pool : CertPool) (c : Certificate) : CertPool :=
  if contains pool c then pool else (pool ++ [c])%list.

End x509.

Module tls.

(** A [tls.Certificate]: the DER chain and the optional parsed leaf. *)
Record Certificate := {
  Certificate_ : list string;
  Leaf : option x509.Certificate
}.

End tls.

(** What the repository calls in Go's standard library and cannot be read off
    its own source: the clock, the PEM and X.509 parsers, path and string
    helpers. *)
Module golib.

(** A [func() time.Time]: the reading it returns when it is the [n]-th clock
    read of the process. *)
Definition NowFn := nat -> time.Time.

Class Lib := {
  (** [time.Now] *)
  time_Now : NowFn;
  (** [x509.ParseCertificate(der)] *)
  x509_ParseCertificate : string -> error + x509.Certificate;
  (** [pem.Decode(data)]: the bytes of the first PEM block, if any *)
  pem_Decode : string -> option string;
  (** The certificates [CertPool.AppendCertsFromPEM] finds in a PEM text:
      every CERTIFICATE block that parses. *)
  pem_Certificates : string -> list x509.Certificate;
  (** [tls.X509KeyPair(certPEM, keyPEM)] *)
  tls_X509KeyPair : string -> string -> error + tls.Certificate;
  (** [path.Join(elem...)] *)
  path_Join : list string -> string;
  (** [strings.TrimSpace] *)
  strings_TrimSpace : string -> string;
  (** [time.Duration.String] *)
  Duration_String : time.Duration -> string
}.

End golib.

(** ** A state-and-panic monad for the methods that mutate their receiver *)
Module go.

Inductive Outcome (A : Type) : Type :=
| Done (a : A)
| Panic (msg : string).
Arguments Done {A} a.
Arguments Panic {A} msg.

Definition M (S A : Type) : Type := S -> Outcome A * S.

Definition ret {S A : Type} (a : A) : M S A := fun s => (Done a, s).

Definition bind {S A B : Type} (c : M S A) (k : A -> M S B) : M S B :=
  fun s => match c s with
           | (Done a, s') => k a s'
           | (Panic msg, s') => (Panic msg, s')
           end.

Definition panic {S A : Type} (msg : string) : M S A := fun s => (Panic msg, s).

Definition get {S : Type} : M S S := fun s => (Done s, s).

Definition modify {S : Type} (f : S -> S) : M S unit := fun s => (Done tt, f s).

(** The same without panics, for code that cannot panic. *)
Definition St (S A : Type) : Type := S -> A * S.

Definition unit_ {S A : Type} (a : A) : St S A := fun s => (a, s).

Definition then_ {S A B : Type} (c : St S A) (k : A -> St S B) : St S B :=
  fun s => let (a, s') := c s in k a s'.

End go.

Declare Scope go_scope.
Delimit Scope go_scope with go.
Notation "x <- c ;; k" := (go.bind c (fun x => k))
  (at level 61, c at next level, right associativity) : go_scope.
Notation "c ;; k" := (go.bind c (fun _ => k))
  (at level 61, right associativity) : go_scope.
Declare Scope st_scope.
Delimit Scope st_scope with st.
Notation "x <- c ;; k" := (go.then_ c (fun x => k))
  (at level 61, c at next level, right associativity) : st_scope.
Notation "c ;; k" := (go.then_ c (fun _ => k))
  (at level 61, right associativity) : st_scope.

(** ** Package [spiffe]: the URI SAN authorizer *)
Module spiffe.
Import url x509.

Record Authorizer := {
  AllowedExact : list string;
  AllowedPrefixes : list string;
  AllowedGlobs : list string
}.

(** The [for i, pseg := range psegs] loop of [matchSegments], entered at index
    [i]. [None] is the run-time panic of an out-of-range [vsegs[i]]. *)
Fixpoint segLoop (psegs vsegs : list string) (i : nat) : option bool :=
  match psegs with
  | [] => Some true
  | pseg :: rest =>
      match nth_error vsegs i with
      | None => None
      | Some vseg =>
          if pseg =? "+" then
            if vseg =? "" then Some false else segLoop rest vsegs (S i)
          else if negb (pseg =? vseg) then Some false
          else segLoop rest vsegs (S i)
      end
  end.

(** [psegs[len(psegs)-1]] is read behind the guard [len(psegs) > 0], so the
    default of [last] is never returned. *)
Definition matchSegments (pattern value : string) (prefix : bool) : option bool :=
  let psegs := strings.Split pattern "/" in
  let vsegs := strings.Split value "/" in
  let psegs :=
    if prefix && (0 <? List.length psegs)%nat && (last psegs "x" =? "")
    then removelast psegs else psegs in
  if negb prefix && negb (List.length psegs =? List.length vsegs)%nat then Some false
  else if prefix && (List.length vsegs <? List.length psegs)%nat then Some false
  else segLoop psegs vsegs 0.

Definition matchGlob (pattern value : string) : option bool :=
  if (pattern =? "") || (value =? "") then Some false
  else if (1 <? strings.Count pattern "*")%nat then Some false
  else if strings.Contains pattern "*" && negb (strings.HasSuffix pattern "*") then Some false
  else if strings.HasSuffix pattern "*" then
    let base := strings.TrimSuffix pattern "*" in
    matchSegments base value true
  else matchSegments pattern value false.

(** The three rule loops run for one identity [id]; [Some true] is the
    [return nil] inside one of them. *)
Definition anyExact (rules : list string) (id : string) : bool :=
  existsb (fun exact => id =? exact) rules.

Definition anyPrefix (rules : list string) (id : string) : bool :=
  existsb (fun p => strings.HasPrefix id p) rules.

Fixpoint anyGlob (rules : list string) (id : string) : option bool :=
  match rules with
  | [] => Some false
  | glob :: rest =>
      match matchGlob glob id with
      | None => None
      | Some true => Some true
      | Some false => anyGlob rest id
      end
  end.

(** The outer [for _, uri := range leaf.URIs] loop. *)
Fixpoint uriLoop (a : Authorizer) (uris : list URL) : option bool :=
  match uris with
  | [] => Some false
  | uri :: rest =>
      if negb (Scheme uri =? "spiffe") then uriLoop a rest
      else
        let id := String_ uri in
        if anyExact (AllowedExact a) id then Some true
        else if anyPrefix (AllowedPrefixes a) id then Some true
        else match anyGlob (AllowedGlobs a) id with
             | None => None
             | Some true => Some true
             | Some false => uriLoop a rest
             end
  end.

(** [VerifyPeerCertificate]: [Some None] is the nil error (accept),
    [Some (Some e)] a rejection, [None] a panic. The raw certificates are
    ignored by the code. *)
Definition VerifyPeerCertificate (a : Authorizer)
    (verifiedChains : list (list Certificate)) : option (option error) :=
  match verifiedChains with
  | [] => Some (Some "no verified chain")
  | [] :: _ => Some (Some "no verified chain")
  | (leaf :: _) :: _ =>
      match uriLoop a (URIs leaf) with
      | None => None
      | Some true => Some None
      | Some false => Some (Some "client SPIFFE ID not allowed")
      end
  end.

(** *** The restricted glob in the words of the specification *)

Definition HasStar (s : string) : Prop := In "*"%char (list_ascii_of_string s).

(** ['+'] matches any single non-empty segment, every other pattern segment
    matches literally. *)
Definition SegMatch (pseg vseg : string) : Prop :=
  (pseg = "+" /\ vseg <> "") \/ (pseg <> "+" /\ pseg = vseg).

(** The pattern's segments before a trailing ['*'], a trailing empty segment
    being dropped. *)
Definition dropTrailingEmpty (segs : list string) : list string :=
  match rev segs with
  | EmptyString :: front => rev front
  | _ => segs
  end.

Inductive GlobMatch (pattern value : string) : Prop :=
| GlobTrailingStar (base : string) (matched extra : list string) :
    pattern = base ++ "*" ->
    ~ HasStar base ->
    value <> "" ->
    strings.Split value "/" = (matched ++ extra)%list ->
    Forall2 SegMatch (dropTrailingEmpty (strings.Split base "/")) matched ->
    GlobMatch pattern value
| GlobSameLength :
    ~ HasStar pattern ->
    pattern <> "" ->
    value <> "" ->
    Forall2 SegMatch (strings.Split pattern "/") (strings.Split value "/") ->
    GlobMatch pattern value.

(** A URI is allowed when an exact, a prefix or a glob rule matches its
    string form. *)
Definition RuleMatch (a : Authorizer) (id : string) : Prop :=
  In id (AllowedExact a)
  \/ (exists p, In p (AllowedPrefixes a) /\ exists rest, id = p ++ rest)
  \/ (exists g, In g (AllowedGlobs a) /\ GlobMatch g id).

End spiffe.

(** ** Package [certmanager]: the rotation manager *)
Module certmanager.
Import golib.
Local Open Scope Z_scope.
Local Open Scope go_scope.

Definition ErrNotReady : error := "cert bundle not ready".

Record Bundle := {
  Cert : option tls.Certificate;
  CA : x509.CertPool;
  NotAfter : time.Time
}.

Record BundleInfo := {
  info_NotAfter : time.Time;
  CommonName : string;
  SerialNumber : string;
  DNSNames : list string;
  URIs : list string
}.

(** The pair of [*Bundle] and [error] an [Issue] call returns; a nil pointer
    or error is [None]. *)
Definition IssueResult : Type := option Bundle * option error.

(** An [Issuer] as the manager sees it: what its [n]-th [Issue] call
    returns. This is an issuer that is there; the nil interface, which
    [NewWithOptions] accepts as well, is [IssuerValue]'s [None] below. *)
Definition Issuer := nat -> IssueResult.

(** A [context.Context] built by [context.WithTimeout]: it is cancelled at
    [Deadline] at the latest. *)
Record Context := { Deadline : time.Time }.

(** What a call of a hook does on the goroutine that runs it. *)
Inductive HookRun :=
| HookReturns
| HookPanics (v : string)
| HookNeverReturns.

Record Options := {
  MinRefresh : time.Duration;
  ErrorBackoff : time.Duration;
  HookTimeout : time.Duration;
  OnRotate : option (Context -> BundleInfo -> HookRun);
  OnError : option (Context -> error -> HookRun);
  Now : option NowFn
}.

(** [curr] is the [atomic.Value]: [None] until the first [Store], then the
    stored [*Bundle] (which may be a nil pointer). *)
Record Manager := {
  issuer : Issuer;
  curr : option (option Bundle);
  opts : Options
}.

(** The calls a goroutine body defers. The repository defers only the
    context's [cancel]; a deferred function that calls [recover] is listed to say
    what catching a panic would take. *)
Inductive Deferred := deferCancel | deferRecover.

(** A goroutine started by a [go] statement: its context, its deferred calls
    and what the hook it calls does. *)
Record Goroutine := {
  g_ctx : Context;
  g_defers : list Deferred;
  g_call : HookRun
}.

(** How a goroutine ends: it returns, it never does, or a panic unwinds it
    with no deferred call recovering, which terminates the whole program. *)
Inductive GoroutineEnd :=
| Exited
| Blocked
| Crashed (v : string).

Definition recovers (d : Deferred) : bool :=
  match d with deferRecover => true | deferCancel => false end.

Definition goroutineEnd (g : Goroutine) : GoroutineEnd :=
  match g_call g with
  | HookReturns => Exited
  | HookNeverReturns => Blocked
  | HookPanics v => if existsb recovers (g_defers g) then Exited else Crashed v
  end.

(** The process a manager lives in: the manager itself, how many clock reads,
    [Issue] calls and sleeps happened, the goroutines started and the
    durations slept (oldest first). *)
Record Process := {
  mgr : Manager;
  ticks : nat;
  issues : nat;
  goroutines : list Goroutine;
  slept : list time.Duration
}.

(** A caller's [ctx] as [sleep] sees it: whether it is done before the timer
    of the [n]-th sleep fires. *)
Definition Ctx := nat -> bool.

Definition set_mgr (m : Manager) (p : Process) : Process :=
  {| mgr := m; ticks := ticks p; issues := issues p;
     goroutines := goroutines p; slept := slept p |}.

Definition set_curr (v : option (option Bundle)) (m : Manager) : Manager :=
  {| issuer := issuer m; curr := v; opts := opts m |}.

Section WithLib.
Context {lib : Lib}.

Definition NewWithOptions (issuer : Issuer) (o : Options) : Manager :=
  let MinRefresh' := if MinRefresh o <=? 0 then 30 * time.Second else MinRefresh o in
  let ErrorBackoff' := if ErrorBackoff o <=? 0 then 15 * time.Second else ErrorBackoff o in
  let HookTimeout' := if HookTimeout o <=? 0 then 2 * time.Second else HookTimeout o in
  let Now' := match Now o with None => Some time_Now | Some f => Some f end in
  {| issuer := issuer;
     curr := None;
     opts := {| MinRefresh := MinRefresh'; ErrorBackoff := ErrorBackoff';
                HookTimeout := HookTimeout'; OnRotate := OnRotate o;
                OnError := OnError o; Now := Now' |} |}.

Definition zeroOptions : Options :=
  {| MinRefresh := 0; ErrorBackoff := 0; HookTimeout := 0;
     OnRotate := None; OnError := None; Now := None |}.

Definition New (issuer : Issuer) : Manager := NewWithOptions issuer zeroOptions.

(** [m.Current()]: the pair of [*Bundle] and [error]. *)
Definition Current (m : Manager) : option Bundle * option error :=
  match curr m with
  | Some v => (v, None)
  | None => (None, Some ErrNotReady)
  end.

(** [m.GetCertificate(hello)], the [tls.Config] callback of a server: the
    pair of [*tls.Certificate] and [error]. Its argument is not read. Reading
    [b.Cert] through a nil pointer panics. *)
Definition GetCertificate (m : Manager) : go.Outcome (option tls.Certificate * option error) :=
  let '(b, err) := Current m in
  match err with
  | Some e => go.Done (None, Some e)
  | None =>
      match b with
      | None => go.Panic "invalid memory address or nil pointer dereference"
      | Some b => go.Done (Cert b, None)
      end
  end.

(** [m.GetClientCertificate(info)], the callback of a client. *)
Definition GetClientCertificate (m : Manager)
    : go.Outcome (option tls.Certificate * option error) :=
  let '(b, err) := Current m in
  match err with
  | Some e => go.Done (None, Some e)
  | None =>
      match b with
      | None => go.Panic "invalid memory address or nil pointer dereference"
      | Some b => go.Done (Cert b, None)
      end
  end.

(** [m.issuer.Issue(ctx)] *)
Definition callIssue : go.M Process IssueResult :=
  fun p => (go.Done (issuer (mgr p) (issues p)),
            {| mgr := mgr p; ticks := ticks p; issues := S (issues p);
               goroutines := goroutines p; slept := slept p |}).

Definition tick (p : Process) : Process :=
  {| mgr := mgr p; ticks := S (ticks p); issues := issues p;
     goroutines := goroutines p; slept := slept p |}.

(** [m.opts.Now()]; calling a nil func panics. *)
Definition callNow : go.M Process time.Time :=
  fun p => match Now (opts (mgr p)) with
           | Some f => (go.Done (f (ticks p)), tick p)
           | None => (go.Panic "invalid memory address or nil pointer dereference", p)
           end.

(** [time.Now()], as [context.WithTimeout] reads it. *)
Definition wallNow : go.M Process time.Time :=
  fun p => (go.Done (time_Now (ticks p)), tick p).

(** [m.curr.Store(bundle)] *)
Definition Store (bundle : option Bundle) : go.M Process unit :=
  go.modify (fun p => set_mgr (set_curr (Some bundle) (mgr p)) p).

(** [go f()] *)
Definition spawn (g : Goroutine) : go.M Process unit :=
  go.modify (fun p =>
    {| mgr := mgr p; ticks := ticks p; issues := issues p;
       goroutines := (goroutines p ++ [g])%list; slept := slept p |}).

Definition getOpts : go.M Process Options := fun p => (go.Done (opts (mgr p)), p).

(** [m.refresh(ctx)]: the triple of [*Bundle], [time.Time] and [error]. Reading
    [bundle.NotAfter] through a nil pointer panics. *)
Definition refresh : go.M Process (option Bundle * time.Time * option error) :=
  r <- callIssue ;;
  let '(bundle, err) := r in
  match err with
  | Some e => go.ret (None, time.zeroTime, Some e)
  | None =>
      Store bundle ;;
      now <- callNow ;;
      match bundle with
      | None => go.panic "invalid memory address or nil pointer dereference"
      | Some b =>
          let ttl := time.Sub (NotAfter b) now in
          go.ret (bundle, time.Add now (Z.quot (wrap64 (ttl * 2)) 3), None)
      end
  end.

(** [m.Start(ctx)] *)
Definition Start : go.M Process (option error) :=
  r <- refresh ;;
  go.ret (snd r).

Definition bundleInfo (bundle : Bundle) : BundleInfo :=
  let info := {| info_NotAfter := NotAfter bundle; CommonName := ""; SerialNumber := "";
                 DNSNames := []; URIs := [] |} in
  match Cert bundle with
  | None => info
  | Some cert =>
      let leaf :=
        match tls.Leaf cert, tls.Certificate_ cert with
        | None, der :: _ =>
            match x509_ParseCertificate der with
            | inr parsed => Some parsed
            | inl _ => None
            end
        | leaf, _ => leaf
        end in
      match leaf with
      | None => info
      | Some leaf =>
          {| info_NotAfter := NotAfter bundle;
             CommonName := x509.Subject_CommonName leaf;
             SerialNumber := itoa (x509.SerialNumber leaf);
             DNSNames := x509.DNSNames leaf;
             URIs := map url.String_ (x509.URIs leaf) |}
      end
  end.

(** [context.WithTimeout(context.Background(), d)] *)
Definition WithTimeout (d : time.Duration) : go.M Process Context :=
  now <- wallNow ;;
  go.ret {| Deadline := time.Add now d |}.

(** [m.onRotate(bundle)]: the hook runs on a goroutine of its own, behind a
    deferred [cancel]. *)
Definition onRotate (bundle : option Bundle) : go.M Process unit :=
  o <- getOpts ;;
  match OnRotate o, bundle with
  | Some hook, Some b =>
      ctx <- WithTimeout (HookTimeout o) ;;
      let info := bundleInfo b in
      spawn {| g_ctx := ctx; g_defers := [deferCancel]; g_call := hook ctx info |}
  | _, _ => go.ret tt
  end.

(** [m.onError(err)] *)
Definition onError (err : option error) : go.M Process unit :=
  o <- getOpts ;;
  match OnError o, err with
  | Some hook, Some e =>
      ctx <- WithTimeout (HookTimeout o) ;;
      spawn {| g_ctx := ctx; g_defers := [deferCancel]; g_call := hook ctx e |}
  | _, _ => go.ret tt
  end.

(** [m.sleep(ctx, d)]: true when the timer fired, false when [ctx] was done
    first. *)
Definition sleep (ctx : Ctx) (d : time.Duration) : go.M Process bool :=
  fun p => (go.Done (negb (ctx (List.length (slept p)))),
            {| mgr := mgr p; ticks := ticks p; issues := issues p;
               goroutines := goroutines p; slept := (slept p ++ [d])%list |}).

(** How [Run] stands after a number of turns of its loop. *)
Inductive RunEnd := Returned | StillLooping.

(** The [for] loop of [Run], for at most [turns] turns. An [int64] remainder
    by zero panics. *)
Fixpoint RunLoop (ctx : Ctx) (turns : nat) : go.M Process RunEnd :=
  match turns with
  | O => go.ret StillLooping
  | S turns' =>
      r <- refresh ;;
      let '(bundle, next, err) := r in
      o <- getOpts ;;
      match err with
      | Some _ =>
          onError err ;;
          ok <- sleep ctx (ErrorBackoff o) ;;
          if ok then RunLoop ctx turns' else go.ret Returned
      | None =>
          onRotate bundle ;;
          now1 <- callNow ;;
          let wait := time.Sub next now1 in
          let wait := if wait <? MinRefresh o then MinRefresh o else wait in
          now2 <- callNow ;;
          let modulus := wrap64 (Z.quot wait 10 + 1) in
          if modulus =? 0 then go.panic "integer divide by zero"
          else
            let jitter := Z.rem (time.UnixNano now2) modulus in
            let wait := wrap64 (wait + jitter) in
            ok <- sleep ctx wait ;;
            if ok then RunLoop ctx turns' else go.ret Returned
      end
  end.

(** [m.Run(ctx)], its loop cut after [turns] turns. *)
Definition Run (ctx : Ctx) (turns : nat) : go.M Process RunEnd :=
  m <- go.get ;;
  match snd (Current (mgr m)) with
  | Some _ =>
      r <- refresh ;;
      match snd r with
      | Some e => onError (Some e)
      | None => go.ret tt
      end
  | None => go.ret tt
  end ;;
  RunLoop ctx turns.

(** A process that has just built its manager. *)
Definition boot (m : Manager) : Process :=
  {| mgr := m; ticks := 0; issues := 0; goroutines := []; slept := [] |}.

(** The state after [n] further refresh attempts, each carried on from where
    the previous one left the process (a caller of [Start] may recover a
    panic). *)
Fixpoint refreshes (n : nat) (p : Process) : Process :=
  match n with
  | O => p
  | S k => refreshes k (snd (refresh p))
  end.




End WithLib.

(** The test double of the package's tests: every [Issue] call returns the
    same error, or else the same bundle. *)
Definition staticIssuer (bundle : option Bundle) (err : option error) : Issuer :=
  fun _ => match err with
           | Some e => (None, Some e)
           | None => (bundle, None)
           end.

(** *** Forgetting what hooks do

    [quiet] keeps which hooks are registered and replaces each by one that
    returns at once; [quietProcess] does so for a process and the goroutines
    it has started. *)
Definition quiet (o : Options) : Options :=
  {| MinRefresh := MinRefresh o; ErrorBackoff := ErrorBackoff o;
     HookTimeout := HookTimeout o;
     OnRotate := option_map (fun _ => fun _ _ => HookReturns) (OnRotate o);
     OnError := option_map (fun _ => fun _ _ => HookReturns) (OnError o);
     Now := Now o |}.

Definition quietGoroutine (g : Goroutine) : Goroutine :=
  {| g_ctx := g_ctx g; g_defers := g_defers g; g_call := HookReturns |}.

Definition quietProcess (p : Process) : Process :=
  {| mgr := {| issuer := issuer (mgr p); curr := curr (mgr p); opts := quiet (opts (mgr p)) |};
     ticks := ticks p; issues := issues p;
     goroutines := map quietGoroutine (goroutines p); slept := slept p |}.

(** A computation is blind to hooks when forgetting what the hooks do
    before running it or after makes no difference, and its result is the
    same. *)
Definition hookBlind {A : Type} (c : go.M Process A) : Prop :=
  forall p, c (quietProcess p) = (fst (c p), quietProcess (snd (c p))).

End certmanager.

(** ** Package [vault]: the Vault/OpenBao PKI client and issuer *)
Module vault.
Import golib.
Local Open Scope st_scope.

Definition ErrAuthRequired : error := "vault auth required".

Record IssueRequest := {
  CommonName : string;
  AltNames : list string;
  URISANs : list string;
  TTL : string
}.

Record IssueResponse := {
  Certificate : string;
  PrivateKey : string;
  CAChain : list string;
  IssuingCA : string
}.

(** The value [doJSON] marshals into the request body. *)
Inductive Payload :=
| IssuePayload (req : IssueRequest)
| LoginPayload (role_id secret_id : string).

(** An [*http.Request] as [doJSON] builds it; an unset header is [None]. *)
Record Request := {
  Method : string;
  URL : string;
  ContentType : string;
  XVaultNamespace : option string;
  XVaultToken : option string;
  Body : Payload
}.

Record Response := { StatusCode : Z; ResponseBody : string }.

(** What [client.Do(req)] returns. *)
Definition RoundTrip : Type := error + Response.

(** One request sent and what came back. *)
Definition Exchange : Type := Request * RoundTrip.

(** An HTTP client with the backend behind it: the reply to a request, given
    the exchanges that happened before. *)
Definition Transport := list Exchange -> Request -> RoundTrip.

(** [encoding/json] and [net/http] as the client uses them. *)
Class Wire := {
  (** decoding an issue reply into the [data] object; absent fields are left
      empty *)
  json_Decode_issue : string -> error + IssueResponse;
  (** decoding a login reply into [auth.client_token] *)
  json_Decode_login : string -> error + string;
  (** the error of [http.NewRequestWithContext(ctx, method, url, body)], if
      any *)
  http_NewRequest_error : string -> string -> option error;
  (** [&http.Client{Timeout: 10 * time.Second}] and the network behind it *)
  http_DefaultClient : Transport
}.

Record Client := {
  Addr : string;
  Namespace : string;
  Token : string;
  RoleID : string;
  SecretID : string;
  AuthPath : string;
  HTTPClient : option Transport
}.

(** A client together with the exchanges made so far. *)
Record Session := {
  client : Client;
  exchanges : list Exchange
}.

Record Issuer := {
  Client_ : option Client;
  PKIPath : string;
  Role : string;
  Issuer_CommonName : string;
  Issuer_AltNames : list string;
  Issuer_URISANs : list string;
  Issuer_TTL : time.Duration;
  RequireCA : bool
}.

Definition set_Token (token : string) (c : Client) : Client :=
  {| Addr := Addr c; Namespace := Namespace c; Token := token; RoleID := RoleID c;
     SecretID := SecretID c; AuthPath := AuthPath c; HTTPClient := HTTPClient c |}.

Definition set_Client (c : Client) (i : Issuer) : Issuer :=
  {| Client_ := Some c; PKIPath := PKIPath i; Role := Role i;
     Issuer_CommonName := Issuer_CommonName i; Issuer_AltNames := Issuer_AltNames i;
     Issuer_URISANs := Issuer_URISANs i; Issuer_TTL := Issuer_TTL i;
     RequireCA := RequireCA i |}.

Definition isAuthError (err : error) : bool :=
  strings.Contains err "permission denied"
  || strings.Contains err "http 403"
  || strings.Contains err "http 401".

Section WithLib.
Context {lib : Lib} {wire : Wire}.

(** [c.token()] *)
Definition token : go.St Session string := fun s => (Token (client s), s).

(** [c.setToken(token)] *)
Definition setToken (tok : string) : go.St Session unit :=
  fun s => (tt, {| client := set_Token tok (client s); exchanges := exchanges s |}).

Definition getClient : go.St Session Client := fun s => (client s, s).

(** [c.url(p)] *)
Definition url (c : Client) (p : string) : string :=
  let base := strings.TrimRight (Addr c) "/" in
  let p := strings.TrimLeft p "/" in
  base ++ "/" ++ p.

(** [client.Do(req)] *)
Definition Do (req : Request) : go.St Session RoundTrip :=
  fun s =>
    let transport := match HTTPClient (client s) with
                     | Some t => t
                     | None => http_DefaultClient
                     end in
    let reply := transport (exchanges s) req in
    (reply, {| client := client s; exchanges := (exchanges s ++ [(req, reply)])%list |}).

(** The error [doJSON] makes of a reply outside 2xx. *)
Definition statusError (resp : Response) : error :=
  "vault http " ++ itoa (StatusCode resp) ++ ": " ++ strings_TrimSpace (ResponseBody resp).

(** [c.doJSON(ctx, method, url, body, requireAuth)]. Marshalling these
    payloads cannot fail. *)
Definition doJSON (method url : string) (body : Payload) (requireAuth : bool)
    : go.St Session (error + Response) :=
  match http_NewRequest_error method url with
  | Some err => go.unit_ (inl err)
  | None =>
      c <- getClient ;;
      let namespace := if Namespace c =? "" then None else Some (Namespace c) in
      tok <- token ;;
      if requireAuth && (tok =? "") then go.unit_ (inl ErrAuthRequired)
      else
        let req := {| Method := method; URL := url; ContentType := "application/json";
                      XVaultNamespace := namespace;
                      XVaultToken := if requireAuth then Some tok else None;
                      Body := body |} in
        reply <- Do req ;;
        match reply with
        | inl err => go.unit_ (inl err)
        | inr resp =>
            if (200 <=? StatusCode resp)%Z && (StatusCode resp <? 300)%Z
            then go.unit_ (inr resp)
            else go.unit_ (inl (statusError resp))
        end
  end.

Definition decodeIssue (resp : Response) : error + IssueResponse :=
  match json_Decode_issue (ResponseBody resp) with
  | inl err => inl err
  | inr data =>
      if (Certificate data =? "") || (PrivateKey data =? "")
      then inl "vault issue response missing certificate/private_key"
      else inr data
  end.

(** [c.ensureToken(ctx)]: the error, nil being [None]. *)
Definition Client_ensureToken : go.St Session (option error) :=
  tok <- token ;;
  if negb (tok =? "") then go.unit_ None
  else
    c <- getClient ;;
    if (RoleID c =? "") || (SecretID c =? "") then go.unit_ (Some ErrAuthRequired)
    else
      let authPath := if AuthPath c =? "" then "auth/approle/login" else AuthPath c in
      let endpoint := url c (path_Join ["v1"; authPath]) in
      r <- doJSON "POST" endpoint (LoginPayload (RoleID c) (SecretID c)) false ;;
      match r with
      | inl err => go.unit_ (Some err)
      | inr resp =>
          match json_Decode_login (ResponseBody resp) with
          | inl err => go.unit_ (Some err)
          | inr client_token =>
              if client_token =? ""
              then go.unit_ (Some "vault approle auth returned empty token")
              else setToken client_token ;; go.unit_ None
          end
      end.

(** [c.Issue(ctx, pkiPath, role, req)] *)
Definition Client_Issue (pkiPath role : string) (req : IssueRequest)
    : go.St Session (error + IssueResponse) :=
  c <- getClient ;;
  if Addr c =? "" then go.unit_ (inl "vault addr required")
  else if pkiPath =? "" then go.unit_ (inl "pki path required")
  else if role =? "" then go.unit_ (inl "pki role required")
  else
    e <- Client_ensureToken ;;
    match e with
    | Some err => go.unit_ (inl err)
    | None =>
        let endpoint := url c (path_Join ["v1"; pkiPath; "issue"; role]) in
        r <- doJSON "POST" endpoint (IssuePayload req) true ;;
        match r with
        | inr resp => go.unit_ (decodeIssue resp)
        | inl err =>
            if isAuthError err && negb (RoleID c =? "") && negb (SecretID c =? "") then
              setToken "" ;;
              e <- Client_ensureToken ;;
              match e with
              | Some err => go.unit_ (inl err)
              | None =>
                  r2 <- doJSON "POST" endpoint (IssuePayload req) true ;;
                  match r2 with
                  | inl err2 => go.unit_ (inl err2)
                  | inr resp => go.unit_ (decodeIssue resp)
                  end
              end
            else go.unit_ (inl err)
        end
    end.

Definition parseNotAfter (certPEM : string) : error + time.Time :=
  match pem_Decode certPEM with
  | None => inl "invalid cert PEM"
  | Some block =>
      match x509_ParseCertificate block with
      | inl err => inl err
      | inr cert => inr (x509.NotAfter cert)
      end
  end.

(** [pool.AppendCertsFromPEM(pem)]: the pool afterwards, and whether a
    certificate was found. *)
Definition AppendCertsFromPEM (pool : x509.CertPool) (pem : string)
    : x509.CertPool * bool :=
  let certs := pem_Certificates pem in
  (fold_left x509.addCert certs pool,
   match certs with [] => false | _ :: _ => true end).

(** The [for _, pem := range resp.CAChain] loop of [Issuer.Issue]; [None] is
    its [return nil, errors.New(...)]. *)
Fixpoint appendChain (pool : x509.CertPool) (chain : list string) : option x509.CertPool :=
  match chain with
  | [] => Some pool
  | pem :: rest =>
      let (pool', ok) := AppendCertsFromPEM pool pem in
      if negb ok then None else appendChain pool' rest
  end.

(** [i.Issue(ctx)]: the result, the issuer with its client as the call left
    it, and the exchanges made so far. *)
Definition Issuer_Issue (i : Issuer) (history : list Exchange)
    : (error + certmanager.Bundle) * Issuer * list Exchange :=
  match Client_ i with
  | None => (inl "vault client required", i, history)
  | Some c =>
      let req := {| CommonName := Issuer_CommonName i; AltNames := Issuer_AltNames i;
                    URISANs := Issuer_URISANs i;
                    TTL := if (0 <? Issuer_TTL i)%Z then Duration_String (Issuer_TTL i)
                           else "" |} in
      let (r, s) := Client_Issue (PKIPath i) (Role i) req
                      {| client := c; exchanges := history |} in
      let i' := set_Client (client s) i in
      let result :=
        match r with
        | inl err => inl err
        | inr resp =>
            match tls_X509KeyPair (Certificate resp) (PrivateKey resp) with
            | inl err => inl err
            | inr cert =>
                match appendChain x509.NewCertPool (CAChain resp) with
                | None => inl "vault ca_chain contained invalid PEM"
                | Some pool =>
                    let (pool, ok) :=
                      if (List.length (CAChain resp) =? 0)%nat && negb (IssuingCA resp =? "")
                      then AppendCertsFromPEM pool (IssuingCA resp)
                      else (pool, true) in
                    if negb ok then inl "vault issuing_ca contained invalid PEM"
                    else if RequireCA i && (List.length (CAChain resp) =? 0)%nat
                            && (IssuingCA resp =? "")
                    then inl "vault issue response missing ca_chain/issuing_ca"
                    else
                      match parseNotAfter (Certificate resp) with
                      | inl err => inl err
                      | inr notAfter =>
                          inr {| certmanager.Cert := Some cert; certmanager.CA := pool;
                                 certmanager.NotAfter := notAfter |}
                      end
                end
            end
        end in
      (result, i', exchanges s)
  end.

End WithLib.

(** *** Reading the exchanges of a call

    These say what a reply amounts to, for stating what the client does with
    it; the client's own code is above. *)



Section Reading.
Context {lib : Lib} {wire : Wire}.

(** A reply fails the request when the transport failed or the status is not
    2xx. *)
Definition replyError (reply : RoundTrip) : option error :=
  match reply with
  | inl err => Some err
  | inr resp =>
      if (StatusCode resp <? 200)%Z || (300 <=? StatusCode resp)%Z
      then Some (statusError resp) else None
  end.

(** What an issuance reply yields: the failure, or the decoded data when it
    carries a certificate and a key. *)
Definition issueOutcome (reply : RoundTrip) : error + IssueResponse :=
  match replyError reply, reply with
  | Some err, _ => inl err
  | None, inr resp => decodeIssue resp
  | None, inl err => inl err
  end.

(** What a login reply yields: the failure, or the non-empty token. *)
Definition loginOutcome (reply : RoundTrip) : error + string :=
  match replyError reply, reply with
  | Some err, _ => inl err
  | None, inr resp =>
      match json_Decode_login (ResponseBody resp) with
      | inl err => inl err
      | inr tok => if tok =? "" then inl "vault approle auth returned empty token"
                   else inr tok
      end
  | None, inl err => inl err
  end.

(** The login request a client sends. *)
Definition loginRequest (c : Client) : Request :=
  {| Method := "POST";
     URL := url c (path_Join ["v1"; if AuthPath c =? "" then "auth/approle/login"
                                    else AuthPath c]);
     ContentType := "application/json";
     XVaultNamespace := if Namespace c =? "" then None else Some (Namespace c);
     XVaultToken := None;
     Body := LoginPayload (RoleID c) (SecretID c) |}.

(** The issuance request a client sends under a token. *)
Definition issueRequest (c : Client) (pkiPath role : string) (req : IssueRequest)
    (tok : string) : Request :=
  {| Method := "POST";
     URL := url c (path_Join ["v1"; pkiPath; "issue"; role]);
     ContentType := "application/json";
     XVaultNamespace := if Namespace c =? "" then None else Some (Namespace c);
     XVaultToken := Some tok;
     Body := IssuePayload req |}.

(** An exchange whose request is the client's login request or one of its
    issuance requests under a non-empty token. *)
Definition sentBy (c : Client) (pkiPath role : string) (req : IssueRequest)
    (x : Exchange) : Prop :=
  fst x = loginRequest c
  \/ exists tok, tok <> "" /\ fst x = issueRequest c pkiPath role req tok.

(** The reply the client's transport gives to a request after the given
    exchanges. *)
Definition replyTo (c : Client) (history : list Exchange) (req : Request) : RoundTrip :=
  match HTTPClient c with
  | Some t => t history req
  | None => http_DefaultClient history req
  end.

(** The request [Issuer.Issue] hands to its client. *)
Definition issuerRequest (i : Issuer) : IssueRequest :=
  {| CommonName := Issuer_CommonName i; AltNames := Issuer_AltNames i;
     URISANs := Issuer_URISANs i;
     TTL := if (0 <? Issuer_TTL i)%Z then Duration_String (Issuer_TTL i) else "" |}.


(** A PEM text the pool finds no certificate in. *)
Definition invalidPEM (pem : string) : Prop := pem_Certificates pem = [].

End Reading.

(** *** A [*vault.Issuer] behind the manager's [Issuer] interface

    The manager calls [Issue] on one issuer, one call after the other: each
    call starts from the client token and the exchanges the call before it
    left. *)
Section AsIssuer.
Context {lib : Lib} {wire : Wire}.

(** The issuer and the exchanges after [n] calls of [Issue]. *)
Fixpoint issuerAfter (n : nat) (i : Issuer) (history : list Exchange)
    : Issuer * list Exchange :=
  match n with
  | O => (i, history)
  | S k => let '(_, i', history') := Issuer_Issue i history in issuerAfter k i' history'
  end.

(** What the [n]-th call returns to the manager: a nil bundle with the
    error, or the bundle with a nil error. *)
Definition asIssuer (i : Issuer) (history : list Exchange) : certmanager.Issuer :=
  fun n =>
    let (i', history') := issuerAfter n i history in
    match fst (fst (Issuer_Issue i' history')) with
    | inl err => (None, Some err)
    | inr bundle => (Some bundle, None)
    end.

End AsIssuer.

End vault.

(** ** Concrete values for the worked examples *)
Module examples.
Import golib.
Local Open Scope Z_scope.

(** 2026-01-01 00:00:00 UTC, the instant of the package's scheduling test. *)
Definition newYear2026 : time.Time := 1767225600 * time.Second.

(** A standard library that parses nothing and whose clock stands at
    [newYear2026]. *)
#[local] Instance stillLib : Lib := {|
  time_Now := fun _ => newYear2026;
  x509_ParseCertificate := fun _ => inl "x509: malformed certificate";
  pem_Decode := fun _ => None;
  pem_Certificates := fun _ => [];
  tls_X509KeyPair := fun _ _ => inl "tls: failed to find any PEM data in certificate input";
  path_Join := fun elems => String.concat "/" elems;
  strings_TrimSpace := fun s => s;
  Duration_String := fun d => (itoa d ++ "ns")%string
|}.

Definition bundleWithLifetime (lifetime : time.Duration) : certmanager.Bundle :=
  {| certmanager.Cert := None; certmanager.CA := [];
     certmanager.NotAfter := time.Add newYear2026 lifetime |}.

(** The manager of the scheduling test, for a bundle of the given lifetime. *)
Definition managerFor (lifetime : time.Duration) : certmanager.Manager :=
  certmanager.NewWithOptions
    (certmanager.staticIssuer (Some (bundleWithLifetime lifetime)) None)
    {| certmanager.MinRefresh := 0; certmanager.ErrorBackoff := 0;
       certmanager.HookTimeout := 0; certmanager.OnRotate := None;
       certmanager.OnError := None; certmanager.Now := Some (fun _ => newYear2026) |}.

(** An issuer whose backend is down for two calls, answers the third and is
    down again. *)
Definition flakyIssuer : certmanager.Issuer :=
  fun k => match k with
           | 2%nat => (Some (bundleWithLifetime (90 * time.Second)), None)
           | _ => (None, Some "backend down"%string)
           end.

(** A manager whose rotate hook panics. *)
Definition managerWithPanickingHook : certmanager.Manager :=
  certmanager.NewWithOptions
    (certmanager.staticIssuer (Some (bundleWithLifetime (90 * time.Second))) None)
    {| certmanager.MinRefresh := 0; certmanager.ErrorBackoff := 0;
       certmanager.HookTimeout := 10 * time.Millisecond;
       certmanager.OnRotate := Some (fun _ _ => certmanager.HookPanics "boom");
       certmanager.OnError := None; certmanager.Now := None |}.

(** A manager whose rotate hook never returns. *)
Definition managerWithBlockingHook : certmanager.Manager :=
  certmanager.NewWithOptions
    (certmanager.staticIssuer (Some (bundleWithLifetime (90 * time.Second))) None)
    {| certmanager.MinRefresh := 0; certmanager.ErrorBackoff := 0;
       certmanager.HookTimeout := 10 * time.Millisecond;
       certmanager.OnRotate := Some (fun _ _ => certmanager.HookNeverReturns);
       certmanager.OnError := None; certmanager.Now := None |}.

(** [context.Background()], which is never done, and a context that is done
    from the [k]-th sleep on. *)
Definition background : certmanager.Ctx := fun _ => false.

Definition cancelledFrom (k : nat) : certmanager.Ctx := fun n => (k <=? n)%nat.

(** A backend that is down for good, behind a manager with an error hook and
    the default options. *)
Definition downIssuer : certmanager.Issuer :=
  certmanager.staticIssuer None (Some "backend down"%string).

Definition managerOfDownBackend : certmanager.Manager :=
  certmanager.NewWithOptions downIssuer
    {| certmanager.MinRefresh := 0; certmanager.ErrorBackoff := 0;
       certmanager.HookTimeout := 0; certmanager.OnRotate := None;
       certmanager.OnError := Some (fun _ _ => certmanager.HookReturns);
       certmanager.Now := None |}.

(** An issuer that returns a nil bundle and a nil error. *)
Definition nilIssuer : certmanager.Issuer := certmanager.staticIssuer None None.

(** *** The certificates of the authorizer's tests *)
Definition certWithURI (scheme id : string) : x509.Certificate :=
  {| x509.Raw := ""; x509.Subject_CommonName := ""; x509.SerialNumber := 0;
     x509.DNSNames := [];
     x509.URIs := [ {| url.Scheme := scheme; url.String_ := id |} ];
     x509.NotAfter := newYear2026 |}.

Definition paymentsExact : spiffe.Authorizer :=
  {| spiffe.AllowedExact := ["spiffe://corp/prod/stack/payments/service/api"%string];
     spiffe.AllowedPrefixes := []; spiffe.AllowedGlobs := [] |}.

Definition httpsPrefix : spiffe.Authorizer :=
  {| spiffe.AllowedExact := [];
     spiffe.AllowedPrefixes := ["https://corp/prod/stack/"%string];
     spiffe.AllowedGlobs := [] |}.

(** *** The backend of the client's retry test

    Logging in yields the token [good]; an issuance under any other token is
    refused with 403 "permission denied". The JSON texts are stood for by
    labels. *)
Definition retryServer : vault.Transport :=
  fun _ req =>
    match vault.Body req with
    | vault.LoginPayload _ _ =>
        inr {| vault.StatusCode := 200; vault.ResponseBody := "login reply" |}
    | vault.IssuePayload _ =>
        match vault.XVaultToken req with
        | Some "good"%string =>
            inr {| vault.StatusCode := 200; vault.ResponseBody := "issue reply" |}
        | _ => inr {| vault.StatusCode := 403; vault.ResponseBody := "permission denied" |}
        end
    end.

Definition issued : vault.IssueResponse :=
  {| vault.Certificate := "leaf PEM"; vault.PrivateKey := "key PEM";
     vault.CAChain := []; vault.IssuingCA := "" |}.

#[local] Instance labelWire : vault.Wire := {|
  vault.json_Decode_issue := fun body =>
    if (body =? "issue reply")%string then inr issued
    else inl "invalid character";
  vault.json_Decode_login := fun body =>
    if (body =? "login reply")%string then inr "good"%string
    else inl "invalid character";
  vault.http_NewRequest_error := fun _ _ => None;
  vault.http_DefaultClient := retryServer
|}.

(** The client of the retry test: a stale token and AppRole credentials. *)
Definition staleClient : vault.Client :=
  {| vault.Addr := "http://vault.test"; vault.Namespace := ""; vault.Token := "bad";
     vault.RoleID := "role-id"; vault.SecretID := "secret-id"; vault.AuthPath := "";
     vault.HTTPClient := None |}.

(** The same client before it ever held a token. *)
Definition freshClient : vault.Client :=
  {| vault.Addr := "http://vault.test"; vault.Namespace := ""; vault.Token := "";
     vault.RoleID := "role-id"; vault.SecretID := "secret-id"; vault.AuthPath := "";
     vault.HTTPClient := None |}.



Definition svcRequest : vault.IssueRequest :=
  {| vault.CommonName := "svc"; vault.AltNames := []; vault.URISANs := [];
     vault.TTL := "" |}.

(** *** The backend of the issuer's tests

    PEM and DER texts are stood for by labels: [leaf PEM] and [ca PEM] hold
    one certificate each, any other text holds none. *)
Definition caCert : x509.Certificate :=
  {| x509.Raw := "ca der"; x509.Subject_CommonName := "Test CA"; x509.SerialNumber := 1;
     x509.DNSNames := []; x509.URIs := [];
     x509.NotAfter := time.Add newYear2026 (3600 * time.Second) |}.

Definition leafCert : x509.Certificate :=
  {| x509.Raw := "leaf der"; x509.Subject_CommonName := "Test Leaf"; x509.SerialNumber := 2;
     x509.DNSNames := []; x509.URIs := [];
     x509.NotAfter := time.Add newYear2026 (3600 * time.Second) |}.

Definition leafKeyPair : tls.Certificate :=
  {| tls.Certificate_ := ["leaf der"%string]; tls.Leaf := None |}.

#[local] Instance pemLib : Lib := {|
  time_Now := fun _ => newYear2026;
  x509_ParseCertificate := fun der =>
    if (der =? "leaf der")%string then inr leafCert
    else if (der =? "ca der")%string then inr caCert
    else inl "x509: malformed certificate";
  pem_Decode := fun pem =>
    if (pem =? "leaf PEM")%string then Some "leaf der"%string
    else if (pem =? "ca PEM")%string then Some "ca der"%string
    else None;
  pem_Certificates := fun pem =>
    if (pem =? "leaf PEM")%string then [leafCert]
    else if (pem =? "ca PEM")%string then [caCert]
    else [];
  tls_X509KeyPair := fun certPEM keyPEM =>
    if ((certPEM =? "leaf PEM") && (keyPEM =? "key PEM"))%string then inr leafKeyPair
    else inl "tls: failed to find any PEM data in certificate input";
  path_Join := fun elems => String.concat "/" elems;
  strings_TrimSpace := fun s => s;
  Duration_String := fun d => (itoa d ++ "ns")%string
|}.

(** A reply whose [ca_chain] holds a certificate while its [issuing_ca] is
    no PEM at all, and a reply with neither. *)
Definition chainAndBadIssuingCA : vault.IssueResponse :=
  {| vault.Certificate := "leaf PEM"; vault.PrivateKey := "key PEM";
     vault.CAChain := ["ca PEM"%string]; vault.IssuingCA := "not pem" |}.

#[local] Instance pkiWire : vault.Wire := {|
  vault.json_Decode_issue := fun body =>
    if (body =? "chain and bad issuing_ca")%string then inr chainAndBadIssuingCA
    else if (body =? "no ca")%string then inr issued
    else inl "invalid character";
  vault.json_Decode_login := fun _ => inl "invalid character";
  vault.http_NewRequest_error := fun _ _ => None;
  vault.http_DefaultClient := fun _ _ => inl "dial tcp: connection refused"
|}.

(** A backend that answers every request with status 200 and one body, and
    an issuer in front of it that holds the token [tok]. *)
Definition okServer (body : string) : vault.Transport :=
  fun _ _ => inr {| vault.StatusCode := 200; vault.ResponseBody := body |}.

Definition tokClient (body : string) : vault.Client :=
  {| vault.Addr := "http://vault.test"; vault.Namespace := ""; vault.Token := "tok";
     vault.RoleID := ""; vault.SecretID := ""; vault.AuthPath := "";
     vault.HTTPClient := Some (okServer body) |}.

Definition issuerFor (body : string) (ttl : time.Duration) (requireCA : bool) : vault.Issuer :=
  {| vault.Client_ := Some (tokClient body);
     vault.PKIPath := "pki"; vault.Role := "role";
     vault.Issuer_CommonName := "service"; vault.Issuer_AltNames := [];
     vault.Issuer_URISANs := ["spiffe://corp/prod/stack/payments/service/api"%string];
     vault.Issuer_TTL := ttl; vault.RequireCA := requireCA |}.

End examples.

(** * Part II: theorems *)

(** ** Facts about the [strings] functions *)
Module strings_facts.
Import strings.

Lemma prefix_star (c : ascii) (rest : string) :
  prefix "*" (String c rest) = Ascii.eqb c "*".
Proof.
  cbn [prefix]. destruct (ascii_dec "*" c) as [<- | ne].
  - now destruct rest.
  - symmetry. apply Ascii.eqb_neq. congruence.
Qed.

Lemma Count_star_cons (c : ascii) (s : string) :
  Count (String c s) "*" = ((if Ascii.eqb c "*" then 1 else 0) + Count s "*")%nat.
Proof.
  unfold Count. cbn [CountFrom]. rewrite prefix_star.
  now destruct (Ascii.eqb c "*").
Qed.

Lemma Count_star_app (a b : string) :
  Count (a ++ b) "*" = (Count a "*" + Count b "*")%nat.
Proof.
  induction a as [| c a IH]; [reflexivity |].
  cbn [append]. rewrite !Count_star_cons, IH. lia.
Qed.

Lemma Count_star_zero (s : string) :
  Count s "*" = 0%nat <-> ~ In "*"%char (list_ascii_of_string s).
Proof.
  induction s as [| c s IH]; [simpl; tauto |].
  rewrite Count_star_cons. cbn [list_ascii_of_string In].
  destruct (Ascii.eqb c "*") eqn:E.
  - apply Ascii.eqb_eq in E. split; [lia | tauto].
  - apply Ascii.eqb_neq in E. rewrite Nat.add_0_l, IH. tauto.
Qed.

Lemma Contains_star (s : string) :
  Contains s "*" = true <-> In "*"%char (list_ascii_of_string s).
Proof.
  induction s as [| c s IH]; [simpl; intuition discriminate |].
  cbn [Contains]. rewrite prefix_star. cbn [list_ascii_of_string In].
  destruct (Ascii.eqb c "*") eqn:E.
  - apply Ascii.eqb_eq in E. split; auto.
  - apply Ascii.eqb_neq in E. rewrite IH. split; [auto | intros [H | H]; congruence].
Qed.

Lemma append_star_inv (a b : string) : a ++ "*" = b ++ "*" -> a = b.
Proof.
  revert b. induction a as [| c a IH]; intros [| d b] H; cbn in H.
  - reflexivity.
  - destruct b; discriminate.
  - destruct a; discriminate.
  - injection H as -> H. f_equal. now apply IH.
Qed.

Lemma HasSuffix_star_app (base : string) : HasSuffix (base ++ "*") "*" = true.
Proof.
  induction base as [| c base IH]; [reflexivity |].
  cbn [append HasSuffix]. rewrite IH. now destruct (_ =? _).
Qed.

Lemma HasSuffix_star_inv (s : string) :
  HasSuffix s "*" = true -> exists base, s = base ++ "*".
Proof.
  induction s as [| c s IH]; cbn [HasSuffix]; [discriminate |].
  destruct (String c s =? "*") eqn:E.
  - apply String.eqb_eq in E. exists "". now rewrite E.
  - intros H. destruct (IH H) as [base ->]. now exists (String c base).
Qed.

Lemma substring_all_but_last (base : string) (c : ascii) :
  substring 0 (String.length base) (base ++ String c "") = base.
Proof.
  induction base as [| d base IH]; [reflexivity |].
  cbn [append String.length substring]. now rewrite IH.
Qed.

Lemma length_append_one (base : string) (c : ascii) :
  String.length (base ++ String c "") = S (String.length base).
Proof. induction base; cbn; congruence. Qed.

Lemma TrimSuffix_star_app (base : string) : TrimSuffix (base ++ "*") "*" = base.
Proof.
  unfold TrimSuffix. rewrite HasSuffix_star_app, length_append_one.
  cbn [String.length]. rewrite Nat.sub_succ, Nat.sub_0_r.
  apply substring_all_but_last.
Qed.

Lemma Split_nonempty (s : string) (sep : ascii) : Split s sep <> [].
Proof.
  destruct s as [| c s]; cbn; [discriminate |].
  destruct (Ascii.eqb c sep); [discriminate |].
  now destruct (Split s sep).
Qed.

Lemma HasPrefix_iff (s pre : string) :
  HasPrefix s pre = true <-> exists rest, s = pre ++ rest.
Proof.
  unfold HasPrefix. revert s. induction pre as [| c pre IH]; intros s.
  - destruct s; cbn; split; eauto.
  - destruct s as [| d s]; cbn [prefix append].
    + split; [discriminate | intros [rest H]; discriminate].
    + destruct (ascii_dec c d) as [<- | ne].
      * rewrite IH. split; intros [rest H]; exists rest; congruence.
      * split; [discriminate | intros [rest H]; congruence].
Qed.

End strings_facts.

(** ** The authorizer *)
Module spiffe_facts.
Import strings url x509 spiffe strings_facts.

Lemma SegMatch_dec (pseg vseg : string) :
  (if pseg =? "+" then negb (vseg =? "") else pseg =? vseg) = true <-> SegMatch pseg vseg.
Proof.
  unfold SegMatch. destruct (pseg =? "+") eqn:P.
  - apply String.eqb_eq in P. destruct (vseg =? "") eqn:V.
    + apply String.eqb_eq in V. cbn. intuition congruence.
    + apply String.eqb_neq in V. cbn. intuition.
  - apply String.eqb_neq in P. rewrite String.eqb_eq. intuition.
Qed.

(** The loop of [matchSegments] never indexes out of range once the length
    checks passed, and decides the segment-wise match against a prefix of the
    value's segments. *)
Lemma segLoop_prefix (psegs : list string) :
  forall (done vsegs : list string),
    (List.length psegs <= List.length vsegs)%nat ->
    (segLoop psegs (done ++ vsegs)%list (List.length done) = Some true /\
       Forall2 SegMatch psegs (firstn (List.length psegs) vsegs))
    \/ (segLoop psegs (done ++ vsegs)%list (List.length done) = Some false /\
       ~ Forall2 SegMatch psegs (firstn (List.length psegs) vsegs)).
Proof.
  induction psegs as [| pseg rest IH]; intros done vsegs Hlen.
  - left. split; [reflexivity | constructor].
  - destruct vsegs as [| vseg vrest]; [cbn in Hlen; lia |].
    cbn [segLoop List.length firstn].
    rewrite nth_error_app2, Nat.sub_diag by lia. cbn [nth_error].
    pose proof (SegMatch_dec pseg vseg) as D.
    assert (Hstep : segLoop rest (done ++ vseg :: vrest)%list (S (List.length done))
                    = segLoop rest ((done ++ [vseg]) ++ vrest)%list (List.length (done ++ [vseg])%list)).
    { rewrite <- app_assoc, length_app. cbn. f_equal. lia. }
    assert (Hrest : (List.length rest <= List.length vrest)%nat) by (cbn in Hlen; lia).
    specialize (IH (done ++ [vseg])%list vrest Hrest). rewrite <- Hstep in IH.
    assert (Hno : ~ SegMatch pseg vseg ->
                  ~ Forall2 SegMatch (pseg :: rest) (vseg :: firstn (List.length rest) vrest)).
    { intros N F. inversion F; subst. contradiction. }
    destruct (pseg =? "+") eqn:P.
    + destruct (vseg =? "") eqn:V; cbn in D.
      * right. split; [reflexivity |]. apply Hno. intros M. apply D in M. discriminate.
      * destruct IH as [[-> F] | [-> F]]; [left | right]; split; try reflexivity.
        -- constructor; [now apply D | exact F].
        -- intros G. inversion G; subst. contradiction.
    + destruct (pseg =? vseg) eqn:V; cbn [negb].
      * destruct IH as [[-> F] | [-> F]]; [left | right]; split; try reflexivity.
        -- constructor; [now apply D | exact F].
        -- intros G. inversion G; subst. contradiction.
      * right. split; [reflexivity |]. apply Hno. intros M. apply D in M. discriminate.
Qed.

Lemma Forall2_prefix_iff (psegs vsegs : list string) :
  ((List.length psegs <= List.length vsegs)%nat /\
   Forall2 SegMatch psegs (firstn (List.length psegs) vsegs))
  <-> exists matched extra, vsegs = (matched ++ extra)%list /\ Forall2 SegMatch psegs matched.
Proof.
  split.
  - intros [_ F]. exists (firstn (List.length psegs) vsegs), (skipn (List.length psegs) vsegs).
    split; [symmetry; apply firstn_skipn | exact F].
  - intros (matched & extra & -> & F).
    pose proof (Forall2_length F) as L. rewrite length_app. split; [lia |].
    rewrite L, firstn_app, Nat.sub_diag, firstn_all. cbn. now rewrite app_nil_r.
Qed.

Lemma dropTrailingEmpty_code (segs : list string) :
  (if (0 <? List.length segs)%nat && (last segs "x" =? "") then removelast segs else segs)
  = dropTrailingEmpty segs.
Proof.
  unfold dropTrailingEmpty.
  induction segs as [| s0 segs _] using rev_ind; [reflexivity |].
  rewrite rev_app_distr, last_last, removelast_last, length_app. cbn [rev List.length app].
  replace (0 <? List.length segs + 1)%nat with true by (symmetry; apply Nat.ltb_lt; lia).
  cbn [andb]. destruct s0 as [| c s0]; cbn; [now rewrite rev_involutive | reflexivity].
Qed.

Lemma matchSegments_prefix (base value : string) :
  let psegs := dropTrailingEmpty (Split base "/") in
  let vsegs := Split value "/" in
  (matchSegments base value true = Some true /\
     exists matched extra, vsegs = (matched ++ extra)%list /\ Forall2 SegMatch psegs matched)
  \/ (matchSegments base value true = Some false /\
     ~ exists matched extra, vsegs = (matched ++ extra)%list /\ Forall2 SegMatch psegs matched).
Proof.
  intros psegs vsegs. unfold matchSegments. cbn [negb andb].
  change (true && (0 <? List.length (Split base "/"))%nat && (last (Split base "/") "x" =? ""))
    with ((0 <? List.length (Split base "/"))%nat && (last (Split base "/") "x" =? "")).
  rewrite dropTrailingEmpty_code. fold psegs vsegs.
  destruct (List.length vsegs <? List.length psegs)%nat eqn:L.
  - apply Nat.ltb_lt in L. right. split; [reflexivity |].
    rewrite <- Forall2_prefix_iff. lia.
  - apply Nat.ltb_ge in L.
    destruct (segLoop_prefix psegs [] vsegs L) as [[E F] | [E F]]; cbn in E; rewrite E;
      [left | right]; split; try reflexivity; rewrite <- Forall2_prefix_iff; tauto.
Qed.

Lemma matchSegments_exact (pattern value : string) :
  let psegs := Split pattern "/" in
  let vsegs := Split value "/" in
  (matchSegments pattern value false = Some true /\ Forall2 SegMatch psegs vsegs)
  \/ (matchSegments pattern value false = Some false /\ ~ Forall2 SegMatch psegs vsegs).
Proof.
  intros psegs vsegs. unfold matchSegments. cbn [negb andb]. fold psegs vsegs.
  destruct (List.length psegs =? List.length vsegs)%nat eqn:L; cbn [negb].
  - apply Nat.eqb_eq in L.
    destruct (segLoop_prefix psegs [] vsegs ltac:(lia)) as [[E F] | [E F]]; cbn in E; rewrite E;
      rewrite L, firstn_all in F; [left | right]; split; auto.
  - apply Nat.eqb_neq in L. right. split; [reflexivity |].
    intros F. apply Forall2_length in F. contradiction.
Qed.

Lemma HasStar_middle (a b : string) : HasStar (a ++ "*" ++ b).
Proof. unfold HasStar. induction a; cbn; auto. Qed.

Lemma GlobMatch_nonempty (pattern value : string) :
  GlobMatch pattern value -> pattern <> "" /\ value <> "".
Proof.
  intros [base matched extra -> _ V _ _ | _ P V _]; split; auto.
  now destruct base.
Qed.

Lemma GlobMatch_stars (pattern value : string) :
  GlobMatch pattern value ->
  (Count pattern "*" <= 1)%nat /\ (HasStar pattern -> HasSuffix pattern "*" = true).
Proof.
  intros [base matched extra -> N _ _ _ | N _ _ _].
  - rewrite Count_star_app. apply Count_star_zero in N. rewrite N. cbn. split; [lia |].
    intros _. apply HasSuffix_star_app.
  - split; [| contradiction]. apply Count_star_zero in N. lia.
Qed.

(** [matchGlob] never panics and answers true exactly on the pairs that
    [GlobMatch] relates. *)
Lemma matchGlob_decides (pattern value : string) :
  (matchGlob pattern value = Some true /\ GlobMatch pattern value)
  \/ (matchGlob pattern value = Some false /\ ~ GlobMatch pattern value).
Proof.
  unfold matchGlob.
  destruct ((pattern =? "") || (value =? "")) eqn:E0.
  { right. split; [reflexivity |]. intros G. apply GlobMatch_nonempty in G.
    apply orb_true_iff in E0. rewrite !String.eqb_eq in E0. tauto. }
  apply orb_false_iff in E0. rewrite !String.eqb_neq in E0. destruct E0 as [Pne Vne].
  destruct (1 <? Count pattern "*")%nat eqn:E1.
  { right. split; [reflexivity |]. intros G. apply GlobMatch_stars in G.
    apply Nat.ltb_lt in E1. lia. }
  apply Nat.ltb_ge in E1.
  destruct (Contains pattern "*" && negb (HasSuffix pattern "*")) eqn:E2.
  { right. split; [reflexivity |]. intros G. apply GlobMatch_stars in G.
    apply andb_true_iff in E2. destruct E2 as [C S]. apply Contains_star in C.
    destruct G as [_ G]. rewrite (G C) in S. discriminate. }
  destruct (HasSuffix pattern "*") eqn:E3.
  - destruct (HasSuffix_star_inv _ E3) as [base ->]. rewrite TrimSuffix_star_app.
    assert (N : ~ HasStar base).
    { apply Count_star_zero. rewrite Count_star_app in E1. cbn in E1. lia. }
    destruct (matchSegments_prefix base value) as [[-> (m & x & S & F)] | [-> F]];
      [left | right]; split; try reflexivity.
    + now apply (GlobTrailingStar _ _ base m x).
    + intros [base' m x Eq _ _ S F' | N' _ _ _].
      * apply append_star_inv in Eq. subst base'. apply F. eauto.
      * apply N'. apply (HasStar_middle base "").
  - rewrite andb_false_iff in E2. destruct E2 as [C | C]; [| discriminate].
    assert (N : ~ HasStar pattern).
    { intros H. apply Contains_star in H. congruence. }
    destruct (matchSegments_exact pattern value) as [[-> F] | [-> F]];
      [left | right]; split; try reflexivity.
    + now apply GlobSameLength.
    + intros [base m x -> _ _ _ _ | _ _ _ F']; [| contradiction].
      rewrite HasSuffix_star_app in E3. discriminate.
Qed.

(** C3. [matchGlob] is the restricted glob: it never panics, it answers false
    on an empty pattern or value, on a pattern with two or more ['*'] and on a
    pattern with a ['*'] that is not its last byte, and in every case it
    answers true exactly when [GlobMatch] holds: with a trailing ['*'] the
    segments before it (a trailing empty one dropped) match a prefix of the
    value's segments, without one pattern and value match segment by segment
    with equal segment counts; ['+'] matches one non-empty segment and every
    other segment matches literally. *)
Theorem matchGlob_restricted_glob (pattern value : string) :
  (pattern = "" \/ value = "" -> matchGlob pattern value = Some false)
  /\ (forall a b c, pattern = a ++ "*" ++ b ++ "*" ++ c -> matchGlob pattern value = Some false)
  /\ (forall a b, pattern = a ++ "*" ++ b -> b <> "" -> matchGlob pattern value = Some false)
  /\ ((matchGlob pattern value = Some true /\ GlobMatch pattern value)
      \/ (matchGlob pattern value = Some false /\ ~ GlobMatch pattern value)).
Proof.
  pose proof (matchGlob_decides pattern value) as Main.
  assert (False_of : ~ GlobMatch pattern value -> matchGlob pattern value = Some false).
  { intros N. destruct Main as [[_ G] | [E _]]; [contradiction | exact E]. }
  repeat split; try exact Main.
  - intros E. apply False_of. intros G. apply GlobMatch_nonempty in G. tauto.
  - intros a b c -> . apply False_of. intros G. apply GlobMatch_stars in G.
    rewrite !Count_star_app in G. cbn in G. lia.
  - intros a b -> B. apply False_of. intros G. apply GlobMatch_stars in G.
    destruct G as [G1 G2].
    pose proof (HasStar_middle a b) as S.
    apply G2, HasSuffix_star_inv in S. destruct S as [base S].
    rewrite !Count_star_app in G1. cbn in G1.
    assert (Hb : Count b "*" = 0%nat) by lia.
    (* b is non-empty and ends with the star of [base ++ "*"] *)
    assert (HasSuffix b "*" = true) as Sb.
    { clear - S B. revert base S. induction a as [| c a IH]; intros base S.
      - cbn in S. destruct base as [| d base]; cbn in S.
        + injection S as S. congruence.
        + injection S as _ S. rewrite S. apply HasSuffix_star_app.
      - destruct base as [| d base]; cbn in S.
        + injection S as _ S. destruct a; discriminate.
        + injection S as _ S. eapply IH; eauto. }
    apply HasSuffix_star_inv in Sb. destruct Sb as [b' ->].
    rewrite Count_star_app in Hb. cbn in Hb. lia.
Qed.

Lemma anyExact_iff (rules : list string) (id : string) :
  anyExact rules id = true <-> In id rules.
Proof.
  unfold anyExact. rewrite existsb_exists. split.
  - intros (x & I & E). apply String.eqb_eq in E. now subst.
  - intros I. exists id. split; [exact I | apply String.eqb_refl].
Qed.

Lemma anyPrefix_iff (rules : list string) (id : string) :
  anyPrefix rules id = true <-> exists p, In p rules /\ exists rest, id = p ++ rest.
Proof.
  unfold anyPrefix. rewrite existsb_exists.
  split; intros (p & I & H); exists p; (split; [exact I |]); now apply HasPrefix_iff.
Qed.

Lemma anyGlob_dec (rules : list string) (id : string) :
  (anyGlob rules id = Some true /\ exists g, In g rules /\ GlobMatch g id)
  \/ (anyGlob rules id = Some false /\ ~ exists g, In g rules /\ GlobMatch g id).
Proof.
  induction rules as [| glob rest IH]; cbn [anyGlob].
  - right. split; [reflexivity | intros (g & [] & _)].
  - destruct (matchGlob_decides glob id) as [[-> G] | [-> N]].
    + left. split; [reflexivity |]. exists glob. cbn; auto.
    + destruct IH as [[-> (g & I & G)] | [-> M]]; [left | right]; split; try reflexivity.
      * exists g. cbn; auto.
      * intros (g & [<- | I] & G); [contradiction | apply M; eauto].
Qed.

Lemma uriLoop_dec (a : Authorizer) (uris : list URL) :
  let ok := exists uri, In uri uris /\ Scheme uri = "spiffe" /\ RuleMatch a (String_ uri) in
  (uriLoop a uris = Some true /\ ok) \/ (uriLoop a uris = Some false /\ ~ ok).
Proof.
  induction uris as [| uri rest IH]; cbn zeta in *; cbn [uriLoop].
  - right. split; [reflexivity | intros (u & [] & _)].
  - assert (Later : forall P : Prop,
              (P -> ~ (Scheme uri = "spiffe" /\ RuleMatch a (String_ uri))) ->
              P ->
              (uriLoop a rest = Some true /\
                 exists u, In u (uri :: rest) /\ Scheme u = "spiffe" /\ RuleMatch a (String_ u))
              \/ (uriLoop a rest = Some false /\
                 ~ exists u, In u (uri :: rest) /\ Scheme u = "spiffe" /\ RuleMatch a (String_ u))).
    { intros P N HP. destruct IH as [[-> (u & I & S & M)] | [-> No]]; [left | right];
        split; try reflexivity.
      - exists u. cbn; auto.
      - intros (u & [<- | I] & S & M); [now apply (N HP) | apply No; eauto]. }
    assert (Here : RuleMatch a (String_ uri) -> Scheme uri = "spiffe" ->
              exists u, In u (uri :: rest) /\ Scheme u = "spiffe" /\ RuleMatch a (String_ u)).
    { intros M S. exists uri. cbn; auto. }
    destruct (Scheme uri =? "spiffe") eqn:S; cbn [negb].
    2:{ apply String.eqb_neq in S. apply (Later True); tauto. }
    apply String.eqb_eq in S.
    destruct (anyExact (AllowedExact a) (String_ uri)) eqn:E.
    { left. split; [reflexivity |]. apply Here; [| exact S]. left. now apply anyExact_iff. }
    destruct (anyPrefix (AllowedPrefixes a) (String_ uri)) eqn:P.
    { left. split; [reflexivity |]. apply Here; [| exact S]. right; left. now apply anyPrefix_iff. }
    destruct (anyGlob_dec (AllowedGlobs a) (String_ uri)) as [[-> G] | [-> G]].
    { left. split; [reflexivity |]. apply Here; [| exact S]. right; right. exact G. }
    apply (Later True); [| exact I]. intros _ [_ [M | [M | M]]].
    + apply anyExact_iff in M. congruence.
    + apply anyPrefix_iff in M. congruence.
    + contradiction.
Qed.

(** C4. [VerifyPeerCertificate] never panics; it returns nil exactly when the
    leaf of the first verified chain carries a URI of scheme [spiffe] whose
    string form is matched by an exact rule (equality), a prefix rule (string
    prefix) or a glob rule; it rejects with "no verified chain" when there is
    no chain or the first chain is empty, and with "client SPIFFE ID not
    allowed" when no spiffe-scheme URI of the leaf matches a rule (URIs of
    other schemes are ignored, so a leaf without spiffe URIs is rejected). *)
Theorem VerifyPeerCertificate_accepts_iff (a : Authorizer)
    (verifiedChains : list (list Certificate)) :
  (VerifyPeerCertificate a verifiedChains = Some None <->
     exists leaf others chains,
       verifiedChains = (leaf :: others) :: chains /\
       exists uri, In uri (URIs leaf) /\ Scheme uri = "spiffe" /\ RuleMatch a (String_ uri))
  /\ (verifiedChains = [] \/ (exists chains, verifiedChains = [] :: chains) ->
      VerifyPeerCertificate a verifiedChains = Some (Some "no verified chain"))
  /\ (forall leaf others chains,
        verifiedChains = (leaf :: others) :: chains ->
        (forall uri, In uri (URIs leaf) -> Scheme uri = "spiffe" ->
                     ~ RuleMatch a (String_ uri)) ->
        VerifyPeerCertificate a verifiedChains = Some (Some "client SPIFFE ID not allowed")).
Proof.
  split; [| split].
  - destruct verifiedChains as [| [| leaf others] chains]; cbn [VerifyPeerCertificate].
    + split; [discriminate | intros (? & ? & ? & ? & _); discriminate].
    + split; [discriminate | intros (? & ? & ? & ? & _); discriminate].
    + destruct (uriLoop_dec a (URIs leaf)) as [[-> ok] | [-> no]]; cbn zeta in *.
      * split; [intros _ | reflexivity]. now exists leaf, others, chains.
      * split; [discriminate |]. intros (l & o & c & Eq & ok). injection Eq as -> -> ->.
        contradiction.
  - intros [-> | [chains ->]]; reflexivity.
  - intros leaf others chains -> No. cbn [VerifyPeerCertificate].
    destruct (uriLoop_dec a (URIs leaf)) as [[-> ok] | [-> no]]; cbn zeta in *; [| reflexivity].
    destruct ok as (uri & I & S & M). now destruct (No uri I S).
Qed.

Import examples.

(** Two rows of the package's table of glob edge cases: a ['+'] segment
    matches [prod], and a ['*'] in the middle of a pattern matches nothing. *)
Lemma matchGlob_edge_cases :
  GlobMatch "spiffe://corp/+/svc" "spiffe://corp/prod/svc"
  /\ matchGlob "spiffe://corp/*/bad" "spiffe://corp/prod/bad" = Some false.
Proof.
  split.
  - destruct (proj2 (proj2 (proj2
        (matchGlob_restricted_glob "spiffe://corp/+/svc" "spiffe://corp/prod/svc"))))
      as [[_ G] | [E _]]; [exact G | vm_compute in E; discriminate E].
  - apply (proj1 (proj2 (proj2
        (matchGlob_restricted_glob "spiffe://corp/*/bad" "spiffe://corp/prod/bad")))
        "spiffe://corp/" "/bad"); [reflexivity | discriminate].
Defined.

(** The package's two authorizer tests: an exact rule accepts the SPIFFE ID
    it names, and a certificate whose only URI is an https one is rejected even
    by a rule that its string would match. *)
Lemma VerifyPeerCertificate_tests :
  VerifyPeerCertificate paymentsExact
    [[certWithURI "spiffe" "spiffe://corp/prod/stack/payments/service/api"]] = Some None
  /\ VerifyPeerCertificate httpsPrefix
       [[certWithURI "https" "https://corp/prod/stack/payments/service/api"]]
     = Some (Some "client SPIFFE ID not allowed").
Proof.
  split.
  - apply (proj1 (VerifyPeerCertificate_accepts_iff paymentsExact
        [[certWithURI "spiffe" "spiffe://corp/prod/stack/payments/service/api"]])).
    do 3 eexists. split; [reflexivity |]. eexists. split; [left; reflexivity |].
    split; [reflexivity |]. left. left. reflexivity.
  - apply (proj2 (proj2 (VerifyPeerCertificate_accepts_iff httpsPrefix
        [[certWithURI "https" "https://corp/prod/stack/payments/service/api"]]))
        _ [] [] eq_refl).
    intros uri [<- | []] S. discriminate S.
Defined.

End spiffe_facts.

(** ** The rotation manager *)
Module certmanager_facts.
Import golib certmanager.

Section StateMachine.
Context {lib : Lib}.

(** What one refresh attempt does to the process, whatever it returns:
    one more [Issue] call, and a [Store] exactly when that call returned a
    nil error. *)
Lemma refresh_effect (p : Process) :
  let r := issuer (mgr p) (issues p) in
  issues (snd (refresh p)) = S (issues p)
  /\ mgr (snd (refresh p)) =
       match snd r with
       | Some _ => mgr p
       | None => set_curr (Some (fst r)) (mgr p)
       end.
Proof.
  unfold refresh, go.bind, callIssue, Store, callNow, go.modify, go.ret, go.panic.
  cbn zeta. destruct (issuer (mgr p) (issues p)) as [bundle [e |]]; cbn.
  - auto.
  - destruct (Now (opts (mgr p))); cbn; [destruct bundle |]; cbn; auto.
Qed.

Lemma refreshes_S (n : nat) (p : Process) :
  refreshes (S n) p = snd (refresh (refreshes n p)).
Proof.
  revert p. induction n as [| n IH]; intros p; [reflexivity |].
  change (refreshes (S (S n)) p) with (refreshes (S n) (snd (refresh p))).
  now rewrite IH.
Qed.

Lemma refreshes_frame (n : nat) (p : Process) :
  issues (refreshes n p) = (issues p + n)%nat
  /\ issuer (mgr (refreshes n p)) = issuer (mgr p)
  /\ opts (mgr (refreshes n p)) = opts (mgr p).
Proof.
  induction n as [| n (I & Is & O)]; [cbn; auto with arith |].
  rewrite refreshes_S. destruct (refresh_effect (refreshes n p)) as [E1 E2].
  cbn zeta in E2. rewrite E1, E2, I.
  split; [lia |].
  destruct (snd (issuer (mgr (refreshes n p)) (issues p + n))); cbn; auto.
Qed.

Lemma refreshes_curr (n : nat) (p : Process) :
  (forall k, (k < n)%nat -> snd (issuer (mgr p) (issues p + k)) <> None)
  /\ curr (mgr (refreshes n p)) = curr (mgr p)
  \/ exists k, (k < n)%nat
       /\ snd (issuer (mgr p) (issues p + k)) = None
       /\ (forall j, (k < j < n)%nat -> snd (issuer (mgr p) (issues p + j)) <> None)
       /\ curr (mgr (refreshes n p)) = Some (fst (issuer (mgr p) (issues p + k))).
Proof.
  induction n as [| n IH].
  - left. split; [intros k Hk | reflexivity]. lia.
  - rewrite refreshes_S. destruct (refresh_effect (refreshes n p)) as [_ E].
    destruct (refreshes_frame n p) as (I & Is & _). cbn zeta in E.
    rewrite I, Is in E. rewrite E. clear E.
    destruct (snd (issuer (mgr p) (issues p + n))) as [e |] eqn:R.
    + destruct IH as [[F C] | (k & Hk & S & L & C)].
      * left. split; [| exact C]. intros k Hk.
        destruct (Nat.eq_dec k n) as [-> | ne]; [congruence | apply F; lia].
      * right. exists k. repeat split; auto with arith.
        intros j Hj. destruct (Nat.eq_dec j n) as [-> | ne]; [congruence | apply L; lia].
    + right. exists n. repeat split; auto with arith. intros j Hj. lia.
Qed.

(** C1. Start from a freshly constructed manager and make any number [n] of
    refresh attempts, the [k]-th one receiving [issuer k] from [Issue].
    While every attempt so far failed, [Current] returns [ErrNotReady]; once
    an attempt succeeded, [Current] returns a nil error and the bundle stored
    by the latest successful attempt, so it never reverts to [ErrNotReady];
    and one more attempt whose [Issue] call fails leaves the manager, hence
    what [Current] returns, exactly as it was. *)
Theorem Current_follows_refreshes (issuer : Issuer) (o : Options) (n : nat) :
  let p := refreshes n (boot (NewWithOptions issuer o)) in
  ((forall k, (k < n)%nat -> snd (issuer k) <> None) ->
     Current (mgr p) = (None, Some ErrNotReady))
  /\ (forall k, (k < n)%nat -> snd (issuer k) = None ->
        snd (Current (mgr p)) = None
        /\ exists j, (k <= j < n)%nat /\ snd (issuer j) = None
             /\ Current (mgr p) = (fst (issuer j), None))
  /\ (forall k, (k < n)%nat -> snd (issuer k) = None ->
        (forall j, (k < j < n)%nat -> snd (issuer j) <> None) ->
        Current (mgr p) = (fst (issuer k), None))
  /\ (snd (issuer n) <> None ->
        mgr (snd (refresh p)) = mgr p
        /\ Current (mgr (snd (refresh p))) = Current (mgr p)).
Proof.
  intros p. subst p. set (p0 := boot (NewWithOptions issuer o)).
  destruct (refreshes_frame n p0) as (I & Is & _).
  pose proof (refreshes_curr n p0) as C.
  destruct (refresh_effect (refreshes n p0)) as [_ E]. cbn zeta in E.
  rewrite I, Is in E.
  change (issues p0) with 0%nat in *. change (certmanager.issuer (mgr p0)) with issuer in *.
  change (curr (mgr p0)) with (@None (option Bundle)) in *.
  rewrite Nat.add_0_l in *.
  assert (Latest : forall k, (k < n)%nat -> snd (issuer k) = None ->
            exists j, (k <= j < n)%nat /\ snd (issuer j) = None
              /\ (forall i, (j < i < n)%nat -> snd (issuer i) <> None)
              /\ curr (mgr (refreshes n p0)) = Some (fst (issuer j))).
  { intros k Hk S. destruct C as [[F _] | (j & Hj & Sj & L & Cj)].
    - now destruct (F k Hk).
    - exists j. repeat split; auto; try lia.
      destruct (Nat.lt_ge_cases j k) as [Lt | Ge]; [| exact Ge].
      destruct (L k); [lia | exact S]. }
  split; [| split; [| split]].
  - intros F. destruct C as [[_ Cn] | (k & Hk & S & _)]; [| now destruct (F k Hk)].
    unfold Current. now rewrite Cn.
  - intros k Hk S. destruct (Latest k Hk S) as (j & Hj & Sj & _ & Cj).
    unfold Current. rewrite Cj. split; [reflexivity |]. exists j. auto.
  - intros k Hk S L. destruct (Latest k Hk S) as (j & Hj & Sj & _ & Cj).
    assert (j = k) as ->.
    { destruct (Nat.eq_dec j k) as [Eq | ne]; [exact Eq |]. destruct (L j); [lia | exact Sj]. }
    unfold Current. now rewrite Cj.
  - intros F. destruct (snd (issuer n)); [| congruence]. now rewrite E.
Qed.

End StateMachine.

Local Open Scope Z_scope.

Section Scheduling.
Context {lib : Lib}.

(** C10. Whatever the options, the constructed manager has positive
    [MinRefresh], [ErrorBackoff] and [HookTimeout] and a non-nil [Now]: a value
    [<= 0] becomes 30 s, 15 s and 2 s respectively and a positive one is kept, a
    nil [Now] becomes [time.Now] and a given one is kept; the hooks and the
    issuer are taken over and no bundle is stored yet. So [New], which
    passes the zero [Options], yields exactly these defaults, and its clock
    can be called. *)
Theorem NewWithOptions_defaults (issuer : Issuer) (o : Options) :
  let m := NewWithOptions issuer o in
  (0 < MinRefresh (opts m) /\ 0 < ErrorBackoff (opts m) /\ 0 < HookTimeout (opts m))%Z
  /\ (exists f, Now (opts m) = Some f /\
        forall p, mgr p = m -> fst (callNow p) = go.Done (f (ticks p)))
  /\ ((MinRefresh o <= 0 -> MinRefresh (opts m) = 30 * time.Second)
      /\ (0 < MinRefresh o -> MinRefresh (opts m) = MinRefresh o))%Z
  /\ ((ErrorBackoff o <= 0 -> ErrorBackoff (opts m) = 15 * time.Second)
      /\ (0 < ErrorBackoff o -> ErrorBackoff (opts m) = ErrorBackoff o))%Z
  /\ ((HookTimeout o <= 0 -> HookTimeout (opts m) = 2 * time.Second)
      /\ (0 < HookTimeout o -> HookTimeout (opts m) = HookTimeout o))%Z
  /\ ((Now o = None -> Now (opts m) = Some time_Now)
      /\ (forall f, Now o = Some f -> Now (opts m) = Some f))
  /\ (OnRotate (opts m) = OnRotate o /\ OnError (opts m) = OnError o
      /\ certmanager.issuer m = issuer /\ curr m = None)
  /\ opts (New issuer) =
       {| MinRefresh := 30 * time.Second; ErrorBackoff := 15 * time.Second;
          HookTimeout := 2 * time.Second; OnRotate := None; OnError := None;
          Now := Some time_Now |}.
Proof.
  cbn zeta. unfold NewWithOptions, time.Second. cbn [opts MinRefresh ErrorBackoff HookTimeout
    Now OnRotate OnError certmanager.issuer curr].
  repeat match goal with
         | |- context [(?x <=? 0)%Z] => destruct (Z.leb_spec x 0)
         end;
  (split; [lia |]);
  (split; [destruct (Now o) as [f |]; eexists; (split; [reflexivity |]);
           intros p E; unfold callNow; rewrite E; reflexivity |]);
  repeat split; intros; try lia; try congruence;
  try (destruct (Now o); congruence).
Qed.

(** X1. Within 2^62 ns (some 146 years) either way, the next refresh time that
    [refresh] returns is the issuance time plus two thirds of the lifetime,
    the division truncating toward zero as Go's does. *)
Lemma refresh_two_thirds (p : Process) (b : Bundle) (f : NowFn) :
  issuer (mgr p) (issues p) = (Some b, None) ->
  Now (opts (mgr p)) = Some f ->
  let t0 := f (ticks p) in
  let L := (NotAfter b - t0)%Z in
  (- 2 ^ 62 <= L < 2 ^ 62)%Z ->
  fst (refresh p) = go.Done (Some b, (t0 + Z.quot (2 * L) 3)%Z, None)
  /\ Current (mgr (snd (refresh p))) = (Some b, None).
Proof.
  intros I N t0 L R.
  unfold refresh, go.bind, callIssue, Store, callNow, go.modify, go.ret. rewrite I. cbn.
  rewrite N. cbn. split; [| reflexivity]. do 3 f_equal.
  unfold time.Add, time.Sub, time.maxDuration, time.minDuration. fold t0. fold L.
  destruct (Z.ltb_spec (2 ^ 63 - 1) L); [lia |].
  destruct (Z.ltb_spec L (- 2 ^ 63)); [lia |].
  assert (W : wrap64 (L * 2) = 2 * L).
  { unfold wrap64. rewrite Z.mod_small; lia. }
  now rewrite W.
Qed.

Lemma refresh_keeps (p : Process) :
  slept (snd (refresh p)) = slept p /\ opts (mgr (snd (refresh p))) = opts (mgr p).
Proof.
  unfold refresh, go.bind, callIssue, Store, callNow, go.modify, go.ret, go.panic.
  destruct (issuer (mgr p) (issues p)) as [bundle [e |]]; cbn; [auto |].
  destruct (Now (opts (mgr p))); cbn; [destruct bundle |]; cbn; auto.
Qed.

Lemma onRotate_keeps (bundle : option Bundle) (p : Process) :
  fst (onRotate bundle p) = go.Done tt
  /\ slept (snd (onRotate bundle p)) = slept p
  /\ opts (mgr (snd (onRotate bundle p))) = opts (mgr p).
Proof.
  unfold onRotate, go.bind, getOpts, WithTimeout, wallNow, spawn, go.modify, go.ret.
  destruct (OnRotate (opts (mgr p))); [destruct bundle |]; cbn; auto.
Qed.

Lemma wrap64_small (z : Z) : - 2 ^ 63 <= z < 2 ^ 63 -> wrap64 z = z.
Proof. intros R. unfold wrap64. rewrite Z.mod_small; lia. Qed.

Lemma tenth_plus_one (w : Z) :
  0 < w <= 2 ^ 63 - 1 ->
  - 2 ^ 63 <= Z.quot w 10 + 1 < 2 ^ 63 /\ Z.quot w 10 + 1 <> 0.
Proof.
  intros R. pose proof (Z.quot_pos w 10 ltac:(lia) ltac:(lia)).
  pose proof (Z.mul_quot_le w 10 ltac:(lia) ltac:(lia)). lia.
Qed.

(** X2. After a successful refresh [Run] sleeps for the time left until the
    next refresh, floored at [MinRefresh], plus the jitter taken from the
    clock. *)
Lemma RunLoop_sleeps_floored_wait (ctx : Ctx) (p : Process) (b : Bundle)
    (next : time.Time) (f : NowFn) :
  fst (refresh p) = go.Done (Some b, next, None) ->
  Now (opts (mgr p)) = Some f ->
  0 < MinRefresh (opts (mgr p)) <= time.maxDuration ->
  let p1 := snd (onRotate (Some b) (snd (refresh p))) in
  let now1 := f (ticks p1) in
  let now2 := f (S (ticks p1)) in
  let wait := Z.max (time.Sub next now1) (MinRefresh (opts (mgr p))) in
  let jitter := Z.rem (time.UnixNano now2) (Z.quot wait 10 + 1) in
  slept (snd (RunLoop ctx 1 p)) = (slept p ++ [wrap64 (wait + jitter)])%list.
Proof.
  intros R N M p1 now1 now2 wait jitter.
  destruct (refresh_keeps p) as [S0 O0].
  destruct (onRotate_keeps (Some b) (snd (refresh p))) as (D1 & S1 & O1).
  fold p1 in D1, S1, O1.
  cbn [RunLoop]. unfold go.bind at 1.
  destruct (refresh p) as [r q]. cbn [fst snd] in *. subst r.
  unfold go.bind at 1, getOpts at 1. unfold go.bind at 1.
  destruct (onRotate (Some b) q) as [d p1']. cbn [fst snd] in *. subst d p1.
  rewrite O0 in *.
  unfold go.bind at 1, callNow at 1. rewrite O1, N.
  unfold go.bind at 1, callNow at 1. cbn [tick mgr ticks]. rewrite O1, N.
  fold now1 now2.
  assert (W : (if time.Sub next now1 <? MinRefresh (opts (mgr p))
               then MinRefresh (opts (mgr p)) else time.Sub next now1) = wait).
  { unfold wait. destruct (Z.ltb_spec (time.Sub next now1) (MinRefresh (opts (mgr p)))); lia. }
  rewrite W. clear W. unfold time.maxDuration in M.
  assert (Range : 0 < wait <= 2 ^ 63 - 1).
  { subst wait. unfold time.Sub, time.maxDuration, time.minDuration in *.
    repeat match goal with |- context [(?a <? ?b)] => destruct (Z.ltb_spec a b) end; lia. }
  destruct (tenth_plus_one wait Range) as [Small NonZero].
  rewrite (wrap64_small _ Small).
  destruct (Z.eqb_spec (Z.quot wait 10 + 1) 0) as [Zero | _]; [contradiction |].
  fold jitter. unfold go.bind at 1, sleep at 1. cbn [slept].
  destruct (negb _); cbn; now rewrite S1, S0.
Qed.

End Scheduling.

Section Hooks.
Context {lib : Lib}.

Lemma hookBlind_ret {A : Type} (a : A) : hookBlind (go.ret a).
Proof. intros p. reflexivity. Qed.

Lemma hookBlind_bind {A B : Type} (c : go.M Process A) (k : A -> go.M Process B) :
  hookBlind c -> (forall a, hookBlind (k a)) -> hookBlind (go.bind c k).
Proof.
  intros Hc Hk p. unfold go.bind. rewrite Hc.
  destruct (c p) as [[a | msg] q]; cbn [fst snd]; [apply Hk | reflexivity].
Qed.

Lemma hookBlind_refresh : hookBlind refresh.
Proof.
  intros p. unfold refresh, go.bind, callIssue, Store, callNow, go.modify, go.ret, go.panic.
  cbn [quietProcess mgr issues ticks certmanager.issuer opts quiet Now].
  destruct (issuer (mgr p) (issues p)) as [bundle [e |]]; [reflexivity |].
  cbn. destruct (Now (opts (mgr p))); [destruct bundle |]; reflexivity.
Qed.

Lemma hookBlind_callNow : hookBlind callNow.
Proof.
  intros p. unfold callNow. cbn [quietProcess mgr opts quiet Now ticks].
  now destruct (Now (opts (mgr p))).
Qed.

Lemma hookBlind_sleep (ctx : Ctx) (d : time.Duration) : hookBlind (sleep ctx d).
Proof. intros p. reflexivity. Qed.

Lemma hookBlind_onRotate (bundle : option Bundle) : hookBlind (onRotate bundle).
Proof.
  intros p. unfold onRotate, go.bind, getOpts, WithTimeout, wallNow, spawn, go.modify, go.ret.
  cbn [quietProcess mgr opts quiet OnRotate HookTimeout].
  destruct (OnRotate (opts (mgr p))) as [hook |]; [| reflexivity].
  destruct bundle as [b |]; [| reflexivity].
  cbn. unfold quietProcess. cbn. now rewrite map_app.
Qed.

Lemma hookBlind_onError (err : option error) : hookBlind (onError err).
Proof.
  intros p. unfold onError, go.bind, getOpts, WithTimeout, wallNow, spawn, go.modify, go.ret.
  cbn [quietProcess mgr opts quiet OnError HookTimeout].
  destruct (OnError (opts (mgr p))) as [hook |]; [| reflexivity].
  destruct err as [e |]; [| reflexivity].
  cbn. unfold quietProcess. cbn. now rewrite map_app.
Qed.

(** Reading the options is blind to hooks as far as the continuation reads
    the intervals only. *)
Lemma hookBlind_getOpts {B : Type} (k : Options -> go.M Process B) :
  (forall o, hookBlind (k o)) ->
  (forall o, k (quiet o) = k o) ->
  hookBlind (go.bind getOpts k).
Proof.
  intros Hk Hq p. unfold go.bind, getOpts.
  cbn [quietProcess mgr opts]. rewrite Hq. apply Hk.
Qed.

Lemma hookBlind_RunLoop (ctx : Ctx) (turns : nat) : hookBlind (RunLoop ctx turns).
Proof.
  induction turns as [| turns IH]; [apply hookBlind_ret |].
  cbn [RunLoop]. apply hookBlind_bind; [apply hookBlind_refresh |].
  intros [[bundle next] err]. apply hookBlind_getOpts.
  - intros o. destruct err as [e |].
    + apply hookBlind_bind; [apply hookBlind_onError |]. intros _.
      apply hookBlind_bind; [apply hookBlind_sleep |].
      intros [|]; [exact IH | apply hookBlind_ret].
    + apply hookBlind_bind; [apply hookBlind_onRotate |]. intros _.
      apply hookBlind_bind; [apply hookBlind_callNow |]. intros now1.
      apply hookBlind_bind; [apply hookBlind_callNow |]. intros now2.
      cbn zeta. destruct (_ =? 0); [intros p; reflexivity |].
      apply hookBlind_bind; [apply hookBlind_sleep |].
      intros [|]; [exact IH | apply hookBlind_ret].
  - intros o. reflexivity.
Qed.

Lemma hookBlind_get {B : Type} (k : Process -> go.M Process B) :
  (forall q, hookBlind (k q)) ->
  (forall q, k (quietProcess q) = k q) ->
  hookBlind (go.bind go.get k).
Proof.
  intros Hk Hq p. unfold go.bind, go.get. rewrite Hq. apply Hk.
Qed.

Lemma hookBlind_Run (ctx : Ctx) (turns : nat) : hookBlind (Run ctx turns).
Proof.
  unfold Run. apply hookBlind_get; [| reflexivity].
  intros q. apply hookBlind_bind; [| intros _; apply hookBlind_RunLoop].
  destruct (snd (Current (mgr q))); [| apply hookBlind_ret].
  apply hookBlind_bind; [apply hookBlind_refresh |].
  intros r. destruct (snd r); [apply hookBlind_onError | apply hookBlind_ret].
Qed.

Lemma goroutineEnd_cancel_only (g : Goroutine) :
  g_defers g = [deferCancel] ->
  goroutineEnd g =
    match g_call g with
    | HookReturns => Exited
    | HookNeverReturns => Blocked
    | HookPanics v => Crashed v
    end.
Proof. intros D. unfold goroutineEnd. rewrite D. reflexivity. Qed.

(** C8, as the code has it. Dispatching a hook returns to the caller at
    once, whatever the hook does: it leaves the manager, the count of [Issue]
    calls and the sleeps untouched and, when the hook is registered and its
    argument is non-nil, starts exactly one goroutine that calls the hook
    under a context of its own whose deadline is [HookTimeout] after the
    dispatch. [Run] is blind to what hooks do: with hooks that return at
    once it takes the same turns, stores the same bundles and sleeps the same
    durations. The goroutine defers only the context's [cancel]: a hook that
    returns or never returns ends it as [Exited] or [Blocked], and a hook
    that panics ends it with that panic unrecovered. *)
Theorem hooks_run_detached (p : Process) (bundle : option Bundle)
    (err : option error) (ctx : Ctx) (turns : nat) :
  let deadline := {| Deadline := time.Add (time_Now (ticks p)) (HookTimeout (opts (mgr p))) |} in
  (fst (onRotate bundle p) = go.Done tt
   /\ mgr (snd (onRotate bundle p)) = mgr p
   /\ issues (snd (onRotate bundle p)) = issues p
   /\ slept (snd (onRotate bundle p)) = slept p
   /\ match OnRotate (opts (mgr p)), bundle with
      | Some hook, Some b =>
          goroutines (snd (onRotate bundle p)) =
            (goroutines p ++ [ {| g_ctx := deadline; g_defers := [deferCancel];
                                  g_call := hook deadline (bundleInfo b) |} ])%list
      | _, _ => snd (onRotate bundle p) = p
      end)
  /\ (fst (onError err p) = go.Done tt
      /\ mgr (snd (onError err p)) = mgr p
      /\ issues (snd (onError err p)) = issues p
      /\ slept (snd (onError err p)) = slept p
      /\ match OnError (opts (mgr p)), err with
         | Some hook, Some e =>
             goroutines (snd (onError err p)) =
               (goroutines p ++ [ {| g_ctx := deadline; g_defers := [deferCancel];
                                     g_call := hook deadline e |} ])%list
         | _, _ => snd (onError err p) = p
         end)
  /\ (fst (Run ctx turns (quietProcess p)) = fst (Run ctx turns p)
      /\ snd (Run ctx turns (quietProcess p)) = quietProcess (snd (Run ctx turns p)))
  /\ (forall g, g_defers g = [deferCancel] ->
        (g_call g = HookReturns -> goroutineEnd g = Exited)
        /\ (g_call g = HookNeverReturns -> goroutineEnd g = Blocked)
        /\ (forall v, g_call g = HookPanics v -> goroutineEnd g = Crashed v)).
Proof.
  cbn zeta. split; [| split; [| split]].
  - unfold onRotate, go.bind, getOpts, WithTimeout, wallNow, spawn, go.modify, go.ret.
    destruct (OnRotate (opts (mgr p))) as [hook |]; [destruct bundle as [b |] |];
      cbn; auto 6.
  - unfold onError, go.bind, getOpts, WithTimeout, wallNow, spawn, go.modify, go.ret.
    destruct (OnError (opts (mgr p))) as [hook |]; [destruct err as [e |] |];
      cbn; auto 6.
  - now rewrite (hookBlind_Run ctx turns p).
  - intros g D. rewrite (goroutineEnd_cancel_only g D).
    repeat split; [intros -> .. | intros v ->]; reflexivity.
Qed.

End Hooks.

Import examples.

(** A backend that is down twice, answers once and is down again: two
    attempts leave the manager not ready, and after four [Current] still returns
    the bundle of the third. *)
Lemma Current_with_flaky_issuer :
  Current (mgr (refreshes 2 (boot (NewWithOptions (lib := stillLib) flakyIssuer zeroOptions))))
    = (None, Some ErrNotReady)
  /\ Current (mgr (refreshes 4 (boot (NewWithOptions (lib := stillLib) flakyIssuer zeroOptions))))
    = (Some (bundleWithLifetime (90 * time.Second)), None).
Proof.
  split.
  - apply (proj1 (Current_follows_refreshes (lib := stillLib) flakyIssuer zeroOptions 2)).
    intros [| [| k]] Hk; [discriminate | discriminate | lia].
  - apply (proj1 (proj2 (proj2
        (Current_follows_refreshes (lib := stillLib) flakyIssuer zeroOptions 4))) 2%nat);
      [lia | reflexivity |].
    intros [| [| [| [| j]]]] Hj; try lia. discriminate.
Defined.

(** The options of the package's integration test, 1 ms between refreshes
    and nothing else set: the interval is kept, the backoff is defaulted. *)
Lemma NewWithOptions_keeps_1ms :
  MinRefresh (opts (NewWithOptions (lib := stillLib) flakyIssuer
                      {| MinRefresh := time.Millisecond; ErrorBackoff := 0;
                         HookTimeout := 0; OnRotate := None; OnError := None;
                         Now := None |})) = time.Millisecond
  /\ ErrorBackoff (opts (NewWithOptions (lib := stillLib) flakyIssuer
                           {| MinRefresh := time.Millisecond; ErrorBackoff := 0;
                              HookTimeout := 0; OnRotate := None; OnError := None;
                              Now := None |})) = 15 * time.Second.
Proof.
  destruct (NewWithOptions_defaults (lib := stillLib) flakyIssuer
              {| MinRefresh := time.Millisecond; ErrorBackoff := 0;
                 HookTimeout := 0; OnRotate := None; OnError := None; Now := None |})
    as (_ & _ & (_ & Kept) & (Defaulted & _) & _).
  split; [apply Kept; reflexivity | apply Defaulted; discriminate].
Defined.

(** A rotate hook that never returns: dispatching it returns at once,
    leaves the manager as it was and starts one goroutine, which stays
    blocked. *)
Lemma hook_that_never_returns :
  fst (onRotate (lib := stillLib) (Some (bundleWithLifetime (90 * time.Second)))
         (boot managerWithBlockingHook)) = go.Done tt
  /\ mgr (snd (onRotate (lib := stillLib) (Some (bundleWithLifetime (90 * time.Second)))
                (boot managerWithBlockingHook))) = managerWithBlockingHook
  /\ map goroutineEnd
       (goroutines (snd (onRotate (lib := stillLib)
                           (Some (bundleWithLifetime (90 * time.Second)))
                           (boot managerWithBlockingHook)))) = [Blocked].
Proof.
  destruct (hooks_run_detached (lib := stillLib) (boot managerWithBlockingHook)
              (Some (bundleWithLifetime (90 * time.Second))) None (fun _ => false) 0)
    as ((D & M & _) & _ & _ & E).
  split; [exact D | split; [exact M |]].
  set (g := {| g_ctx := {| Deadline := time.Add newYear2026 (10 * time.Millisecond) |};
               g_defers := [deferCancel]; g_call := HookNeverReturns |}).
  change (map goroutineEnd [g] = [Blocked]). cbn [map].
  now rewrite (proj1 (proj2 (E g eq_refl)) eq_refl).
Defined.

(** The scheduling test of the package: a bundle that lives 90 s is
    refreshed after 60 s. *)
Lemma refresh_two_thirds_of_90s :
  (- 2 ^ 62 <= 90 * time.Second < 2 ^ 62)%Z /\
  fst (refresh (boot (managerFor (90 * time.Second)%Z)))
  = go.Done (Some (bundleWithLifetime (90 * time.Second)%Z),
             time.Add newYear2026 (60 * time.Second)%Z, None).
Proof.
  split; [unfold time.Second; lia |].
  refine (proj1 (refresh_two_thirds (boot (managerFor (90 * time.Second)%Z))
                  (bundleWithLifetime (90 * time.Second)%Z) (fun _ => newYear2026)
                  eq_refl eq_refl _)).
  vm_compute. split; [discriminate | reflexivity].
Defined.

(** The same test carried on into [Run]: with 60 s left and the default
    minimum of 30 s, the loop sleeps 60 s plus the jitter. *)
Lemma RunLoop_sleeps_60s_and_jitter :
  slept (snd (RunLoop (lib := stillLib) (fun _ => false) 1
                (boot (managerFor (90 * time.Second)))))
  = [60 * time.Second + Z.rem newYear2026 (6 * time.Second + 1)].
Proof.
  refine (eq_trans
            (RunLoop_sleeps_floored_wait (lib := stillLib) (fun _ => false)
               (boot (managerFor (90 * time.Second)))
               (bundleWithLifetime (90 * time.Second))
               (time.Add newYear2026 (60 * time.Second)) (fun _ => newYear2026)
               eq_refl eq_refl _) _).
  - vm_compute. split; [reflexivity | discriminate].
  - vm_compute. reflexivity.
Defined.

(** C2, at a bundle that expires 2^62 ns (146 years) after its issuance at
    the start of 2026: [ttl * 2] leaves the [int64] range, and the next refresh
    time returned lies 3074457345618258602 ns before the issuance instead of
    as many after it; [Run] then waits the minimum interval only. *)
Theorem refresh_overflow_at_2pow62 :
  fst (refresh (boot (managerFor (2 ^ 62)%Z)))
  = go.Done (Some (bundleWithLifetime (2 ^ 62)%Z),
             (newYear2026 - 3074457345618258602)%Z, None)
  /\ (newYear2026 + Z.quot (2 * 2 ^ 62) 3 = newYear2026 + 3074457345618258602)%Z
  /\ slept (snd (RunLoop (lib := stillLib) (fun _ => true) 1 (boot (managerFor (2 ^ 62)%Z))))
     = [30 * time.Second + Z.rem newYear2026 (3 * time.Second + 1)].
Proof. vm_compute. repeat split; reflexivity. Qed.

(** C8, as the specification has it, fails: the goroutine that runs a
    panicking rotate hook has no deferred call that recovers, so the panic
    ends it unrecovered (and with it the program). *)
Lemma panicking_hook_is_not_caught :
  exists g,
    goroutines (snd (onRotate (lib := stillLib) (Some (bundleWithLifetime (90 * time.Second)))
                       (boot managerWithPanickingHook))) = [g]
    /\ existsb recovers (g_defers g) = false
    /\ goroutineEnd g = Crashed "boom".
Proof. eexists. repeat split. Qed.

End certmanager_facts.

(** ** The Vault client and issuer *)
Module vault_facts.
Import golib vault.

Section ClientFacts.
Context {lib : Lib} {wire : Wire}.

Lemma eqb_empty_false (s : string) : s <> "" -> (s =? "") = false.
Proof. intros H. now apply String.eqb_neq. Qed.

(** A request that can be built, and that carries a token when it must, is
    sent once, and [doJSON] answers by the reply. *)
Lemma doJSON_sends (method url : string) (body : Payload) (requireAuth : bool) (s : Session) :
  http_NewRequest_error method url = None ->
  (requireAuth = true -> Token (client s) <> "") ->
  let req := {| Method := method; URL := url; ContentType := "application/json";
                XVaultNamespace := if Namespace (client s) =? "" then None
                                   else Some (Namespace (client s));
                XVaultToken := if requireAuth then Some (Token (client s)) else None;
                Body := body |} in
  let reply := replyTo (client s) (exchanges s) req in
  doJSON method url body requireAuth s =
    (match replyError reply, reply with
     | Some err, _ => inl err
     | None, inr resp => inr resp
     | None, inl err => inl err
     end,
     {| client := client s; exchanges := (exchanges s ++ [(req, reply)])%list |}).
Proof.
  intros B T req reply. unfold doJSON. rewrite B.
  unfold go.then_, getClient, token, Do, go.unit_.
  assert (G : requireAuth && (Token (client s) =? "") = false).
  { destruct requireAuth; [| reflexivity]. cbn. now apply eqb_empty_false, T. }
  rewrite G. fold req.
  assert (R : match HTTPClient (client s) with
              | Some t => t
              | None => http_DefaultClient
              end (exchanges s) req = reply).
  { unfold reply, replyTo. now destruct (HTTPClient (client s)). }
  rewrite R. unfold replyError. destruct reply as [err | resp]; [reflexivity |].
  destruct (Z.leb_spec 200 (StatusCode resp)), (Z.ltb_spec (StatusCode resp) 300),
           (Z.ltb_spec (StatusCode resp) 200), (Z.leb_spec 300 (StatusCode resp));
    cbn; try reflexivity; lia.
Qed.

Lemma ensureToken_held (s : Session) :
  Token (client s) <> "" -> Client_ensureToken s = (None, s).
Proof.
  intros T. unfold Client_ensureToken, go.then_, token, go.unit_.
  now rewrite (eqb_empty_false _ T).
Qed.

Lemma ensureToken_no_credentials (s : Session) :
  Token (client s) = "" ->
  RoleID (client s) = "" \/ SecretID (client s) = "" ->
  Client_ensureToken s = (Some ErrAuthRequired, s).
Proof.
  intros T C. unfold Client_ensureToken, go.then_, token, getClient, go.unit_.
  rewrite T. cbn [String.eqb negb].
  replace ((RoleID (client s) =? "") || (SecretID (client s) =? "")) with true; [reflexivity |].
  symmetry. apply orb_true_iff. rewrite !String.eqb_eq. exact C.
Qed.

Lemma ensureToken_unbuildable (s : Session) (err : error) :
  Token (client s) = "" ->
  RoleID (client s) <> "" -> SecretID (client s) <> "" ->
  http_NewRequest_error "POST" (URL (loginRequest (client s))) = Some err ->
  Client_ensureToken s = (Some err, s).
Proof.
  intros T R S B. unfold Client_ensureToken, go.then_, token, getClient, go.unit_.
  rewrite T. cbn [String.eqb negb].
  rewrite (eqb_empty_false _ R), (eqb_empty_false _ S). cbn [orb].
  unfold doJSON. cbn [loginRequest URL] in B. now rewrite B.
Qed.

Lemma ensureToken_logs_in (s : Session) :
  Token (client s) = "" ->
  RoleID (client s) <> "" -> SecretID (client s) <> "" ->
  http_NewRequest_error "POST" (URL (loginRequest (client s))) = None ->
  let login := loginRequest (client s) in
  let reply := replyTo (client s) (exchanges s) login in
  Client_ensureToken s =
    match loginOutcome reply with
    | inl err => (Some err,
                  {| client := client s; exchanges := (exchanges s ++ [(login, reply)])%list |})
    | inr tok => (None,
                  {| client := set_Token tok (client s);
                     exchanges := (exchanges s ++ [(login, reply)])%list |})
    end.
Proof.
  intros T R S B login reply.
  unfold Client_ensureToken, go.then_, token, getClient.
  rewrite T. cbn [String.eqb negb].
  rewrite (eqb_empty_false _ R), (eqb_empty_false _ S). cbn [orb].
  cbn [loginRequest URL] in B.
  rewrite (doJSON_sends _ _ _ false s B) by discriminate.
  change (replyTo (client s) (exchanges s) _) with reply.
  unfold loginOutcome, go.unit_, setToken.
  destruct (replyError reply) as [err |]; [reflexivity |].
  destruct reply as [err | resp]; [reflexivity |].
  destruct (json_Decode_login (ResponseBody resp)) as [err | tok]; [reflexivity |].
  destruct (tok =? ""); reflexivity.
Qed.

Lemma doJSON_trace (method url : string) (body : Payload) (requireAuth : bool) (s : Session) :
  client (snd (doJSON method url body requireAuth s)) = client s
  /\ exists new,
       exchanges (snd (doJSON method url body requireAuth s)) = (exchanges s ++ new)%list
       /\ (new = [] \/ exists x, new = [x] /\ Body (fst x) = body).
Proof.
  unfold doJSON. destruct (http_NewRequest_error method url).
  { split; [reflexivity |]. exists []. rewrite app_nil_r. auto. }
  unfold go.then_, getClient, token, Do, go.unit_.
  destruct (requireAuth && (Token (client s) =? "")).
  { split; [reflexivity |]. exists []. rewrite app_nil_r. auto. }
  match goal with
  | |- context [(exchanges s ++ [?x])%list] =>
      assert (E : forall A (k : A) (k' : A), exists new,
                 (exchanges s ++ [x] = exchanges s ++ new)%list
                 /\ (new = [] \/ exists y, new = [y] /\ Body (fst y) = body))
        by (intros; exists [x]; split; [reflexivity | right; exists x; auto])
  end.
  specialize (E unit tt tt).
  match goal with
  | |- context [match ?r with inl _ => _ | inr _ => _ end] => destruct r as [err | resp]
  end; [split; [reflexivity | exact E] |].
  destruct ((200 <=? StatusCode resp)%Z && (StatusCode resp <? 300)%Z);
    (split; [reflexivity | exact E]).
Qed.




Lemma ensureToken_ok (s s1 : Session) :
  Client_ensureToken s = (None, s1) ->
  Token (client s1) <> ""
  /\ (client s1 = client s \/ exists tok, client s1 = set_Token tok (client s)).
Proof.
  unfold Client_ensureToken, go.then_, token, getClient, go.unit_, setToken.
  destruct (Token (client s) =? "") eqn:T; cbn [negb].
  2:{ injection 1 as <-. apply String.eqb_neq in T. auto. }
  destruct ((RoleID (client s) =? "") || (SecretID (client s) =? "")); [discriminate |].
  match goal with
  | |- context [doJSON ?m ?u ?b ?a s] =>
      destruct (doJSON_trace m u b a s) as (C & _);
      destruct (doJSON m u b a s) as [r s']
  end.
  cbn [snd] in C. destruct r as [err | resp]; [discriminate |].
  destruct (json_Decode_login (ResponseBody resp)) as [err | tok]; [discriminate |].
  destruct (tok =? "") eqn:E; [discriminate |].
  injection 1 as <-. cbn. apply String.eqb_neq in E. split; [exact E |].
  right. exists tok. now rewrite C.
Qed.

Lemma loginOutcome_nonempty (reply : RoundTrip) (tok : string) :
  loginOutcome reply = inr tok -> tok <> "".
Proof.
  unfold loginOutcome. destruct (replyError reply); [discriminate |].
  destruct reply as [err | resp]; [discriminate |].
  destruct (json_Decode_login _) as [err | t]; [discriminate |].
  destruct (t =? "") eqn:E; [discriminate |]. injection 1 as <-. now apply String.eqb_neq.
Qed.

(** An issuance request sent under a held token, and the reading of its
    reply that ends [Client.Issue]. *)
Lemma second_attempt (url : string) (req : IssueRequest) (s : Session) :
  http_NewRequest_error "POST" url = None ->
  Token (client s) <> "" ->
  let q := {| Method := "POST"; URL := url; ContentType := "application/json";
              XVaultNamespace := if Namespace (client s) =? "" then None
                                 else Some (Namespace (client s));
              XVaultToken := Some (Token (client s));
              Body := IssuePayload req |} in
  let r := replyTo (client s) (exchanges s) q in
  go.then_ (doJSON "POST" url (IssuePayload req) true)
    (fun r2 => match r2 with
               | inl err2 => go.unit_ (inl err2)
               | inr resp => go.unit_ (decodeIssue resp)
               end) s
  = (issueOutcome r, {| client := client s; exchanges := (exchanges s ++ [(q, r)])%list |}).
Proof.
  intros B T q r. unfold go.then_.
  rewrite (doJSON_sends _ _ _ true s B (fun _ => T)).
  change (replyTo (client s) (exchanges s) _) with r.
  unfold issueOutcome, go.unit_.
  destruct (replyError r); [reflexivity |]. now destruct r.
Qed.

(** What [Client.Issue] does once it holds a token and its issuance request
    can be built, as a function of the replies. *)
Lemma Client_Issue_run (pkiPath role : string) (req : IssueRequest) (s s1 : Session) :
  Addr (client s) <> "" -> pkiPath <> "" -> role <> "" ->
  Client_ensureToken s = (None, s1) ->
  let c := client s1 in
  let q1 := issueRequest c pkiPath role req (Token c) in
  http_NewRequest_error "POST" (URL q1) = None ->
  let r1 := replyTo c (exchanges s1) q1 in
  let h1 := (exchanges s1 ++ [(q1, r1)])%list in
  Client_Issue pkiPath role req s =
    match replyError r1 with
    | None => (issueOutcome r1, {| client := c; exchanges := h1 |})
    | Some err =>
        if isAuthError err && negb (RoleID c =? "") && negb (SecretID c =? "") then
          match http_NewRequest_error "POST" (URL (loginRequest c)) with
          | Some err' => (inl err', {| client := set_Token "" c; exchanges := h1 |})
          | None =>
              let rl := replyTo c h1 (loginRequest c) in
              let h2 := (h1 ++ [(loginRequest c, rl)])%list in
              match loginOutcome rl with
              | inl err' => (inl err', {| client := set_Token "" c; exchanges := h2 |})
              | inr tok =>
                  let q2 := issueRequest c pkiPath role req tok in
                  let r2 := replyTo c h2 q2 in
                  (issueOutcome r2,
                   {| client := set_Token tok c; exchanges := (h2 ++ [(q2, r2)])%list |})
              end
          end
        else (inl err, {| client := c; exchanges := h1 |})
    end.
Proof.
  intros A P R E c q1 B r1 h1.
  destruct (ensureToken_ok s s1 E) as [T Same].
  assert (Fields : Addr (client s) = Addr c /\ RoleID (client s) = RoleID c
                   /\ SecretID (client s) = SecretID c).
  { unfold c. destruct Same as [-> | [tok ->]]; cbn; auto. }
  destruct Fields as (FA & FR & FS).
  unfold Client_Issue, go.then_ at 1, getClient.
  rewrite (eqb_empty_false _ A), (eqb_empty_false _ P), (eqb_empty_false _ R).
  unfold go.then_ at 1. rewrite E.
  assert (U : forall p, url (client s) p = url c p) by (intros p; unfold url; now rewrite FA).
  rewrite U, FR, FS. clear U.
  unfold go.then_ at 1.
  cbn [issueRequest URL] in B.
  rewrite (doJSON_sends _ _ _ true s1 B (fun _ => T)).
  change (replyTo (client s1) (exchanges s1) _) with r1. fold h1.
  unfold issueOutcome, go.unit_.
  destruct (replyError r1) as [err |] eqn:RE.
  2:{ destruct r1 as [err | resp]; [discriminate RE | reflexivity]. }
  destruct (isAuthError err && negb (RoleID c =? "") && negb (SecretID c =? "")) eqn:Retry;
    [| reflexivity].
  apply andb_true_iff in Retry. destruct Retry as [Retry HS].
  apply andb_true_iff in Retry. destruct Retry as [_ HR].
  apply negb_true_iff, String.eqb_neq in HR, HS.
  unfold go.then_ at 1, setToken. cbn [client exchanges]. unfold go.then_ at 1.
  set (s2 := {| client := set_Token "" c; exchanges := h1 |}).
  change (Client_ensureToken _) with (Client_ensureToken s2).
  destruct (http_NewRequest_error "POST" (URL (loginRequest c))) as [err' |] eqn:BL.
  { rewrite (ensureToken_unbuildable s2 err' eq_refl HR HS BL). reflexivity. }
  rewrite (ensureToken_logs_in s2 eq_refl HR HS BL). cbn zeta.
  change (loginRequest (client s2)) with (loginRequest c).
  change (replyTo (client s2) (exchanges s2)) with (replyTo c h1).
  change (exchanges s2) with h1. change (client s2) with (set_Token "" c).
  set (rl := replyTo c h1 (loginRequest c)).
  destruct (loginOutcome rl) as [err' | tok] eqn:LO; [reflexivity |].
  pose proof (loginOutcome_nonempty rl tok LO) as TN.
  exact (second_attempt _ req
           {| client := set_Token tok (set_Token "" c);
              exchanges := (h1 ++ [(loginRequest c, rl)])%list |} B TN).
Qed.









(** C9. [ensureToken] with a token held returns nil and leaves the session as
    it is: no request is made. With no token and an empty [RoleID] or
    [SecretID] it returns [ErrAuthRequired], again without a request. With
    no token and both credentials it sends one login request; a reply that
    decodes to an empty [client_token] makes it fail and stores nothing, as
    does every other failed login; a non-empty token is stored, and the next
    authenticated request carries it in [X-Vault-Token]. *)
Theorem ensureToken_logs_in_lazily (s : Session) :
  (Token (client s) <> "" -> Client_ensureToken s = (None, s))
  /\ (Token (client s) = "" -> RoleID (client s) = "" \/ SecretID (client s) = "" ->
      Client_ensureToken s = (Some ErrAuthRequired, s))
  /\ (Token (client s) = "" -> RoleID (client s) <> "" -> SecretID (client s) <> "" ->
      http_NewRequest_error "POST" (URL (loginRequest (client s))) = None ->
      let login := loginRequest (client s) in
      let reply := replyTo (client s) (exchanges s) login in
      let after := snd (Client_ensureToken s) in
      exchanges after = (exchanges s ++ [(login, reply)])%list
      /\ (forall resp, reply = inr resp -> replyError reply = None ->
            json_Decode_login (ResponseBody resp) = inr "" ->
            fst (Client_ensureToken s) = Some "vault approle auth returned empty token"
            /\ client after = client s)
      /\ (forall err, loginOutcome reply = inl err ->
            fst (Client_ensureToken s) = Some err /\ client after = client s)
      /\ (forall tok, loginOutcome reply = inr tok ->
            fst (Client_ensureToken s) = None
            /\ tok <> "" /\ client after = set_Token tok (client s)
            /\ forall method url body,
                 http_NewRequest_error method url = None ->
                 exists q r,
                   exchanges (snd (doJSON method url body true after))
                     = (exchanges after ++ [(q, r)])%list
                   /\ XVaultToken q = Some tok /\ Body q = body)).
Proof.
  split; [apply ensureToken_held | split; [apply ensureToken_no_credentials |]].
  intros T R S B login reply after. subst after.
  rewrite (ensureToken_logs_in s T R S B). fold login. fold reply.
  assert (Empty : forall resp, reply = inr resp -> replyError reply = None ->
            json_Decode_login (ResponseBody resp) = inr "" ->
            loginOutcome reply = inl "vault approle auth returned empty token").
  { intros resp Eq RE D. unfold loginOutcome. rewrite RE, Eq, D. reflexivity. }
  destruct (loginOutcome reply) as [err | tok] eqn:LO; cbn [fst snd exchanges client].
  - split; [reflexivity |]. split; [| split].
    + intros resp Eq RE D. pose proof (Empty resp Eq RE D) as X.
      injection X as ->. split; reflexivity.
    + intros err' [= <-]. auto.
    + discriminate.
  - split; [reflexivity |]. split; [| split].
    + intros resp Eq RE D. pose proof (Empty resp Eq RE D) as X. discriminate X.
    + discriminate.
    + intros tok' [= <-]. pose proof (loginOutcome_nonempty reply tok LO) as TN.
      repeat split; auto. intros method url body Bq.
      rewrite (doJSON_sends method url body true
                 {| client := set_Token tok (client s);
                    exchanges := (exchanges s ++ [(login, reply)])%list |} Bq (fun _ => TN)).
      cbn [snd exchanges client]. do 2 eexists. split; [reflexivity |]. split; reflexivity.
Qed.

End ClientFacts.

Section IssuerFacts.
Context {lib : Lib} {wire : Wire}.



(** [Issuer.Issue] once its client returned a response: the result as a
    function of the response. *)
Lemma Issuer_Issue_of_response (i : Issuer) (c : Client) (history : list Exchange)
    (resp : IssueResponse) (s' : Session) :
  Client_ i = Some c ->
  Client_Issue (PKIPath i) (Role i) (issuerRequest i) {| client := c; exchanges := history |}
    = (inr resp, s') ->
  fst (fst (Issuer_Issue i history)) =
    match tls_X509KeyPair (Certificate resp) (PrivateKey resp) with
    | inl err => inl err
    | inr cert =>
        match appendChain x509.NewCertPool (CAChain resp) with
        | None => inl "vault ca_chain contained invalid PEM"
        | Some pool =>
            let (pool, ok) :=
              if (List.length (CAChain resp) =? 0)%nat && negb (IssuingCA resp =? "")
              then AppendCertsFromPEM pool (IssuingCA resp)
              else (pool, true) in
            if negb ok then inl "vault issuing_ca contained invalid PEM"
            else if RequireCA i && (List.length (CAChain resp) =? 0)%nat
                    && (IssuingCA resp =? "")
            then inl "vault issue response missing ca_chain/issuing_ca"
            else
              match parseNotAfter (Certificate resp) with
              | inl err => inl err
              | inr notAfter =>
                  inr {| certmanager.Cert := Some cert; certmanager.CA := pool;
                         certmanager.NotAfter := notAfter |}
              end
        end
    end.
Proof.
  intros C I. unfold Issuer_Issue. rewrite C.
  change {| CommonName := Issuer_CommonName i; AltNames := Issuer_AltNames i;
            URISANs := Issuer_URISANs i;
            TTL := if (0 <? Issuer_TTL i)%Z then Duration_String (Issuer_TTL i) else "" |}
    with (issuerRequest i).
  rewrite I. reflexivity.
Qed.




(** What [parseNotAfter] reads: the validity field of the certificate in the
    first PEM block. *)
Lemma parseNotAfter_reads (certPEM : string) (t : time.Time) :
  parseNotAfter certPEM = inr t <->
  exists block leaf,
    pem_Decode certPEM = Some block
    /\ x509_ParseCertificate block = inr leaf
    /\ t = x509.NotAfter leaf.
Proof.
  unfold parseNotAfter. split.
  - destruct (pem_Decode certPEM) as [block |] eqn:D; [| discriminate].
    destruct (x509_ParseCertificate block) as [err | leaf] eqn:P; [discriminate |].
    intros [= <-]. exists block, leaf. auto.
  - intros (block & leaf & -> & -> & ->). reflexivity.
Qed.

Lemma parseNotAfter_fails (certPEM : string) :
  pem_Decode certPEM = None
  \/ (exists block err, pem_Decode certPEM = Some block
                        /\ x509_ParseCertificate block = inl err) ->
  exists err, parseNotAfter certPEM = inl err.
Proof.
  unfold parseNotAfter. intros [-> | (block & err & -> & ->)]; eauto.
Qed.

(** The [NotAfter] of a returned bundle is what [parseNotAfter] makes of
    the response's certificate, and a certificate it makes nothing of fails
    the issuance. *)
Lemma Issuer_Issue_NotAfter_parsed (i : Issuer) (c : Client) (history : list Exchange)
    (resp : IssueResponse) (s' : Session) :
  Client_ i = Some c ->
  Client_Issue (PKIPath i) (Role i) (issuerRequest i) {| client := c; exchanges := history |}
    = (inr resp, s') ->
  let result := fst (fst (Issuer_Issue i history)) in
  (forall b, result = inr b ->
     parseNotAfter (Certificate resp) = inr (certmanager.NotAfter b))
  /\ ((exists err, parseNotAfter (Certificate resp) = inl err) ->
      exists err, result = inl err)
  /\ (forall i2 c2 history2 resp2 s2,
        Client_ i2 = Some c2 ->
        Client_Issue (PKIPath i2) (Role i2) (issuerRequest i2)
          {| client := c2; exchanges := history2 |} = (inr resp2, s2) ->
        Certificate resp2 = Certificate resp ->
        forall b b2,
          result = inr b ->
          fst (fst (Issuer_Issue i2 history2)) = inr b2 ->
          certmanager.NotAfter b2 = certmanager.NotAfter b).
Proof.
  intros C I result.
  assert (Parsed : forall i c history resp s' b,
            Client_ i = Some c ->
            Client_Issue (PKIPath i) (Role i) (issuerRequest i)
              {| client := c; exchanges := history |} = (inr resp, s') ->
            fst (fst (Issuer_Issue i history)) = inr b ->
            parseNotAfter (Certificate resp) = inr (certmanager.NotAfter b)).
  { clear. intros i c history resp s' b C I.
    rewrite (Issuer_Issue_of_response i c history resp s' C I).
    destruct (tls_X509KeyPair _ _); [discriminate |].
    destruct (appendChain _ _) as [pool0 |]; [| discriminate].
    destruct ((List.length (CAChain resp) =? 0)%nat && negb (IssuingCA resp =? ""));
      [destruct (AppendCertsFromPEM pool0 (IssuingCA resp)) as [pool ok]; destruct ok |];
      cbn [negb]; try discriminate;
      (destruct (_ && _); [discriminate |]);
      (destruct (parseNotAfter (Certificate resp)); [discriminate |]);
      now intros [= <-]. }
  split; [| split].
  - intros b. now apply (Parsed i c history resp s').
  - intros [err E]. subst result.
    rewrite (Issuer_Issue_of_response i c history resp s' C I).
    destruct (tls_X509KeyPair _ _); [eauto |].
    destruct (appendChain _ _) as [pool0 |]; [| eauto].
    destruct ((List.length (CAChain resp) =? 0)%nat && negb (IssuingCA resp =? ""));
      [destruct (AppendCertsFromPEM pool0 (IssuingCA resp)) as [pool ok]; destruct ok |];
      cbn [negb]; eauto;
      (destruct (_ && _); [eauto |]); rewrite E; eauto.
  - intros i2 c2 history2 resp2 s2 C2 I2 Same b b2 R R2.
    pose proof (Parsed i c history resp s' b C I R) as P.
    pose proof (Parsed i2 c2 history2 resp2 s2 b2 C2 I2 R2) as P2.
    rewrite Same in P2. congruence.
Qed.

(** C7. Given the response its client returned, the [NotAfter] of a bundle
    that [Issuer.Issue] returns is the validity field of the leaf certificate
    itself: the response's certificate PEM decodes to a block, the block
    parses as a certificate, and the bundle's [NotAfter] is that
    certificate's [NotAfter]. When the PEM holds no block, or the block does
    not parse, the issuance fails. And two issuances, of whatever issuers and
    so whatever requested TTLs, whose responses carry the same certificate
    return the same [NotAfter]. *)
Theorem Issuer_Issue_NotAfter_of_leaf (i : Issuer) (c : Client) (history : list Exchange)
    (resp : IssueResponse) (s' : Session) :
  Client_ i = Some c ->
  Client_Issue (PKIPath i) (Role i) (issuerRequest i) {| client := c; exchanges := history |}
    = (inr resp, s') ->
  let result := fst (fst (Issuer_Issue i history)) in
  (forall b, result = inr b ->
     exists block leaf,
       pem_Decode (Certificate resp) = Some block
       /\ x509_ParseCertificate block = inr leaf
       /\ certmanager.NotAfter b = x509.NotAfter leaf)
  /\ (pem_Decode (Certificate resp) = None
      \/ (exists block err, pem_Decode (Certificate resp) = Some block
                            /\ x509_ParseCertificate block = inl err) ->
      (exists err, result = inl err) /\ forall b, result <> inr b)
  /\ (forall i2 c2 history2 resp2 s2,
        Client_ i2 = Some c2 ->
        Client_Issue (PKIPath i2) (Role i2) (issuerRequest i2)
          {| client := c2; exchanges := history2 |} = (inr resp2, s2) ->
        Certificate resp2 = Certificate resp ->
        forall b b2,
          result = inr b ->
          fst (fst (Issuer_Issue i2 history2)) = inr b2 ->
          certmanager.NotAfter b2 = certmanager.NotAfter b)
  /\ (forall certPEM t,
        parseNotAfter certPEM = inr t <->
        exists block leaf,
          pem_Decode certPEM = Some block
          /\ x509_ParseCertificate block = inr leaf
          /\ t = x509.NotAfter leaf).
Proof.
  intros C I result.
  destruct (Issuer_Issue_NotAfter_parsed i c history resp s' C I) as (P1 & P2 & P3).
  fold result in P1, P2, P3.
  split; [| split; [| split; [exact P3 | apply parseNotAfter_reads]]].
  - intros b R. now apply parseNotAfter_reads, P1.
  - intros Bad. destruct (P2 (parseNotAfter_fails _ Bad)) as [err E].
    split; [eauto |]. rewrite E. discriminate.
Qed.

End IssuerFacts.

Import examples.

(** A client without a token logs in once and keeps the token it is
    given. *)
Lemma ensureToken_stores_token :
  fst (Client_ensureToken (lib := stillLib) (wire := labelWire)
         {| client := freshClient; exchanges := [] |}) = None
  /\ Token (client (snd (Client_ensureToken (lib := stillLib) (wire := labelWire)
                           {| client := freshClient; exchanges := [] |}))) = "good"
  /\ List.length (exchanges (snd (Client_ensureToken (lib := stillLib) (wire := labelWire)
                                    {| client := freshClient; exchanges := [] |}))) = 1%nat.
Proof.
  destruct (proj2 (proj2 (ensureToken_logs_in_lazily (lib := stillLib) (wire := labelWire)
                            {| client := freshClient; exchanges := [] |}))
              eq_refl ltac:(discriminate) ltac:(discriminate) eq_refl)
    as (X & _ & _ & Stored).
  destruct (Stored "good" eq_refl) as (R & _ & C & _).
  split; [exact R | split].
  - rewrite C. reflexivity.
  - rewrite X. reflexivity.
Defined.



(** An [issuing_ca] beside a non-empty chain is not read: this response
    carries one that is no PEM beside a chain of one good entry, and the
    issuance succeeds, even with [RequireCA] set; the pool holds the chain's
    certificate. *)
Lemma unread_issuing_ca_may_be_invalid :
  invalidPEM (lib := pemLib) (IssuingCA chainAndBadIssuingCA)
  /\ fst (Client_Issue (lib := pemLib) (wire := pkiWire) "pki" "role"
            (issuerRequest (lib := pemLib) (issuerFor "chain and bad issuing_ca" 0%Z true))
            {| client := tokClient "chain and bad issuing_ca"; exchanges := [] |})
     = inr chainAndBadIssuingCA
  /\ fst (fst (Issuer_Issue (lib := pemLib) (wire := pkiWire)
                 (issuerFor "chain and bad issuing_ca" 0%Z true) []))
     = inr {| certmanager.Cert := Some leafKeyPair; certmanager.CA := [caCert];
              certmanager.NotAfter := x509.NotAfter leafCert |}.
Proof. repeat split; vm_compute; reflexivity. Qed.


(** Two issuers that differ in the requested TTL only, six hours against
    the backend's default, get the same response certificate and return the
    same [NotAfter]: the validity field of the certificate that the
    response's PEM decodes and parses to. *)
Lemma NotAfter_ignores_requested_TTL :
  TTL (issuerRequest (lib := pemLib) (issuerFor "no ca" (6 * 3600 * time.Second)%Z false))
    <> TTL (issuerRequest (lib := pemLib) (issuerFor "no ca" 0%Z false))
  /\ exists b b2,
       fst (fst (Issuer_Issue (lib := pemLib) (wire := pkiWire)
                   (issuerFor "no ca" (6 * 3600 * time.Second)%Z false) [])) = inr b
       /\ fst (fst (Issuer_Issue (lib := pemLib) (wire := pkiWire)
                      (issuerFor "no ca" 0%Z false) [])) = inr b2
       /\ certmanager.NotAfter b2 = certmanager.NotAfter b
       /\ exists block leaf,
            pem_Decode (Lib := pemLib) (Certificate issued) = Some block
            /\ x509_ParseCertificate (Lib := pemLib) block = inr leaf
            /\ certmanager.NotAfter b = x509.NotAfter leaf.
Proof.
  split; [vm_compute; discriminate |].
  pose proof (Issuer_Issue_NotAfter_of_leaf (lib := pemLib) (wire := pkiWire)
                (issuerFor "no ca" (6 * 3600 * time.Second)%Z false) (tokClient "no ca") []
                issued
                (snd (Client_Issue (lib := pemLib) (wire := pkiWire) "pki" "role"
                        (issuerRequest (lib := pemLib)
                           (issuerFor "no ca" (6 * 3600 * time.Second)%Z false))
                        {| client := tokClient "no ca"; exchanges := [] |}))
                eq_refl) as T.
  destruct T as (Leaf & _ & Same & _); [vm_compute; reflexivity |].
  do 2 eexists. split; [vm_compute; reflexivity |]. split; [vm_compute; reflexivity |].
  split.
  - refine (Same (issuerFor "no ca" 0%Z false) (tokClient "no ca") [] issued
              (snd (Client_Issue (lib := pemLib) (wire := pkiWire) "pki" "role"
                      (issuerRequest (lib := pemLib) (issuerFor "no ca" 0%Z false))
                      {| client := tokClient "no ca"; exchanges := [] |}))
              eq_refl _ eq_refl _ _ _ _); vm_compute; reflexivity.
  - apply Leaf. vm_compute. reflexivity.
Defined.

End vault_facts.

(** ** Further properties of the authorizer *)
Module spiffe_laws.
Import strings url x509 spiffe strings_facts spiffe_facts.

Lemma Split_app_sep (a b : string) (sep : ascii) :
  Split (a ++ String sep b) sep = (Split a sep ++ Split b sep)%list.
Proof.
  induction a as [| c a IH]; cbn [append Split].
  - now rewrite Ascii.eqb_refl.
  - rewrite IH. destruct (Ascii.eqb c sep); [reflexivity |].
    pose proof (Split_nonempty a sep) as N.
    destruct (Split a sep) as [| seg segs]; [contradiction | reflexivity].
Qed.

Lemma Split_head_cons (c : ascii) (s : string) (sep : ascii) :
  Ascii.eqb c sep = false ->
  exists seg segs, Split s sep = seg :: segs /\ Split (String c s) sep = String c seg :: segs.
Proof.
  intros E. cbn [Split]. rewrite E. pose proof (Split_nonempty s sep) as N.
  destruct (Split s sep) as [| seg segs]; [contradiction | eauto].
Qed.

(** Splitting loses nothing: two strings with the same pieces are equal. *)
Lemma Split_inj (sep : ascii) (a : string) :
  forall b, Split a sep = Split b sep -> a = b.
Proof.
  induction a as [| c a IH]; intros [| d b] H.
  - reflexivity.
  - exfalso. cbn [Split] in H. destruct (Ascii.eqb d sep) eqn:D.
    + pose proof (Split_nonempty b sep). injection H as H. destruct (Split b sep); congruence.
    + destruct (Split b sep); discriminate.
  - exfalso. cbn [Split] in H. destruct (Ascii.eqb c sep) eqn:C.
    + pose proof (Split_nonempty a sep). injection H as H. destruct (Split a sep); congruence.
    + destruct (Split a sep); discriminate.
  - destruct (Ascii.eqb c sep) eqn:C, (Ascii.eqb d sep) eqn:D.
    + apply Ascii.eqb_eq in C, D. subst. cbn [Split] in H. rewrite Ascii.eqb_refl in H.
      injection H as H. f_equal. now apply IH.
    + destruct (Split_head_cons d b sep D) as (seg & segs & _ & E).
      rewrite E in H. cbn [Split] in H. rewrite C in H. discriminate.
    + destruct (Split_head_cons c a sep C) as (seg & segs & _ & E).
      rewrite E in H. cbn [Split] in H. rewrite D in H. discriminate.
    + destruct (Split_head_cons c a sep C) as (seg & segs & Ea & E).
      destruct (Split_head_cons d b sep D) as (seg' & segs' & Eb & E').
      rewrite E, E' in H. injection H as -> -> ->. f_equal. apply IH. congruence.
Qed.

Lemma append_assoc_string (a b c : string) : (a ++ b) ++ c = a ++ b ++ c.
Proof. induction a; cbn; congruence. Qed.

Lemma HasStar_append (a b : string) : HasStar (a ++ b) <-> HasStar a \/ HasStar b.
Proof.
  unfold HasStar. induction a as [| c a IH]; cbn [append list_ascii_of_string In]; tauto.
Qed.

(** Every segment matches itself as a pattern: a ['+'] is not empty. *)
Lemma SegMatch_refl (seg : string) : SegMatch seg seg.
Proof.
  unfold SegMatch. destruct (String.eqb_spec seg "+") as [-> | N]; [left | right]; auto.
  split; [reflexivity | discriminate].
Qed.

Lemma Forall2_SegMatch_refl (segs : list string) : Forall2 SegMatch segs segs.
Proof. induction segs; constructor; auto using SegMatch_refl. Qed.

Lemma Forall2_SegMatch_literal (psegs vsegs : list string) :
  ~ In "+" psegs -> (Forall2 SegMatch psegs vsegs <-> psegs = vsegs).
Proof.
  intros N. split.
  - induction 1 as [| p v ps vs M F IH]; [reflexivity |].
    destruct M as [[-> _] | [_ ->]]; [exfalso; apply N; now left |].
    f_equal. apply IH. intros I. apply N. now right.
  - intros <-. apply Forall2_SegMatch_refl.
Qed.

(** X3. A glob without ['*'] and without a ['+'] segment is a literal: it
    matches its own text and nothing else. *)
Theorem matchGlob_literal (pattern value : string) :
  ~ HasStar pattern ->
  ~ In "+" (Split pattern "/") ->
  pattern <> "" ->
  matchGlob pattern value = Some (pattern =? value).
Proof.
  intros NS NP NE.
  assert (G : GlobMatch pattern value <-> pattern = value).
  { split.
    - intros [base m x -> _ _ _ _ | _ _ _ F].
      + exfalso. apply NS. apply (HasStar_middle base "").
      + apply Forall2_SegMatch_literal in F; [| exact NP]. now apply Split_inj in F.
    - intros <-. apply GlobSameLength; auto. apply Forall2_SegMatch_refl. }
  destruct (matchGlob_decides pattern value) as [[-> M] | [-> M]].
  - apply G in M. subst. now rewrite String.eqb_refl.
  - destruct (String.eqb_spec pattern value) as [E | _]; [| reflexivity].
    now destruct M; apply G.
Qed.

(** X4. A glob that ends in ['*'] and matches a value also matches every
    value that continues it by a ['/'] and anything after. *)
Theorem matchGlob_trailing_star_extends (pattern value more : string) :
  HasSuffix pattern "*" = true ->
  matchGlob pattern value = Some true ->
  matchGlob pattern (value ++ "/" ++ more) = Some true.
Proof.
  intros S M.
  assert (G : GlobMatch pattern value).
  { destruct (matchGlob_decides pattern value) as [[_ G] | [E _]]; [exact G | congruence]. }
  assert (G' : GlobMatch pattern (value ++ "/" ++ more)).
  { destruct G as [base m x -> NS V Sp F | NS _ _ _].
    - apply (GlobTrailingStar _ _ base m (x ++ Split more "/")%list); auto.
      + now destruct value.
      + change (value ++ "/" ++ more) with (value ++ String "/" more).
        now rewrite Split_app_sep, Sp, app_assoc.
    - exfalso. apply NS. apply HasSuffix_star_inv in S. destruct S as [base ->].
      apply (HasStar_middle base ""). }
  destruct (matchGlob_decides pattern (value ++ "/" ++ more)) as [[E _] | [_ N]];
    [exact E | contradiction].
Qed.

(** X5. For a path [p] without ['*'], the glob [p/*] matches [p] itself and
    every value that starts with [p/]: it accepts whatever the prefix rule
    [p/] accepts, and the bare [p] besides. *)
Theorem matchGlob_slash_star (p rest : string) :
  ~ HasStar p ->
  matchGlob (p ++ "/*") (p ++ "/" ++ rest) = Some true
  /\ (p <> "" -> matchGlob (p ++ "/*") p = Some true)
  /\ HasPrefix (p ++ "/" ++ rest) (p ++ "/") = true.
Proof.
  intros NS.
  assert (Base : p ++ "/*" = (p ++ "/") ++ "*") by now rewrite append_assoc_string.
  assert (NSb : ~ HasStar (p ++ "/")).
  { rewrite HasStar_append. intros [H | [H | []]]; [contradiction | discriminate H]. }
  assert (Segs : dropTrailingEmpty (Split (p ++ "/") "/") = Split p "/").
  { change (p ++ "/") with (p ++ String "/" ""). rewrite Split_app_sep.
    unfold dropTrailingEmpty. cbn [Split]. rewrite rev_app_distr. cbn [rev app].
    apply rev_involutive. }
  assert (Any : forall value extra,
            value <> "" -> Split value "/" = (Split p "/" ++ extra)%list ->
            matchGlob (p ++ "/*") value = Some true).
  { intros value extra V Sp.
    assert (G : GlobMatch (p ++ "/*") value).
    { apply (GlobTrailingStar _ _ (p ++ "/") (Split p "/") extra); auto.
      rewrite Segs. apply Forall2_SegMatch_refl. }
    destruct (matchGlob_decides (p ++ "/*") value) as [[E _] | [_ N]];
      [exact E | contradiction]. }
  split; [| split].
  - apply (Any _ (Split rest "/")); [now destruct p |].
    change (p ++ "/" ++ rest) with (p ++ String "/" rest). apply Split_app_sep.
  - intros NE. apply (Any _ []); [exact NE | now rewrite app_nil_r].
  - apply strings_facts.HasPrefix_iff. exists rest. now rewrite append_assoc_string.
Qed.


Lemma RuleMatch_incl (a b : Authorizer) (id : string) :
  incl (AllowedExact a) (AllowedExact b) ->
  incl (AllowedPrefixes a) (AllowedPrefixes b) ->
  incl (AllowedGlobs a) (AllowedGlobs b) ->
  RuleMatch a id -> RuleMatch b id.
Proof.
  intros E P G [I | [(p & I & M) | (g & I & M)]].
  - left. now apply E.
  - right; left. exists p. split; [now apply P | exact M].
  - right; right. exists g. split; [now apply G | exact M].
Qed.

Lemma uriLoop_accepts (a : Authorizer) (uris : list URL) :
  uriLoop a uris = Some true <->
  exists uri, In uri uris /\ Scheme uri = "spiffe" /\ RuleMatch a (String_ uri).
Proof.
  destruct (uriLoop_dec a uris) as [[-> ok] | [-> no]]; cbn zeta in *.
  - tauto.
  - split; [discriminate | contradiction].
Qed.

Lemma uriLoop_total (a : Authorizer) (uris : list URL) : uriLoop a uris <> None.
Proof. destruct (uriLoop_dec a uris) as [[-> _] | [-> _]]; discriminate. Qed.

(** X6. Rules only ever grant: an authorizer whose three rule lists contain
    those of another accepts every list of chains the other accepts, and an
    authorizer with no rule at all accepts nothing. *)
Theorem VerifyPeerCertificate_monotone (a b : Authorizer)
    (verifiedChains : list (list Certificate)) :
  incl (AllowedExact a) (AllowedExact b) ->
  incl (AllowedPrefixes a) (AllowedPrefixes b) ->
  incl (AllowedGlobs a) (AllowedGlobs b) ->
  (VerifyPeerCertificate a verifiedChains = Some None ->
   VerifyPeerCertificate b verifiedChains = Some None)
  /\ VerifyPeerCertificate
       {| AllowedExact := []; AllowedPrefixes := []; AllowedGlobs := [] |} verifiedChains
     <> Some None.
Proof.
  intros E P G. split.
  - destruct verifiedChains as [| [| leaf others] chains]; cbn [VerifyPeerCertificate];
      try discriminate.
    destruct (uriLoop a (URIs leaf)) as [[|] |] eqn:A; try discriminate. intros _.
    apply uriLoop_accepts in A. destruct A as (uri & I & S & M).
    assert (B : uriLoop b (URIs leaf) = Some true).
    { apply uriLoop_accepts. exists uri. eauto using RuleMatch_incl. }
    now rewrite B.
  - destruct verifiedChains as [| [| leaf others] chains]; cbn [VerifyPeerCertificate];
      try discriminate.
    match goal with |- context [uriLoop ?e ?u] => destruct (uriLoop e u) as [[|] |] eqn:A end;
      try discriminate.
    apply uriLoop_accepts in A. destruct A as (uri & _ & _ & [[] | [(p & [] & _) | (g & [] & _)]]).
Qed.

Lemma uriLoop_filter (a : Authorizer) (uris : list URL) :
  uriLoop a uris = uriLoop a (filter (fun uri => Scheme uri =? "spiffe") uris).
Proof.
  induction uris as [| uri rest IH]; [reflexivity |].
  cbn [uriLoop filter]. destruct (Scheme uri =? "spiffe") eqn:S; cbn [negb]; [| exact IH].
  cbn [uriLoop]. rewrite S. cbn [negb]. now rewrite IH.
Qed.

(** X7. The verdict depends on the spiffe-scheme URIs of the first chain's
    leaf and on nothing else: two lists of verified chains whose first leaves
    carry the same spiffe URIs, in the same order, get the same answer,
    whatever the rest of the chain, the other chains and the other URIs are. *)
Theorem VerifyPeerCertificate_reads_first_leaf (a : Authorizer)
    (leaf leaf' : Certificate) (others others' : list Certificate)
    (chains chains' : list (list Certificate)) :
  filter (fun uri => Scheme uri =? "spiffe") (URIs leaf)
  = filter (fun uri => Scheme uri =? "spiffe") (URIs leaf') ->
  VerifyPeerCertificate a ((leaf :: others) :: chains)
  = VerifyPeerCertificate a ((leaf' :: others') :: chains').
Proof.
  intros F. cbn [VerifyPeerCertificate].
  now rewrite (uriLoop_filter a (URIs leaf)), (uriLoop_filter a (URIs leaf')), F.
Qed.

Import examples.

Ltac no_star :=
  unfold HasStar; cbn; intros H; repeat (destruct H as [H | H]; [discriminate H |]); exact H.

Lemma matchGlob_literal_rejects_sibling :
  matchGlob "spiffe://corp/prod/svc" "spiffe://corp/prod/other" = Some false.
Proof.
  apply (matchGlob_literal "spiffe://corp/prod/svc" "spiffe://corp/prod/other").
  - no_star.
  - cbn. intros H. repeat (destruct H as [H | H]; [discriminate H |]). exact H.
  - discriminate.
Defined.

Lemma matchGlob_prod_star_deeper :
  matchGlob "spiffe://corp/prod/*" ("spiffe://corp/prod/a" ++ "/" ++ "b/c") = Some true.
Proof.
  apply (matchGlob_trailing_star_extends "spiffe://corp/prod/*" "spiffe://corp/prod/a" "b/c");
    reflexivity.
Defined.

Lemma matchGlob_prod_slash_star :
  matchGlob ("spiffe://corp/prod" ++ "/*") ("spiffe://corp/prod" ++ "/" ++ "svc") = Some true
  /\ ("spiffe://corp/prod" <> "" ->
      matchGlob ("spiffe://corp/prod" ++ "/*") "spiffe://corp/prod" = Some true)
  /\ HasPrefix ("spiffe://corp/prod" ++ "/" ++ "svc") ("spiffe://corp/prod" ++ "/") = true.
Proof.
  apply (matchGlob_slash_star "spiffe://corp/prod" "svc"). no_star.
Defined.

Lemma VerifyPeerCertificate_more_rules :
  (VerifyPeerCertificate paymentsExact
     [[certWithURI "spiffe" "spiffe://corp/prod/stack/payments/service/api"]] = Some None ->
   VerifyPeerCertificate
     {| AllowedExact := AllowedExact paymentsExact;
        AllowedPrefixes := ["spiffe://corp/dev/"];
        AllowedGlobs := ["spiffe://corp/+/svc"] |}
     [[certWithURI "spiffe" "spiffe://corp/prod/stack/payments/service/api"]] = Some None)
  /\ VerifyPeerCertificate
       {| AllowedExact := []; AllowedPrefixes := []; AllowedGlobs := [] |}
       [[certWithURI "spiffe" "spiffe://corp/prod/stack/payments/service/api"]] <> Some None.
Proof.
  apply (VerifyPeerCertificate_monotone paymentsExact
           {| AllowedExact := AllowedExact paymentsExact;
              AllowedPrefixes := ["spiffe://corp/dev/"];
              AllowedGlobs := ["spiffe://corp/+/svc"] |}).
  - apply incl_refl.
  - vm_compute. intros x [].
  - vm_compute. intros x [].
Defined.

Lemma VerifyPeerCertificate_ignores_https_uri :
  VerifyPeerCertificate paymentsExact
    [[certWithURI "spiffe" "spiffe://corp/prod/stack/payments/service/api"]]
  = VerifyPeerCertificate paymentsExact
      [[{| Raw := "other"; Subject_CommonName := "api"; SerialNumber := 7%Z; DNSNames := [];
           URIs := [ {| Scheme := "https"; String_ := "https://corp/api" |};
                     {| Scheme := "spiffe";
                        String_ := "spiffe://corp/prod/stack/payments/service/api" |} ];
           NotAfter := newYear2026 |}; certWithURI "spiffe" "spiffe://corp/dev/x"]; []].
Proof.
  apply (VerifyPeerCertificate_reads_first_leaf paymentsExact). reflexivity.
Defined.

End spiffe_laws.

(** ** Further properties of the manager *)
Module certmanager_run.
Import golib certmanager certmanager_facts.

Section Accessors.
Context {lib : Lib}.

(** X8. The two [tls.Config] callbacks are one function of the manager. On a
    manager that has stored nothing they return [ErrNotReady]; a refresh that
    fails leaves what they return as it was, and a refresh that stores a
    bundle makes both return that bundle's [Cert]. *)
Theorem GetCertificate_follows_refresh (p : Process) :
  let p' := snd (refresh p) in
  GetClientCertificate (mgr p') = GetCertificate (mgr p')
  /\ (curr (mgr p) = None -> GetCertificate (mgr p) = go.Done (None, Some ErrNotReady))
  /\ (forall e, snd (issuer (mgr p) (issues p)) = Some e ->
        GetCertificate (mgr p') = GetCertificate (mgr p))
  /\ (forall b, issuer (mgr p) (issues p) = (Some b, None) ->
        GetCertificate (mgr p') = go.Done (Cert b, None)).
Proof.
  cbn zeta. destruct (refresh_effect p) as [_ M]. cbn zeta in M.
  split; [reflexivity | split; [| split]].
  - intros E. unfold GetCertificate, Current. now rewrite E.
  - intros e E. rewrite M, E. reflexivity.
  - intros b E. rewrite M, E. reflexivity.
Qed.

(** X9. [Start] is one refresh and nothing else: one [Issue] call, no hook
    dispatched and no sleep, whatever hooks are registered. When the call
    fails [Start] returns its error and the manager is as before; when it
    returns a bundle [Start] returns nil and [Current] returns that bundle. *)
Theorem Start_is_one_refresh (p : Process) :
  let p' := snd (Start p) in
  issues p' = S (issues p) /\ goroutines p' = goroutines p /\ slept p' = slept p
  /\ opts (mgr p') = opts (mgr p)
  /\ (forall e, snd (issuer (mgr p) (issues p)) = Some e ->
        fst (Start p) = go.Done (Some e) /\ mgr p' = mgr p /\ ticks p' = ticks p)
  /\ (forall b f, issuer (mgr p) (issues p) = (Some b, None) ->
        Now (opts (mgr p)) = Some f ->
        fst (Start p) = go.Done None /\ Current (mgr p') = (Some b, None)
        /\ ticks p' = S (ticks p)).
Proof.
  cbn zeta.
  unfold Start, refresh, go.bind, callIssue, Store, callNow, go.modify, go.ret, go.panic.
  destruct (issuer (mgr p) (issues p)) as [bundle [e |]]; cbn.
  - repeat split; congruence.
  - destruct (Now (opts (mgr p))) as [f |]; cbn; [destruct bundle as [b |] |]; cbn;
      repeat split; congruence.
Qed.

(** X10. An issuer that returns a nil bundle with a nil error makes [refresh]
    panic, and only after it has stored the nil pointer: from then on
    [Current] returns a nil bundle with a nil error and both certificate
    callbacks panic. *)
Theorem refresh_nil_bundle (p : Process) (f : NowFn) :
  issuer (mgr p) (issues p) = (None, None) ->
  Now (opts (mgr p)) = Some f ->
  let p' := snd (refresh p) in
  (exists msg, fst (refresh p) = go.Panic msg)
  /\ Current (mgr p') = (None, None)
  /\ (exists msg, GetCertificate (mgr p') = go.Panic msg)
  /\ (exists msg, GetClientCertificate (mgr p') = go.Panic msg)
  /\ (exists msg, fst (Start p) = go.Panic msg).
Proof.
  intros I N.
  unfold Start, refresh, go.bind, callIssue, Store, callNow, go.modify, go.ret, go.panic.
  rewrite I. cbn. rewrite N. cbn. repeat split; eexists; reflexivity.
Qed.

End Accessors.

Local Open Scope Z_scope.

Section RunFacts.
Context {lib : Lib}.

Lemma onError_frame (err : option error) (p : Process) :
  let q := snd (onError err p) in
  fst (onError err p) = go.Done tt
  /\ mgr q = mgr p /\ issues q = issues p /\ slept q = slept p
  /\ List.length (goroutines q)
     = (List.length (goroutines p)
        + match OnError (opts (mgr p)), err with Some _, Some _ => 1 | _, _ => 0 end)%nat.
Proof.
  cbn zeta. unfold onError, go.bind, getOpts, WithTimeout, wallNow, spawn, go.modify, go.ret.
  destruct (OnError (opts (mgr p))) as [hook |]; [destruct err as [e |] |]; cbn;
    rewrite ?length_app; cbn; repeat split; lia.
Qed.

Lemma onRotate_frame (bundle : option Bundle) (p : Process) :
  let q := snd (onRotate bundle p) in
  fst (onRotate bundle p) = go.Done tt
  /\ mgr q = mgr p /\ issues q = issues p /\ slept q = slept p.
Proof.
  cbn zeta. unfold onRotate, go.bind, getOpts, WithTimeout, wallNow, spawn, go.modify, go.ret.
  destruct (OnRotate (opts (mgr p))) as [hook |]; [destruct bundle as [b |] |]; cbn; auto.
Qed.

Lemma refresh_frame (p : Process) :
  let q := snd (refresh p) in
  slept q = slept p /\ opts (mgr q) = opts (mgr p) /\ issuer (mgr q) = issuer (mgr p)
  /\ issues q = S (issues p) /\ goroutines q = goroutines p.
Proof.
  cbn zeta. unfold refresh, go.bind, callIssue, Store, callNow, go.modify, go.ret, go.panic.
  destruct (issuer (mgr p) (issues p)) as [bundle [e |]]; cbn; [auto |].
  destruct (Now (opts (mgr p))); cbn; [destruct bundle |]; cbn; auto.
Qed.

(** Running a bind once the first computation's result is known. *)
Lemma bind_pair {A B : Type} (c : go.M Process A) (k : A -> go.M Process B)
    (p q : Process) (a : A) :
  c p = (go.Done a, q) -> go.bind c k p = k a q.
Proof. intros E. unfold go.bind. now rewrite E. Qed.

Lemma bind_panic {A B : Type} (c : go.M Process A) (k : A -> go.M Process B)
    (p q : Process) (msg : string) :
  c p = (go.Panic msg, q) -> go.bind c k p = (go.Panic msg, q).
Proof. intros E. unfold go.bind. now rewrite E. Qed.

Lemma refresh_fails (p : Process) (e : error) :
  snd (issuer (mgr p) (issues p)) = Some e ->
  refresh p = (go.Done (None, time.zeroTime, Some e), snd (callIssue p)).
Proof.
  intros E. unfold refresh, go.bind, callIssue, go.ret.
  destruct (issuer (mgr p) (issues p)) as [bundle [e' |]]; cbn in *; congruence.
Qed.

(** A turn of the loop whose [Issue] call fails: the error hook is
    dispatched and the loop sleeps [ErrorBackoff]. *)
Lemma RunLoop_error_turn (p : Process) (e : error) :
  snd (issuer (mgr p) (issues p)) = Some e ->
  forall ctx n,
    RunLoop ctx (S n) p =
      (ok <- sleep ctx (ErrorBackoff (opts (mgr p))) ;;
       if ok then RunLoop ctx n else go.ret Returned)%go
      (snd (onError (Some e) (snd (callIssue p)))).
Proof.
  intros E ctx n. cbn [RunLoop].
  rewrite (bind_pair _ _ _ _ _ (refresh_fails p e E)).
  unfold go.bind at 1, getOpts at 1.
  destruct (onError_frame (Some e) (snd (callIssue p))) as (D & _).
  rewrite (bind_pair _ _ _ (snd (onError (Some e) (snd (callIssue p)))) tt).
  - reflexivity.
  - rewrite <- D. apply surjective_pairing.
Qed.


Lemma refresh_succeeds (p : Process) (b : Bundle) (f : NowFn) :
  issuer (mgr p) (issues p) = (Some b, None) ->
  Now (opts (mgr p)) = Some f ->
  let now0 := f (ticks p) in
  refresh p =
    (go.Done (Some b,
              time.Add now0 (Z.quot (wrap64 (time.Sub (NotAfter b) now0 * 2)) 3), None),
     tick (set_mgr (set_curr (Some (Some b)) (mgr p)) (snd (callIssue p)))).
Proof.
  intros I N. cbn zeta.
  unfold refresh, go.bind, callIssue, Store, callNow, go.modify, go.ret. rewrite I. cbn.
  rewrite N. reflexivity.
Qed.

Lemma callNow_reads (p : Process) (f : NowFn) :
  Now (opts (mgr p)) = Some f -> callNow p = (go.Done (f (ticks p)), tick p).
Proof. intros N. unfold callNow. now rewrite N. Qed.

Lemma floor_is_max (w m : Z) : (if w <? m then m else w) = Z.max w m.
Proof. destruct (Z.ltb_spec w m); lia. Qed.

Lemma Sub_range (t u : time.Time) : - 2 ^ 63 <= time.Sub t u <= 2 ^ 63 - 1.
Proof.
  unfold time.Sub, time.maxDuration, time.minDuration.
  repeat match goal with |- context [(?a <? ?b)] => destruct (Z.ltb_spec a b) end; lia.
Qed.

Lemma wait_range (w m : Z) :
  - 2 ^ 63 <= w <= 2 ^ 63 - 1 -> 0 < m <= 2 ^ 63 - 1 -> 0 < Z.max w m <= 2 ^ 63 - 1.
Proof. lia. Qed.

(** A turn of the loop whose [Issue] call returns a bundle, on a manager
    with a clock. *)
Lemma RunLoop_success_turn_raw (p : Process) (b : Bundle) (f : NowFn) :
  issuer (mgr p) (issues p) = (Some b, None) ->
  Now (opts (mgr p)) = Some f ->
  let now0 := f (ticks p) in
  let next := time.Add now0 (Z.quot (wrap64 (time.Sub (NotAfter b) now0 * 2)) 3) in
  let p1 := snd (onRotate (Some b) (snd (refresh p))) in
  let wait := Z.max (time.Sub next (f (ticks p1))) (MinRefresh (opts (mgr p))) in
  let modulus := wrap64 (Z.quot wait 10 + 1) in
  let jitter := Z.rem (time.UnixNano (f (S (ticks p1)))) modulus in
  forall ctx n,
    RunLoop ctx (S n) p =
      (if modulus =? 0 then go.panic "integer divide by zero"
       else (ok <- sleep ctx (wrap64 (wait + jitter)) ;;
             if ok then RunLoop ctx n else go.ret Returned)%go)
      (tick (tick p1)).
Proof.
  intros I N now0 next p1 wait modulus jitter ctx n.
  pose proof (refresh_succeeds p b f I N) as R. cbn zeta in R. fold now0 in R. fold next in R.
  destruct (refresh_frame p) as (_ & O0 & _).
  destruct (onRotate_frame (Some b) (snd (refresh p))) as (D1 & M1 & _).
  fold p1 in D1, M1.
  assert (O1 : opts (mgr p1) = opts (mgr p)) by now rewrite M1.
  cbn [RunLoop]. rewrite (bind_pair _ _ _ _ _ R).
  unfold go.bind at 1, getOpts at 1.
  rewrite (bind_pair _ _ _ p1 tt).
  2:{ rewrite <- D1. subst p1. rewrite R. apply surjective_pairing. }
  assert (N1 : Now (opts (mgr p1)) = Some f) by now rewrite O1.
  rewrite (bind_pair _ _ _ _ _ (callNow_reads p1 f N1)).
  rewrite (bind_pair _ _ _ _ _ (callNow_reads (tick p1) f N1)).
  cbn [tick ticks mgr].
  rewrite floor_is_max.
  change (opts (mgr (set_mgr (set_curr (Some (Some b)) (mgr p)) (snd (callIssue p)))))
    with (opts (mgr p)).
  reflexivity.
Qed.

Lemma modulus_nonzero (w m : Z) :
  - 2 ^ 63 <= w <= 2 ^ 63 - 1 -> 0 < m <= 2 ^ 63 - 1 ->
  wrap64 (Z.quot (Z.max w m) 10 + 1) = Z.quot (Z.max w m) 10 + 1
  /\ (wrap64 (Z.quot (Z.max w m) 10 + 1) =? 0) = false.
Proof.
  intros W M. destruct (tenth_plus_one _ (wait_range w m W M)) as [Small NonZero].
  rewrite (wrap64_small _ Small). split; [reflexivity |]. now apply Z.eqb_neq.
Qed.

(** The same with a positive [MinRefresh]: the remainder is never taken by
    zero. *)
Lemma RunLoop_success_turn (p : Process) (b : Bundle) (f : NowFn) :
  issuer (mgr p) (issues p) = (Some b, None) ->
  Now (opts (mgr p)) = Some f ->
  0 < MinRefresh (opts (mgr p)) <= time.maxDuration ->
  let now0 := f (ticks p) in
  let next := time.Add now0 (Z.quot (wrap64 (time.Sub (NotAfter b) now0 * 2)) 3) in
  let p1 := snd (onRotate (Some b) (snd (refresh p))) in
  let wait := Z.max (time.Sub next (f (ticks p1))) (MinRefresh (opts (mgr p))) in
  let jitter := Z.rem (time.UnixNano (f (S (ticks p1)))) (Z.quot wait 10 + 1) in
  forall ctx n,
    RunLoop ctx (S n) p =
      (ok <- sleep ctx (wrap64 (wait + jitter)) ;;
       if ok then RunLoop ctx n else go.ret Returned)%go
      (tick (tick p1)).
Proof.
  intros I N M now0 next p1 wait jitter ctx n.
  rewrite (RunLoop_success_turn_raw p b f I N). cbn zeta.
  fold now0. fold next. fold p1. unfold time.maxDuration in M.
  destruct (modulus_nonzero _ _ (Sub_range next (f (ticks p1))) M) as [-> ->].
  reflexivity.
Qed.

(** One turn of the loop, whatever the process: it panics, for one of three
    reasons, or it comes to its sleep; either way the manager is as the
    turn's refresh left it. *)
Lemma RunLoop_turn (p : Process) :
  (exists msg q,
     (issuer (mgr p) (issues p) = (None, None) \/ Now (opts (mgr p)) = None
      \/ ~ 0 < MinRefresh (opts (mgr p)) <= time.maxDuration)
     /\ mgr q = mgr (snd (refresh p)) /\ issues q = S (issues p)
     /\ forall ctx n, RunLoop ctx (S n) p = (go.Panic msg, q))
  \/ (exists d q,
        slept q = slept p
        /\ mgr q = mgr (snd (refresh p)) /\ issues q = S (issues p)
        /\ forall ctx n,
             RunLoop ctx (S n) p =
               (ok <- sleep ctx d ;; if ok then RunLoop ctx n else go.ret Returned)%go q).
Proof.
  destruct (issuer (mgr p) (issues p)) as [bundle [e |]] eqn:I.
  - right. destruct (onError_frame (Some e) (snd (callIssue p))) as (_ & M & Is & Sl & _).
    assert (E : snd (issuer (mgr p) (issues p)) = Some e) by now rewrite I.
    exists (ErrorBackoff (opts (mgr p))), (snd (onError (Some e) (snd (callIssue p)))).
    rewrite Sl, M, Is, (refresh_fails p e E). repeat split. now apply RunLoop_error_turn.
  - destruct (Now (opts (mgr p))) as [f |] eqn:N.
    2:{ left. eexists. exists (snd (refresh p)).
        destruct (refresh_frame p) as (_ & _ & _ & Is & _).
        split; [auto | split; [reflexivity | split; [exact Is |]]].
        intros ctx n. cbn [RunLoop]. apply bind_panic.
        unfold refresh, go.bind, callIssue, Store, callNow, go.modify, go.ret. rewrite I. cbn.
        rewrite N. reflexivity. }
    destruct bundle as [b |].
    2:{ left. eexists. exists (snd (refresh p)).
        destruct (refresh_frame p) as (_ & _ & _ & Is & _).
        split; [auto | split; [reflexivity | split; [exact Is |]]].
        intros ctx n. cbn [RunLoop]. apply bind_panic.
        unfold refresh, go.bind, callIssue, Store, callNow, go.modify, go.ret, go.panic.
        rewrite I. cbn. rewrite N. reflexivity. }
    pose proof (RunLoop_success_turn_raw p b f I N) as T. cbn zeta in T.
    destruct (refresh_frame p) as (S0 & _ & _ & Is0 & _).
    destruct (onRotate_frame (Some b) (snd (refresh p))) as (_ & M1 & Is1 & S1).
    set (p1 := snd (onRotate (Some b) (snd (refresh p)))) in *.
    assert (Facts : slept (tick (tick p1)) = slept p
                    /\ mgr (tick (tick p1)) = mgr (snd (refresh p))
                    /\ issues (tick (tick p1)) = S (issues p)).
    { cbn. rewrite S1, M1, Is1. auto. }
    destruct Facts as (Fs & Fm & Fi).
    match type of T with
    | context [if ?m =? 0 then _ else _] => destruct (m =? 0) eqn:Z
    end.
    + left. eexists. exists (tick (tick p1)).
      split; [| split; [| split]]; [| assumption | assumption | exact T].
      right; right. intros M. unfold time.maxDuration in M.
      match type of Z with
      | (wrap64 (Z.quot (Z.max ?w _) 10 + 1) =? 0) = true =>
          destruct (modulus_nonzero w _ (Sub_range _ _) M) as [_ NZ]
      end.
      congruence.
    + right. eexists. exists (tick (tick p1)). auto.
Qed.

Lemma RunLoop_turn_keeps (p q : Process) :
  mgr q = mgr (snd (refresh p)) ->
  opts (mgr q) = opts (mgr p) /\ issuer (mgr q) = issuer (mgr p).
Proof. intros ->. destruct (refresh_frame p) as (_ & O & I & _). auto. Qed.

Lemma Run_ready (p : Process) (v : option Bundle) :
  curr (mgr p) = Some v -> forall ctx n, Run ctx n p = RunLoop ctx n p.
Proof.
  intros C ctx n. unfold Run. unfold go.bind at 1, go.get at 1. unfold Current.
  rewrite C. reflexivity.
Qed.

Lemma Run_not_ready (p : Process) :
  curr (mgr p) = None ->
  forall ctx n,
    Run ctx n p =
      ((r <- refresh ;;
        match snd r with
        | Some e => onError (Some e)
        | None => go.ret tt
        end) ;; RunLoop ctx n)%go p.
Proof.
  intros C ctx n. unfold Run. unfold go.bind at 1, go.get at 1. unfold Current.
  rewrite C. reflexivity.
Qed.

(** What [Run] does before its loop: nothing on a manager that is ready, one
    refresh otherwise, with the error hook dispatched when it fails. *)
Lemma Run_prologue (p : Process) :
  (exists msg q,
     (issuer (mgr p) (issues p) = (None, None) \/ Now (opts (mgr p)) = None)
     /\ forall ctx n, Run ctx n p = (go.Panic msg, q))
  \/ (exists q,
        slept q = slept p /\ opts (mgr q) = opts (mgr p) /\ issuer (mgr q) = issuer (mgr p)
        /\ forall ctx n, Run ctx n p = RunLoop ctx n q).
Proof.
  destruct (curr (mgr p)) as [v |] eqn:C.
  { right. exists p. repeat split. now apply (Run_ready p v). }
  pose proof (Run_not_ready p C) as Eq.
  destruct (issuer (mgr p) (issues p)) as [bundle [e |]] eqn:I.
  - right. destruct (onError_frame (Some e) (snd (callIssue p))) as (D & M & _ & Sl & _).
    exists (snd (onError (Some e) (snd (callIssue p)))). rewrite Sl, M. repeat split.
    intros ctx n. rewrite Eq.
    assert (E : snd (issuer (mgr p) (issues p)) = Some e) by now rewrite I.
    unfold go.bind at 1. unfold go.bind at 1. rewrite (refresh_fails p e E). cbn [snd].
    rewrite (surjective_pairing (onError _ _)), D. reflexivity.
  - destruct (Now (opts (mgr p))) as [f |] eqn:N.
    2:{ left. eexists. eexists. split; [auto |]. intros ctx n. rewrite Eq.
        apply bind_panic. apply bind_panic.
        unfold refresh, go.bind, callIssue, Store, callNow, go.modify, go.ret. rewrite I. cbn.
        rewrite N. reflexivity. }
    destruct bundle as [b |].
    2:{ left. eexists. eexists. split; [auto |]. intros ctx n. rewrite Eq.
        apply bind_panic. apply bind_panic.
        unfold refresh, go.bind, callIssue, Store, callNow, go.modify, go.ret, go.panic.
        rewrite I. cbn. rewrite N. reflexivity. }
    right. pose proof (refresh_succeeds p b f I N) as R. cbn zeta in R.
    eexists. split; [| split; [| split]].
    4:{ intros ctx n. rewrite Eq. unfold go.bind at 1. unfold go.bind at 1. rewrite R.
        cbn [snd]. reflexivity. }
    all: reflexivity.
Qed.


Lemma sleep_runs (ctx : Ctx) (d : time.Duration) (q : Process) :
  sleep ctx d q =
    (go.Done (negb (ctx (List.length (slept q)))),
     {| mgr := mgr q; ticks := ticks q; issues := issues q; goroutines := goroutines q;
        slept := (slept q ++ [d])%list |}).
Proof. reflexivity. Qed.

(** While every [Issue] call fails and [ctx] is not done, the loop sleeps
    [ErrorBackoff] turn after turn. *)
Lemma RunLoop_failing (ctx : Ctx) (n : nat) :
  forall p,
    (forall k, exists e, snd (issuer (mgr p) k) = Some e) ->
    (forall k, (k < n)%nat -> ctx (List.length (slept p) + k)%nat = false) ->
    let r := RunLoop ctx (S n) p in
    fst r = go.Done (if ctx (List.length (slept p) + n)%nat then Returned else StillLooping)
    /\ slept (snd r) = (slept p ++ repeat (ErrorBackoff (opts (mgr p))) (S n))%list
    /\ issues (snd r) = (issues p + S n)%nat
    /\ mgr (snd r) = mgr p
    /\ List.length (goroutines (snd r))
       = (List.length (goroutines p)
          + match OnError (opts (mgr p)) with Some _ => S n | None => 0 end)%nat.
Proof.
  induction n as [| n IH]; intros p F C; cbn zeta;
    destruct (F (issues p)) as [e E]; rewrite (RunLoop_error_turn p e E);
    destruct (onError_frame (Some e) (snd (callIssue p))) as (_ & M & Is & Sl & G);
    cbn zeta in M, Is, Sl, G;
    set (q := snd (onError (Some e) (snd (callIssue p)))) in *;
    change (slept (snd (callIssue p))) with (slept p) in Sl;
    change (mgr (snd (callIssue p))) with (mgr p) in M, G;
    change (issues (snd (callIssue p))) with (S (issues p)) in Is;
    change (goroutines (snd (callIssue p))) with (goroutines p) in G;
    unfold go.bind; rewrite sleep_runs, Sl.
  - rewrite Nat.add_0_r. destruct (ctx (List.length (slept p))); cbn;
      rewrite ?M, ?Is, ?G; repeat split; try lia; destruct (OnError (opts (mgr p))); lia.
  - pose proof (C 0%nat ltac:(lia)) as C0. rewrite Nat.add_0_r in C0. rewrite C0. cbn [negb].
    set (q' := {| mgr := mgr q; ticks := ticks q; issues := issues q;
                  goroutines := goroutines q;
                  slept := (slept p ++ [ErrorBackoff (opts (mgr p))])%list |}).
    assert (F' : forall k, exists e, snd (issuer (mgr q') k) = Some e).
    { intros k. cbn. rewrite M. apply F. }
    assert (C' : forall k, (k < n)%nat -> ctx (List.length (slept q') + k)%nat = false).
    { intros k Lt. cbn. rewrite length_app. cbn.
      replace (List.length (slept p) + 1 + k)%nat with (List.length (slept p) + S k)%nat by lia.
      apply C. lia. }
    destruct (IH q' F' C') as (R1 & R2 & R3 & R4 & R5). clear IH.
    cbn [q' slept mgr issues goroutines] in R1, R2, R3, R4, R5.
    rewrite length_app in R1. cbn [List.length] in R1.
    replace (List.length (slept p) + 1 + n)%nat with (List.length (slept p) + S n)%nat in R1
      by lia.
    rewrite M in R2, R4, R5. rewrite R1, R2, R3, R4, R5, Is, G.
    repeat split; try lia.
    + now rewrite <- app_assoc.
    + destruct (OnError (opts (mgr p))); lia.
Qed.

(** X11. On a manager that is not ready and whose issuer fails every call,
    [Run] makes one [Issue] call before its loop and one each turn, dispatches
    the error hook for each when one is registered, and sleeps exactly
    [ErrorBackoff] after each turn; [Current] keeps returning [ErrNotReady].
    While [ctx] is not done the loop goes on, and it returns from the sleep
    during which [ctx] is done. *)
Theorem Run_backs_off_while_issuer_fails (ctx : Ctx) (n : nat) (p : Process) :
  curr (mgr p) = None ->
  (forall k, exists e, snd (issuer (mgr p) k) = Some e) ->
  (forall k, (k < n)%nat -> ctx (List.length (slept p) + k)%nat = false) ->
  let r := Run ctx (S n) p in
  fst r = go.Done (if ctx (List.length (slept p) + n)%nat then Returned else StillLooping)
  /\ slept (snd r) = (slept p ++ repeat (ErrorBackoff (opts (mgr p))) (S n))%list
  /\ issues (snd r) = (issues p + S (S n))%nat
  /\ Current (mgr (snd r)) = (None, Some ErrNotReady)
  /\ List.length (goroutines (snd r))
     = (List.length (goroutines p)
        + match OnError (opts (mgr p)) with Some _ => S (S n) | None => 0 end)%nat.
Proof.
  intros Cu F C. cbn zeta. rewrite (Run_not_ready p Cu).
  destruct (F (issues p)) as [e E].
  destruct (onError_frame (Some e) (snd (callIssue p))) as (D & M & Is & Sl & G).
  cbn zeta in M, Is, Sl, G.
  set (q := snd (onError (Some e) (snd (callIssue p)))) in *.
  change (slept (snd (callIssue p))) with (slept p) in Sl.
  change (mgr (snd (callIssue p))) with (mgr p) in M, G.
  change (issues (snd (callIssue p))) with (S (issues p)) in Is.
  change (goroutines (snd (callIssue p))) with (goroutines p) in G.
  assert (Eq : (r <- refresh ;;
                match snd r with
                | Some e => onError (Some e)
                | None => go.ret tt
                end)%go p = (go.Done tt, q)).
  { unfold go.bind. rewrite (refresh_fails p e E). cbn [snd].
    rewrite (surjective_pairing (onError _ _)), D. reflexivity. }
  rewrite (bind_pair _ _ _ _ _ Eq).
  assert (F' : forall k, exists e, snd (issuer (mgr q) k) = Some e).
  { intros k. rewrite M. apply F. }
  assert (C' : forall k, (k < n)%nat -> ctx (List.length (slept q) + k)%nat = false).
  { intros k Lt. rewrite Sl. now apply C. }
  destruct (RunLoop_failing ctx n q F' C') as (R1 & R2 & R3 & R4 & R5).
  rewrite Sl in R1, R2. rewrite M in R2, R4, R5. rewrite R1, R2, R3, R4, R5, Is, G.
  repeat split; try lia.
  - unfold Current. now rewrite Cu.
  - destruct (OnError (opts (mgr p))); lia.
Qed.

(** The loop returns only from a sleep during which [ctx] was done, and once
    it has returned more turns change nothing. *)
Lemma RunLoop_Returned (ctx : Ctx) (n : nat) :
  forall p,
    fst (RunLoop ctx n p) = go.Done Returned ->
    (exists k,
       List.length (slept (snd (RunLoop ctx n p))) = S k
       /\ (List.length (slept p) <= k)%nat /\ ctx k = true
       /\ forall j, (List.length (slept p) <= j < k)%nat -> ctx j = false)
    /\ forall m, (n <= m)%nat -> RunLoop ctx m p = RunLoop ctx n p.
Proof.
  induction n as [| n IH]; intros p H; [discriminate H |].
  destruct (RunLoop_turn p) as [(msg & q & _ & _ & _ & T) | (d & q & Sl & _ & _ & T)].
  { rewrite T in H. discriminate H. }
  rewrite T in *. unfold go.bind in *. rewrite sleep_runs in *.
  destruct (ctx (List.length (slept q))) eqn:Cq; cbn [negb] in *.
  - split.
    + exists (List.length (slept q)). cbn. rewrite length_app. cbn. rewrite <- Sl.
      repeat split; try lia. exact Cq.
    + intros [| m] Le; [lia |]. rewrite T. unfold go.bind. rewrite sleep_runs, Cq. reflexivity.
  - destruct (IH _ H) as ((k & L & Le & Ck & Before) & Stable). clear IH.
    cbn [slept] in Le, Before. rewrite length_app in Le, Before. cbn [List.length] in Le, Before.
    split.
    + exists k. rewrite <- Sl. repeat split; try lia; try assumption.
      intros j Rj. destruct (Nat.eq_dec j (List.length (slept q))) as [-> | Ne]; [exact Cq |].
      apply Before. lia.
    + intros [| m] Le'; [lia |]. rewrite T. unfold go.bind. rewrite sleep_runs, Cq.
      cbn [negb]. apply Stable. lia.
Qed.

(** X12. [Run] returns only when [ctx] is done: if it has returned within
    [n] turns, its last sleep is one during which [ctx] was done, [ctx] was
    not done during any sleep before it, and running the loop for more turns
    gives the same result and the same state. *)
Theorem Run_returns_only_when_cancelled (ctx : Ctx) (n : nat) (p : Process) :
  fst (Run ctx n p) = go.Done Returned ->
  (exists k,
     List.length (slept (snd (Run ctx n p))) = S k
     /\ (List.length (slept p) <= k)%nat /\ ctx k = true
     /\ forall j, (List.length (slept p) <= j < k)%nat -> ctx j = false)
  /\ forall m, (n <= m)%nat -> Run ctx m p = Run ctx n p.
Proof.
  intros H.
  destruct (Run_prologue p) as [(msg & q & _ & T) | (q & Sl & _ & _ & T)].
  { rewrite T in H. discriminate H. }
  rewrite T in *. destruct (RunLoop_Returned ctx n q H) as (K & Stable).
  rewrite Sl in K. split; [exact K |]. intros m Le. rewrite T. now apply Stable.
Qed.

Lemma RunLoop_safe (ctx : Ctx) (n : nat) :
  forall p,
    Now (opts (mgr p)) <> None ->
    0 < MinRefresh (opts (mgr p)) <= time.maxDuration ->
    (forall k, issuer (mgr p) k <> (None, None)) ->
    exists r, fst (RunLoop ctx n p) = go.Done r.
Proof.
  induction n as [| n IH]; intros p N M F; [now exists StillLooping |].
  destruct (RunLoop_turn p) as [(msg & q & Why & _) | (d & q & _ & Mq & _ & T)].
  { exfalso. destruct Why as [W | [W | W]]; [now apply (F (issues p)) | easy | easy]. }
  destruct (RunLoop_turn_keeps p q Mq) as [O I].
  rewrite T. unfold go.bind. rewrite sleep_runs.
  destruct (ctx (List.length (slept q))); cbn [negb]; [now exists Returned |].
  apply IH; cbn [mgr]; rewrite ?O, ?I; assumption.
Qed.

Lemma Run_safe (ctx : Ctx) (n : nat) (p : Process) :
  Now (opts (mgr p)) <> None ->
  0 < MinRefresh (opts (mgr p)) <= time.maxDuration ->
  (forall k, issuer (mgr p) k <> (None, None)) ->
  exists r, fst (Run ctx n p) = go.Done r.
Proof.
  intros N M F.
  destruct (Run_prologue p) as [(msg & q & Why & _) | (q & _ & O & I & T)].
  { exfalso. destruct Why as [W | W]; [now apply (F (issues p)) | easy]. }
  rewrite T. apply RunLoop_safe; rewrite ?O, ?I; assumption.
Qed.

(** What the constructor's defaults are for. *)
Lemma NewWithOptions_safe (i : Issuer) (o : Options) :
  let m := NewWithOptions i o in
  Now (opts m) <> None
  /\ (MinRefresh o <= time.maxDuration -> 0 < MinRefresh (opts m) <= time.maxDuration)
  /\ issuer m = i.
Proof.
  cbn. split; [destruct (Now o); discriminate | split; [| reflexivity]].
  unfold time.maxDuration, time.Second. destruct (Z.leb_spec (MinRefresh o) 0); lia.
Qed.



Lemma refreshes_same (n : nat) :
  forall p q, mgr p = mgr q -> issues p = issues q ->
    mgr (refreshes n p) = mgr (refreshes n q).
Proof.
  induction n as [| n IH]; intros p q M I; [exact M |]. cbn [refreshes]. apply IH.
  - destruct (refresh_effect p) as [_ ->], (refresh_effect q) as [_ ->]. now rewrite M, I.
  - destruct (refresh_effect p) as [-> _], (refresh_effect q) as [-> _]. now rewrite I.
Qed.

Lemma RunLoop_stores (ctx : Ctx) (n : nat) :
  forall p,
    let p' := snd (RunLoop ctx n p) in
    (issues p <= issues p')%nat
    /\ mgr p' = mgr (refreshes (issues p' - issues p) p).
Proof.
  induction n as [| n IH]; intros p; cbn zeta.
  { cbn. rewrite Nat.sub_diag. auto. }
  assert (One : forall q, mgr q = mgr (snd (refresh p)) -> issues q = S (issues p) ->
                  (issues p <= issues q)%nat
                  /\ mgr q = mgr (refreshes (issues q - issues p) p)).
  { intros q M I. rewrite I. replace (S (issues p) - issues p)%nat with 1%nat by lia.
    split; [lia | exact M]. }
  destruct (RunLoop_turn p) as [(msg & q & _ & M & I & T) | (d & q & _ & M & I & T)];
    rewrite T.
  { cbn [snd]. now apply One. }
  unfold go.bind. rewrite sleep_runs.
  destruct (ctx (List.length (slept q))); cbn [negb].
  { cbn [snd mgr issues]. now apply One. }
  match goal with |- context [RunLoop ctx n ?s] => set (q' := s) end.
  destruct (IH q') as (Le & Eq). cbn zeta in Le, Eq. clear IH.
  change (issues q') with (issues q) in Le, Eq. rewrite I in Le, Eq.
  split; [lia |]. rewrite Eq.
  replace (issues (snd (RunLoop ctx n q')) - issues p)%nat
    with (S (issues (snd (RunLoop ctx n q')) - S (issues p)))%nat by lia.
  cbn [refreshes]. apply refreshes_same.
  - exact M.
  - cbn [q' issues]. rewrite I. now destruct (refresh_effect p) as [-> _].
Qed.

(** X14. [Run] changes the stored bundle through its refreshes and through
    nothing else: however it ends, with hooks or without, the manager it leaves
    is the one that as many bare refreshes as [Run] made [Issue] calls would
    have left. *)
Theorem Run_stores_what_refresh_stores (ctx : Ctx) (n : nat) (p : Process) :
  let p' := snd (Run ctx n p) in
  (issues p <= issues p')%nat
  /\ mgr p' = mgr (refreshes (issues p' - issues p) p)
  /\ Current (mgr p') = Current (mgr (refreshes (issues p' - issues p) p)).
Proof.
  cbn zeta.
  assert (Goal : (issues p <= issues (snd (Run ctx n p)))%nat
                 /\ mgr (snd (Run ctx n p))
                    = mgr (refreshes (issues (snd (Run ctx n p)) - issues p) p)).
  2:{ destruct Goal as [Le Eq]. rewrite <- Eq. auto. }
  destruct (curr (mgr p)) as [v |] eqn:C.
  { rewrite (Run_ready p v C). apply RunLoop_stores. }
  rewrite (Run_not_ready p C).
  assert (Pro : exists o q,
            (r <- refresh ;;
             match snd r with
             | Some e => onError (Some e)
             | None => go.ret tt
             end)%go p = (o, q)
            /\ mgr q = mgr (snd (refresh p)) /\ issues q = S (issues p)).
  { unfold go.bind. destruct (refresh_frame p) as (_ & _ & _ & Is & _).
    destruct (refresh p) as [[[[b next] [e |]] | msg] q0]; cbn [snd] in *.
    - destruct (onError_frame (Some e) q0) as (_ & M & I & _).
      do 2 eexists. split; [apply surjective_pairing |]. rewrite M, I. auto.
    - do 2 eexists. split; [reflexivity |]. auto.
    - do 2 eexists. split; [reflexivity |]. auto. }
  destruct Pro as (o & q & Eq & M & I).
  assert (One : (issues p <= issues q)%nat
                /\ mgr q = mgr (refreshes (issues q - issues p) p)).
  { rewrite I. replace (S (issues p) - issues p)%nat with 1%nat by lia. split; [lia | exact M]. }
  destruct o as [[] | msg]; [| rewrite (bind_panic _ _ _ _ _ Eq); exact One].
  rewrite (bind_pair _ _ _ _ _ Eq).
  destruct (RunLoop_stores ctx n q) as (Le & E). cbn zeta in Le, E. rewrite I in Le, E.
  split; [lia |]. rewrite E.
  replace (issues (snd (RunLoop ctx n q)) - issues p)%nat
    with (S (issues (snd (RunLoop ctx n q)) - S (issues p)))%nat by lia.
  cbn [refreshes]. apply refreshes_same.
  - exact M.
  - rewrite I. now destruct (refresh_effect p) as [-> _].
Qed.


(** X15. After a successful refresh the jitter [Run] adds to its wait is the
    clock's Unix time in nanoseconds modulo a tenth of the wait plus one, so
    it is at most a tenth of the wait in size and has the sign of the clock
    reading: for a clock past 1970 the loop sleeps between the floored wait,
    which is at least [MinRefresh], and eleven tenths of it; for a clock
    before 1970 it sleeps between nine tenths of the floored wait and the
    floored wait. *)
Theorem RunLoop_jitter_within_a_tenth (ctx : Ctx) (p : Process) (b : Bundle) (f : NowFn) :
  issuer (mgr p) (issues p) = (Some b, None) ->
  Now (opts (mgr p)) = Some f ->
  0 < MinRefresh (opts (mgr p)) ->
  let now0 := f (ticks p) in
  let next := time.Add now0 (Z.quot (wrap64 (time.Sub (NotAfter b) now0 * 2)) 3) in
  let p1 := snd (onRotate (Some b) (snd (refresh p))) in
  let now2 := f (S (ticks p1)) in
  let wait := Z.max (time.Sub next (f (ticks p1))) (MinRefresh (opts (mgr p))) in
  let jitter := Z.rem (time.UnixNano now2) (Z.quot wait 10 + 1) in
  wait <= 2 ^ 62 ->
  - 2 ^ 63 <= now2 < 2 ^ 63 ->
  slept (snd (RunLoop ctx 1 p)) = (slept p ++ [wait + jitter])%list
  /\ (0 <= now2 ->
      0 <= jitter <= Z.quot wait 10 /\ MinRefresh (opts (mgr p)) <= wait + jitter)
  /\ (now2 <= 0 -> - Z.quot wait 10 <= jitter <= 0)
  /\ wait - Z.quot wait 10 <= wait + jitter <= wait + Z.quot wait 10.
Proof.
  intros I N M now0 next p1 now2 wait jitter W R.
  assert (M' : 0 < MinRefresh (opts (mgr p)) <= time.maxDuration).
  { unfold time.maxDuration. subst wait. lia. }
  pose proof (RunLoop_success_turn p b f I N M' ctx 0) as T. cbn zeta in T.
  fold now0 in T. fold next in T. fold p1 in T. fold now2 in T. fold wait in T.
  fold jitter in T.
  assert (Pos : 0 < wait) by (subst wait; lia).
  pose proof (Z.quot_pos wait 10 ltac:(lia) ltac:(lia)) as Q0.
  pose proof (Z.mul_quot_le wait 10 ltac:(lia) ltac:(lia)) as Q1.
  assert (U : time.UnixNano now2 = now2) by (apply wrap64_small; exact R).
  assert (J : (0 <= now2 -> 0 <= jitter <= Z.quot wait 10)
              /\ (now2 <= 0 -> - Z.quot wait 10 <= jitter <= 0)).
  { subst jitter. rewrite U. split; intros S.
    - pose proof (Z.rem_bound_pos_pos now2 (Z.quot wait 10 + 1) ltac:(lia) S). lia.
    - pose proof (Z.rem_bound_pos_neg now2 (Z.quot wait 10 + 1) ltac:(lia) S). lia. }
  assert (Fl : MinRefresh (opts (mgr p)) <= wait) by (subst wait; lia).
  clearbody jitter wait. destruct J as [J1 J2].
  assert (B : - Z.quot wait 10 <= jitter <= Z.quot wait 10).
  { destruct (Z.le_ge_cases 0 now2) as [S | S]; [specialize (J1 S) | specialize (J2 S)]; lia. }
  split; [| split; [| split]].
  - rewrite T. unfold go.bind. rewrite sleep_runs.
    assert (Sl : slept p1 = slept p).
    { destruct (refresh_frame p) as (S0 & _).
      destruct (onRotate_frame (Some b) (snd (refresh p))) as (_ & _ & _ & S1).
      subst p1. now rewrite S1. }
    rewrite wrap64_small by lia.
    destruct (negb _); cbn; now rewrite Sl.
  - intros S. specialize (J1 S). split; [exact J1 | lia].
  - exact J2.
  - lia.
Qed.

End RunFacts.

Section Info.
Context {lib : Lib}.

(** X16. What a rotate hook is told about a bundle: always its [NotAfter];
    the names, serial number and URIs of the key pair's parsed leaf when
    there is one, whatever the DER chain holds; failing that, those of the
    first DER certificate of the chain when it parses, just as if that
    certificate had been the parsed leaf; and nothing more when the bundle has
    no key pair, or no parsed leaf and no first certificate that parses.
    The trust pool is never read. *)
Theorem bundleInfo_reads_leaf (bundle : Bundle) :
  let ofLeaf leaf :=
    {| info_NotAfter := NotAfter bundle;
       CommonName := x509.Subject_CommonName leaf;
       SerialNumber := itoa (x509.SerialNumber leaf);
       DNSNames := x509.DNSNames leaf;
       URIs := map url.String_ (x509.URIs leaf) |} in
  let bare :=
    {| info_NotAfter := NotAfter bundle; CommonName := ""; SerialNumber := "";
       DNSNames := []; URIs := [] |} in
  info_NotAfter (bundleInfo bundle) = NotAfter bundle
  /\ (forall cert leaf, Cert bundle = Some cert -> tls.Leaf cert = Some leaf ->
        bundleInfo bundle = ofLeaf leaf)
  /\ (forall cert der rest parsed,
        Cert bundle = Some cert -> tls.Leaf cert = None ->
        tls.Certificate_ cert = der :: rest ->
        x509_ParseCertificate der = inr parsed ->
        bundleInfo bundle = ofLeaf parsed)
  /\ (Cert bundle = None -> bundleInfo bundle = bare)
  /\ (forall cert, Cert bundle = Some cert -> tls.Leaf cert = None ->
        (tls.Certificate_ cert = []
         \/ exists der rest err, tls.Certificate_ cert = der :: rest
                                 /\ x509_ParseCertificate der = inl err) ->
        bundleInfo bundle = bare)
  /\ (forall pool,
        bundleInfo {| Cert := Cert bundle; CA := pool; NotAfter := NotAfter bundle |}
        = bundleInfo bundle).
Proof.
  cbn zeta. unfold bundleInfo. repeat split.
  - destruct (Cert bundle) as [cert |]; [| reflexivity].
    destruct (tls.Leaf cert); [reflexivity |].
    destruct (tls.Certificate_ cert) as [| der rest]; [reflexivity |].
    destruct (x509_ParseCertificate der); reflexivity.
  - intros cert leaf -> L. rewrite L. now destruct (tls.Certificate_ cert).
  - intros cert der rest parsed -> L C P. now rewrite L, C, P.
  - intros ->. reflexivity.
  - intros cert -> L [C | (der & rest & err & C & P)]; rewrite L, C; [reflexivity |].
    now rewrite P.
Qed.

End Info.

Import examples.

(** A manager whose issuer returns nil and nil serves a nil bundle after
    its first refresh has panicked. *)
Lemma Current_after_nil_bundle :
  let p' := snd (refresh (boot (New (lib := stillLib) nilIssuer))) in
  (exists msg, fst (refresh (boot (New (lib := stillLib) nilIssuer))) = go.Panic msg)
  /\ Current (mgr p') = (None, None)
  /\ (exists msg, GetCertificate (mgr p') = go.Panic msg)
  /\ (exists msg, GetClientCertificate (mgr p') = go.Panic msg)
  /\ (exists msg, fst (Start (boot (New (lib := stillLib) nilIssuer))) = go.Panic msg).
Proof.
  exact (refresh_nil_bundle (boot (New (lib := stillLib) nilIssuer)) (fun _ => newYear2026)
           eq_refl eq_refl).
Defined.

(** The backend is down and nobody cancels: after the attempt before the
    loop and three turns there were four [Issue] calls, four error hooks and
    three sleeps of the default 15 s. *)
Lemma Run_backs_off_15s :
  let r := Run (lib := stillLib) background 3 (boot managerOfDownBackend) in
  fst r = go.Done StillLooping
  /\ slept (snd r) = [15 * time.Second; 15 * time.Second; 15 * time.Second]
  /\ issues (snd r) = 4%nat
  /\ Current (mgr (snd r)) = (None, Some ErrNotReady)
  /\ List.length (goroutines (snd r)) = 4%nat.
Proof.
  refine (Run_backs_off_while_issuer_fails (lib := stillLib) background 2
            (boot managerOfDownBackend) eq_refl _ _).
  - intros k. exists "backend down". reflexivity.
  - intros k _. reflexivity.
Defined.

(** The same backend under a context that is cancelled during the second
    sleep: [Run] returns then, and any number of further turns changes
    nothing. *)
Lemma Run_returns_from_second_sleep :
  (exists k,
     List.length (slept (snd (Run (lib := stillLib) (cancelledFrom 1) 5
                                (boot managerOfDownBackend)))) = S k
     /\ (List.length (slept (boot managerOfDownBackend)) <= k)%nat
     /\ cancelledFrom 1 k = true
     /\ forall j, (List.length (slept (boot managerOfDownBackend)) <= j < k)%nat ->
                  cancelledFrom 1 j = false)
  /\ forall m, (5 <= m)%nat ->
       Run (lib := stillLib) (cancelledFrom 1) m (boot managerOfDownBackend)
       = Run (lib := stillLib) (cancelledFrom 1) 5 (boot managerOfDownBackend).
Proof.
  apply (Run_returns_only_when_cancelled (lib := stillLib) (cancelledFrom 1) 5
           (boot managerOfDownBackend)).
  vm_compute. reflexivity.
Defined.


(** The scheduling test once more: the wait is 60 s, the clock stands past
    1970, and the jitter lies between 0 and 6 s. *)
Lemma RunLoop_jitter_of_60s :
  let jitter := Z.rem (time.UnixNano newYear2026) (Z.quot (60 * time.Second) 10 + 1) in
  slept (snd (RunLoop (lib := stillLib) background 1 (boot (managerFor (90 * time.Second)))))
  = [60 * time.Second + jitter]
  /\ 0 <= jitter <= 6 * time.Second.
Proof.
  destruct (RunLoop_jitter_within_a_tenth (lib := stillLib) background
              (boot (managerFor (90 * time.Second)))
              (bundleWithLifetime (90 * time.Second)) (fun _ => newYear2026)
              eq_refl eq_refl eq_refl) as (S & J & _).
  - vm_compute. discriminate.
  - vm_compute. split; [discriminate | reflexivity].
  - split; [exact S |]. apply J. vm_compute. discriminate.
Defined.

End certmanager_run.

(** ** The manager at startup *)
Module certmanager_startup.
Import golib certmanager certmanager_facts certmanager_run.
Local Open Scope Z_scope.

Section Startup.
Context {lib : Lib}.

Lemma onRotate_spawns (b : Bundle) (q : Process) :
  let c := {| Deadline := time.Add (time_Now (ticks q)) (HookTimeout (opts (mgr q))) |} in
  goroutines (snd (onRotate (Some b) q))
  = (goroutines q
     ++ match OnRotate (opts (mgr q)) with
        | Some hook => [ {| g_ctx := c; g_defers := [deferCancel];
                            g_call := hook c (bundleInfo b) |} ]
        | None => []
        end)%list.
Proof.
  cbn zeta. unfold onRotate, go.bind, getOpts, WithTimeout, wallNow, spawn, go.modify, go.ret.
  destruct (OnRotate (opts (mgr q))) as [hook |]; cbn; [reflexivity | now rewrite app_nil_r].
Qed.

(** X26. [Run] on a manager that is not ready obtains its first bundle twice
    over: the refresh before the loop stores a bundle without telling the
    rotate hook, and the first turn of the loop calls [Issue] again at once,
    before any sleep. After that turn there were two [Issue] calls and one
    sleep, [Current] returns the second bundle, and the rotate hook, when
    registered, was dispatched once, for the second bundle. *)
Theorem Run_issues_twice_at_startup (ctx : Ctx) (p : Process) (b0 b1 : Bundle) (f : NowFn) :
  curr (mgr p) = None ->
  issuer (mgr p) (issues p) = (Some b0, None) ->
  issuer (mgr p) (S (issues p)) = (Some b1, None) ->
  Now (opts (mgr p)) = Some f ->
  0 < MinRefresh (opts (mgr p)) <= time.maxDuration ->
  let p' := snd (Run ctx 1 p) in
  let c := {| Deadline := time.Add (time_Now (S (S (ticks p)))) (HookTimeout (opts (mgr p))) |} in
  issues p' = S (S (issues p))
  /\ List.length (slept p') = S (List.length (slept p))
  /\ Current (mgr p') = (Some b1, None)
  /\ goroutines p'
     = (goroutines p
        ++ match OnRotate (opts (mgr p)) with
           | Some hook => [ {| g_ctx := c; g_defers := [deferCancel];
                               g_call := hook c (bundleInfo b1) |} ]
           | None => []
           end)%list.
Proof.
  intros Cu I0 I1 N M. cbn zeta.
  rewrite (Run_not_ready p Cu).
  pose proof (refresh_succeeds p b0 f I0 N) as R0. cbn zeta in R0.
  set (q0 := tick (set_mgr (set_curr (Some (Some b0)) (mgr p)) (snd (callIssue p)))) in *.
  assert (Pro : (r <- refresh ;;
                 match snd r with
                 | Some e => onError (Some e)
                 | None => go.ret tt
                 end)%go p = (go.Done tt, q0)).
  { unfold go.bind. rewrite R0. reflexivity. }
  rewrite (bind_pair _ _ _ _ _ Pro).
  assert (I1' : issuer (mgr q0) (issues q0) = (Some b1, None)) by exact I1.
  assert (N' : Now (opts (mgr q0)) = Some f) by exact N.
  assert (M' : 0 < MinRefresh (opts (mgr q0)) <= time.maxDuration) by exact M.
  rewrite (RunLoop_success_turn q0 b1 f I1' N' M' ctx 0).
  pose proof (refresh_succeeds q0 b1 f I1' N') as R1. cbn zeta in R1.
  pose proof (onRotate_spawns b1 (snd (refresh q0))) as G. cbn zeta in G.
  destruct (onRotate_frame (Some b1) (snd (refresh q0))) as (_ & Mg & Is & Sl).
  set (p1 := snd (onRotate (Some b1) (snd (refresh q0)))) in *.
  rewrite R1 in G, Mg, Is, Sl. cbn [snd] in G, Mg, Is, Sl.
  unfold go.bind. rewrite sleep_runs.
  destruct (negb _); cbn [snd fst RunLoop go.ret mgr issues slept goroutines tick];
    rewrite ?length_app, Mg, Is, Sl, G; cbn; repeat split; lia.
Qed.

End Startup.

Import examples.

(** The manager with the rotate hook that never returns: one turn of [Run]
    on it calls [Issue] twice and starts the hook once. *)
Lemma Run_startup_of_hooked_manager :
  let p' := snd (Run (lib := stillLib) background 1 (boot managerWithBlockingHook)) in
  issues p' = 2%nat
  /\ List.length (slept p') = 1%nat
  /\ Current (mgr p') = (Some (bundleWithLifetime (90 * time.Second)), None)
  /\ List.length (goroutines p') = 1%nat.
Proof.
  destruct (Run_issues_twice_at_startup (lib := stillLib) background
              (boot managerWithBlockingHook)
              (bundleWithLifetime (90 * time.Second)) (bundleWithLifetime (90 * time.Second))
              (fun _ => newYear2026) eq_refl eq_refl eq_refl eq_refl)
    as (I & S & C & G).
  - vm_compute. split; [reflexivity | discriminate].
  - cbn zeta. rewrite I, S, C, G. repeat split.
Defined.

End certmanager_startup.

(** ** Further properties of the Vault client and issuer *)
Module vault_requests.
Import golib vault vault_facts.

Section ClientMore.
Context {lib : Lib} {wire : Wire}.

(** X17. The failures of [Client.Issue] that need no network: a missing
    address, PKI path or role, checked in this order, and a client with
    neither a token nor both AppRole credentials. Each returns its error with
    no request sent and the client untouched. *)
Theorem Client_Issue_fails_without_a_request (pkiPath role : string) (req : IssueRequest)
    (s : Session) :
  (Addr (client s) = "" ->
     Client_Issue pkiPath role req s = (inl "vault addr required", s))
  /\ (Addr (client s) <> "" -> pkiPath = "" ->
        Client_Issue pkiPath role req s = (inl "pki path required", s))
  /\ (Addr (client s) <> "" -> pkiPath <> "" -> role = "" ->
        Client_Issue pkiPath role req s = (inl "pki role required", s))
  /\ (Addr (client s) <> "" -> pkiPath <> "" -> role <> "" ->
        Token (client s) = "" -> RoleID (client s) = "" \/ SecretID (client s) = "" ->
        Client_Issue pkiPath role req s = (inl ErrAuthRequired, s)).
Proof.
  unfold Client_Issue, go.then_, getClient, go.unit_.
  split; [| split; [| split]].
  - intros ->. reflexivity.
  - intros A ->. now rewrite (eqb_empty_false _ A).
  - intros A P ->. now rewrite (eqb_empty_false _ A), (eqb_empty_false _ P).
  - intros A P R T C.
    rewrite (eqb_empty_false _ A), (eqb_empty_false _ P), (eqb_empty_false _ R).
    now rewrite (ensureToken_no_credentials s T C).
Qed.

Lemma Client_Issue_fails_without_a_request_aux (pkiPath role : string) (req : IssueRequest)
    (s : Session) :
  (exists err, Client_Issue pkiPath role req s = (inl err, s))
  \/ (Addr (client s) <> "" /\ pkiPath <> "" /\ role <> "").
Proof.
  unfold Client_Issue, go.then_, getClient, go.unit_.
  destruct (String.eqb_spec (Addr (client s)) ""); [eauto |].
  destruct (String.eqb_spec pkiPath ""); [eauto |].
  destruct (String.eqb_spec role ""); [eauto |]. auto.
Qed.

Lemma set_Token_same (c : Client) : c = set_Token (Token c) c.
Proof. now destruct c. Qed.

(** What [doJSON] does with an issuance request: it sends nothing, or it
    sends it under the client's token, which is not empty. *)
Lemma doJSON_issue_out (pkiPath role : string) (req : IssueRequest) (s : Session) :
  let u := url (client s) (path_Join ["v1"; pkiPath; "issue"; role]) in
  let q := issueRequest (client s) pkiPath role req (Token (client s)) in
  (exists err, doJSON "POST" u (IssuePayload req) true s = (inl err, s))
  \/ (Token (client s) <> ""
      /\ exists reply,
           doJSON "POST" u (IssuePayload req) true s =
             (match replyError reply, reply with
              | Some err, _ => inl err
              | None, inr resp => inr resp
              | None, inl err => inl err
              end,
              {| client := client s; exchanges := (exchanges s ++ [(q, reply)])%list |})).
Proof.
  cbn zeta.
  destruct (http_NewRequest_error "POST"
              (url (client s) (path_Join ["v1"; pkiPath; "issue"; role]))) as [err |] eqn:B.
  { left. exists err. unfold doJSON. now rewrite B. }
  destruct (String.eqb_spec (Token (client s)) "") as [T | T].
  { left. exists ErrAuthRequired. unfold doJSON, go.then_, getClient, token. rewrite B, T.
    reflexivity. }
  right. split; [exact T |]. eexists.
  rewrite (doJSON_sends _ _ _ true s B (fun _ => T)). reflexivity.
Qed.


Lemma replyError_2xx (resp : Response) :
  replyError (inr resp) = None -> (200 <= StatusCode resp < 300)%Z.
Proof.
  unfold replyError.
  destruct (Z.ltb_spec (StatusCode resp) 200), (Z.leb_spec 300 (StatusCode resp));
    cbn; try discriminate; lia.
Qed.

Lemma decodeIssue_ok (resp : Response) (data : IssueResponse) :
  decodeIssue resp = inr data ->
  json_Decode_issue (ResponseBody resp) = inr data
  /\ Certificate data <> "" /\ PrivateKey data <> "".
Proof.
  unfold decodeIssue. destruct (json_Decode_issue (ResponseBody resp)) as [err | d];
    [discriminate |].
  destruct (String.eqb_spec (Certificate d) ""), (String.eqb_spec (PrivateKey d) "");
    cbn; try discriminate.
  intros E. injection E as <-. auto.
Qed.

(** One issuance request of a client that differs from [c0] at most in its
    token. *)
Lemma doJSON_issue_facts (c0 : Client) (pkiPath role : string) (req : IssueRequest)
    (s : Session) :
  (exists tok, client s = set_Token tok c0) ->
  let out := doJSON "POST" (url c0 (path_Join ["v1"; pkiPath; "issue"; role]))
               (IssuePayload req) true s in
  client (snd out) = client s
  /\ exists new,
       exchanges (snd out) = (exchanges s ++ new)%list
       /\ Forall (sentBy c0 pkiPath role req) new
       /\ forall resp, fst out = inr resp ->
            Token (client s) <> "" /\ (200 <= StatusCode resp < 300)%Z
            /\ new = [(issueRequest c0 pkiPath role req (Token (client s)), inr resp)].
Proof.
  intros [tok0 Fr]. cbn zeta.
  assert (U : url c0 (path_Join ["v1"; pkiPath; "issue"; role])
              = url (client s) (path_Join ["v1"; pkiPath; "issue"; role])).
  { now rewrite Fr. }
  assert (Q : forall t, issueRequest (client s) pkiPath role req t
                        = issueRequest c0 pkiPath role req t).
  { intros t. now rewrite Fr. }
  rewrite U.
  destruct (doJSON_issue_out pkiPath role req s) as [[err ->] | (T & reply & ->)];
    cbn [fst snd client exchanges].
  - split; [reflexivity |]. exists []. rewrite app_nil_r.
    split; [reflexivity | split; [constructor | discriminate]].
  - split; [reflexivity |]. eexists. split; [reflexivity |]. rewrite Q. split.
    + constructor; [| constructor]. right. exists (Token (client s)). auto.
    + intros resp E. split; [exact T |].
      destruct reply as [err | r].
      * cbn in E. discriminate E.
      * destruct (replyError (inr r)) eqn:RE; [discriminate E |]. injection E as <-.
        split; [now apply replyError_2xx | reflexivity].
Qed.

(** [ensureToken] on such a client. *)
Lemma ensureToken_facts (c0 : Client) (pkiPath role : string) (req : IssueRequest)
    (s : Session) :
  (exists tok, client s = set_Token tok c0) ->
  let out := Client_ensureToken s in
  (exists tok, client (snd out) = set_Token tok c0)
  /\ (fst out = None -> Token (client (snd out)) <> "")
  /\ exists new,
       exchanges (snd out) = (exchanges s ++ new)%list
       /\ Forall (sentBy c0 pkiPath role req) new.
Proof.
  intros [tok0 Fr]. cbn zeta.
  assert (L : loginRequest (client s) = loginRequest c0) by now rewrite Fr.
  assert (Nothing : forall e, Client_ensureToken s = (e, s) ->
            (e = None -> Token (client s) <> "") ->
            (exists tok, client (snd (Client_ensureToken s)) = set_Token tok c0)
            /\ (fst (Client_ensureToken s) = None ->
                Token (client (snd (Client_ensureToken s))) <> "")
            /\ exists new,
                 exchanges (snd (Client_ensureToken s)) = (exchanges s ++ new)%list
                 /\ Forall (sentBy c0 pkiPath role req) new).
  { intros e -> T. cbn [fst snd]. split; [eauto | split; [exact T |]].
    exists []. rewrite app_nil_r. split; [reflexivity | constructor]. }
  destruct (String.eqb_spec (Token (client s)) "") as [T | T].
  2:{ apply (Nothing None); [now apply ensureToken_held | auto]. }
  destruct (String.eqb_spec (RoleID (client s)) "") as [R | R].
  { apply (Nothing (Some ErrAuthRequired)); [apply ensureToken_no_credentials; auto |].
    discriminate. }
  destruct (String.eqb_spec (SecretID (client s)) "") as [S | S].
  { apply (Nothing (Some ErrAuthRequired)); [apply ensureToken_no_credentials; auto |].
    discriminate. }
  destruct (http_NewRequest_error "POST" (URL (loginRequest (client s)))) as [err |] eqn:B.
  { apply (Nothing (Some err)); [now apply ensureToken_unbuildable | discriminate]. }
  rewrite (ensureToken_logs_in s T R S B). cbn zeta. rewrite L.
  assert (Sent : Forall (sentBy c0 pkiPath role req)
                   [(loginRequest c0, replyTo (client s) (exchanges s) (loginRequest c0))]).
  { constructor; [now left | constructor]. }
  destruct (loginOutcome _) as [err | tok] eqn:O; cbn [fst snd client exchanges].
  - split; [eauto | split; [discriminate |]]. eauto.
  - split; [| split].
    + exists tok. now rewrite Fr.
    + intros _. cbn. now apply (loginOutcome_nonempty _ _ O).
    + eauto.
Qed.

(** Everything [Client.Issue] does to the session. *)
Lemma Client_Issue_trace (pkiPath role : string) (req : IssueRequest) (s : Session) :
  let out := Client_Issue pkiPath role req s in
  (exists tok, client (snd out) = set_Token tok (client s))
  /\ exists new,
       exchanges (snd out) = (exchanges s ++ new)%list
       /\ Forall (sentBy (client s) pkiPath role req) new
       /\ forall data, fst out = inr data ->
            Token (client (snd out)) <> ""
            /\ exists before resp,
                 new = (before ++ [(issueRequest (client s) pkiPath role req
                                      (Token (client (snd out))), inr resp)])%list
                 /\ (200 <= StatusCode resp < 300)%Z
                 /\ decodeIssue resp = inr data.
Proof.
  cbn zeta.
  assert (Same : exists tok, client s = set_Token tok (client s)).
  { exists (Token (client s)). apply set_Token_same. }
  assert (Nothing : forall err, Client_Issue pkiPath role req s = (inl err, s) ->
            (exists tok, client (snd (Client_Issue pkiPath role req s))
                         = set_Token tok (client s))
            /\ exists new,
                 exchanges (snd (Client_Issue pkiPath role req s)) = (exchanges s ++ new)%list
                 /\ Forall (sentBy (client s) pkiPath role req) new
                 /\ forall data, fst (Client_Issue pkiPath role req s) = inr data ->
                      Token (client (snd (Client_Issue pkiPath role req s))) <> ""
                      /\ exists before resp,
                           new = (before ++ [(issueRequest (client s) pkiPath role req
                                   (Token (client (snd (Client_Issue pkiPath role req s)))),
                                   inr resp)])%list
                           /\ (200 <= StatusCode resp < 300)%Z
                           /\ decodeIssue resp = inr data).
  { intros err ->. cbn [fst snd]. split; [exact Same |]. exists []. rewrite app_nil_r.
    split; [reflexivity | split; [constructor | discriminate]]. }
  destruct (Client_Issue_fails_without_a_request_aux pkiPath role req s) as [[err E] | (A & P & R)].
  { now apply (Nothing err). }
  clear Nothing.
  unfold Client_Issue, go.then_, getClient, go.unit_, setToken.
  rewrite (eqb_empty_false _ A), (eqb_empty_false _ P), (eqb_empty_false _ R).
  pose proof (ensureToken_facts (client s) pkiPath role req s Same) as F1. cbn zeta in F1.
  destruct (Client_ensureToken s) as [e s1]. cbn [fst snd] in F1.
  destruct F1 as (Fr1 & T1 & new1 & X1 & S1).
  destruct e as [err |].
  { cbn [fst snd]. split; [exact Fr1 |]. exists new1.
    split; [exact X1 | split; [exact S1 | discriminate]]. }
  pose proof (doJSON_issue_facts (client s) pkiPath role req s1 Fr1) as F2. cbn zeta in F2.
  destruct (doJSON "POST" _ (IssuePayload req) true s1) as [r1 s2]. cbn [fst snd] in F2.
  destruct F2 as (C2 & new2 & X2 & S2 & Ok2).
  assert (Fr2 : exists tok, client s2 = set_Token tok (client s)) by now rewrite C2.
  assert (X12 : exchanges s2 = (exchanges s ++ new1 ++ new2)%list).
  { now rewrite X2, X1, <- !app_assoc. }
  assert (S12 : Forall (sentBy (client s) pkiPath role req) (new1 ++ new2)).
  { apply Forall_app. auto. }
  destruct r1 as [err | resp].
  2:{ cbn [fst snd]. split; [exact Fr2 |]. exists (new1 ++ new2)%list.
      split; [exact X12 | split; [exact S12 |]]. intros data D.
      destruct (Ok2 resp eq_refl) as (Tk & St & ->). rewrite C2. split; [exact Tk |].
      exists new1, resp. auto. }
  destruct (isAuthError err && negb (RoleID (client s) =? "")
            && negb (SecretID (client s) =? "")).
  2:{ cbn [fst snd]. split; [exact Fr2 |]. exists (new1 ++ new2)%list.
      split; [exact X12 | split; [exact S12 | discriminate]]. }
  set (s3 := {| client := set_Token "" (client s2); exchanges := exchanges s2 |}).
  assert (Fr3 : exists tok, client s3 = set_Token tok (client s)).
  { destruct Fr2 as [tok E]. exists "". unfold s3. cbn [client]. now rewrite E. }
  pose proof (ensureToken_facts (client s) pkiPath role req s3 Fr3) as F3. cbn zeta in F3.
  destruct (Client_ensureToken s3) as [e3 s4]. cbn [fst snd] in F3.
  destruct F3 as (Fr4 & T4 & new3 & X3 & S3).
  change (exchanges s3) with (exchanges s2) in X3.
  assert (X123 : exchanges s4 = (exchanges s ++ (new1 ++ new2) ++ new3)%list).
  { now rewrite X3, X12, <- !app_assoc. }
  assert (S123 : Forall (sentBy (client s) pkiPath role req) ((new1 ++ new2) ++ new3)).
  { apply Forall_app. auto. }
  destruct e3 as [err3 |].
  { cbn [fst snd]. split; [exact Fr4 |]. exists ((new1 ++ new2) ++ new3)%list.
    split; [exact X123 | split; [exact S123 | discriminate]]. }
  pose proof (doJSON_issue_facts (client s) pkiPath role req s4 Fr4) as F5. cbn zeta in F5.
  destruct (doJSON "POST" _ (IssuePayload req) true s4) as [r2 s5]. cbn [fst snd] in F5.
  destruct F5 as (C5 & new4 & X4 & S4 & Ok4).
  assert (Fr5 : exists tok, client s5 = set_Token tok (client s)) by now rewrite C5.
  assert (X1234 : exchanges s5 = (exchanges s ++ ((new1 ++ new2) ++ new3) ++ new4)%list).
  { now rewrite X4, X123, <- !app_assoc. }
  assert (S1234 : Forall (sentBy (client s) pkiPath role req)
                    (((new1 ++ new2) ++ new3) ++ new4)).
  { apply Forall_app. auto. }
  destruct r2 as [err2 | resp]; cbn [fst snd]; (split; [exact Fr5 |]);
    exists (((new1 ++ new2) ++ new3) ++ new4)%list;
    (split; [exact X1234 | split; [exact S1234 |]]); [discriminate |].
  intros data D. destruct (Ok4 resp eq_refl) as (Tk & St & ->). rewrite C5.
  split; [exact Tk |]. exists ((new1 ++ new2) ++ new3)%list, resp. auto.
Qed.


(** X18. Every request [Client.Issue] sends is a POST of JSON that carries
    the namespace header exactly when the client has a namespace, and is one
    of two kinds: a login to the client's auth path with its AppRole
    credentials and no token header, or the issuance request to the role's
    endpoint under a token that is not empty. No issuance request goes out
    without a token and no login carries one. The call changes nothing of the
    client but its token. *)
Theorem Client_Issue_requests (pkiPath role : string) (req : IssueRequest) (s : Session) :
  let c := client s in
  let s' := snd (Client_Issue pkiPath role req s) in
  (exists tok, client s' = set_Token tok c)
  /\ exists new,
       exchanges s' = (exchanges s ++ new)%list
       /\ Forall (fun x =>
            Method (fst x) = "POST" /\ ContentType (fst x) = "application/json"
            /\ XVaultNamespace (fst x)
               = (if Namespace c =? "" then None else Some (Namespace c))
            /\ ((Body (fst x) = LoginPayload (RoleID c) (SecretID c)
                 /\ XVaultToken (fst x) = None
                 /\ URL (fst x)
                    = url c (path_Join ["v1"; if AuthPath c =? "" then "auth/approle/login"
                                              else AuthPath c]))
                \/ (Body (fst x) = IssuePayload req
                    /\ (exists tok, tok <> "" /\ XVaultToken (fst x) = Some tok)
                    /\ URL (fst x) = url c (path_Join ["v1"; pkiPath; "issue"; role])))) new.
Proof.
  cbn zeta. destruct (Client_Issue_trace pkiPath role req s) as (Fr & new & X & Sent & _).
  split; [exact Fr |]. exists new. split; [exact X |].
  eapply Forall_impl; [| exact Sent]. intros [q r] [E | (tok & T & E)]; cbn [fst] in *;
    subst q; cbn; repeat split; eauto 7.
Qed.

(** X19. When [Client.Issue] succeeds, what it returns is what the last
    request it sent was answered: an issuance request under the token the
    client holds afterwards, answered with a 2xx status and a body that
    decodes to the returned data. The data has a certificate and a private
    key, the client holds a token, and none of the three arguments checked
    first was empty. *)
Theorem Client_Issue_returns_last_reply (pkiPath role : string) (req : IssueRequest)
    (s : Session) (data : IssueResponse) :
  fst (Client_Issue pkiPath role req s) = inr data ->
  let s' := snd (Client_Issue pkiPath role req s) in
  Token (client s') <> ""
  /\ (exists before resp,
        exchanges s'
        = (exchanges s ++ before
           ++ [(issueRequest (client s) pkiPath role req (Token (client s')), inr resp)])%list
        /\ (200 <= StatusCode resp < 300)%Z
        /\ json_Decode_issue (ResponseBody resp) = inr data)
  /\ Certificate data <> "" /\ PrivateKey data <> ""
  /\ Addr (client s) <> "" /\ pkiPath <> "" /\ role <> "".
Proof.
  intros Ok. cbn zeta.
  destruct (Client_Issue_trace pkiPath role req s) as (_ & new & X & _ & Last).
  destruct (Last data Ok) as (T & before & resp & -> & St & D).
  destruct (decodeIssue_ok resp data D) as (J & C & K).
  split; [exact T | split; [| split; [exact C | split; [exact K |]]]].
  - exists before, resp. auto.
  - destruct (Client_Issue_fails_without_a_request_aux pkiPath role req s) as [[err E] | V];
      [| exact V].
    rewrite E in Ok. discriminate Ok.
Qed.

(** X20. The token is kept between calls: after a successful [Client.Issue]
    the next one logs in no more, its first request is the issuance request
    under the token held. *)
Theorem Client_Issue_reuses_token (pkiPath role : string) (req : IssueRequest) (s : Session)
    (data : IssueResponse) (pkiPath2 role2 : string) (req2 : IssueRequest) :
  fst (Client_Issue pkiPath role req s) = inr data ->
  let s1 := snd (Client_Issue pkiPath role req s) in
  let q := issueRequest (client s1) pkiPath2 role2 req2 (Token (client s1)) in
  pkiPath2 <> "" -> role2 <> "" ->
  http_NewRequest_error "POST" (URL q) = None ->
  Client_ensureToken s1 = (None, s1)
  /\ exists rest,
       exchanges (snd (Client_Issue pkiPath2 role2 req2 s1))
       = (exchanges s1 ++ (q, replyTo (client s1) (exchanges s1) q) :: rest)%list.
Proof.
  intros Ok s1 q P R B.
  destruct (Client_Issue_trace pkiPath role req s) as ((tok & Fr) & new & _ & _ & Last).
  destruct (Last data Ok) as (T & _). fold s1 in T, Fr.
  assert (A : Addr (client s1) <> "").
  { rewrite Fr. cbn.
    destruct (Client_Issue_fails_without_a_request_aux pkiPath role req s) as [[err E] | V];
      [rewrite E in Ok; discriminate Ok | tauto]. }
  pose proof (ensureToken_held s1 T) as Held. split; [exact Held |].
  rewrite (Client_Issue_run pkiPath2 role2 req2 s1 s1 A P R Held B). cbn zeta. fold q.
  set (r := replyTo (client s1) (exchanges s1) q).
  destruct (replyError r) as [err |]; [| exists []; reflexivity].
  destruct (isAuthError err && _ && _); [| exists []; reflexivity].
  destruct (http_NewRequest_error "POST" (URL (loginRequest (client s1))));
    [exists []; reflexivity |].
  destruct (loginOutcome _); cbn [snd exchanges]; rewrite <- ?app_assoc; cbn [app]; eauto.
Qed.

(** X21. [doJSON] hands back a response only when its status is 2xx, and
    then it is the reply to the one request it sent; a reply with any other
    status becomes the error ["vault http <status>: <body>"], a transport
    error is returned as it is, and an authenticated request of a client
    without a token fails with [ErrAuthRequired] before anything is sent.
    [doJSON] never changes the client. *)
Theorem doJSON_returns_2xx_only (method u : string) (body : Payload) (requireAuth : bool)
    (s : Session) :
  let out := doJSON method u body requireAuth s in
  client (snd out) = client s
  /\ (forall resp, fst out = inr resp ->
        (200 <= StatusCode resp < 300)%Z
        /\ exists q, exchanges (snd out) = (exchanges s ++ [(q, inr resp)])%list
                     /\ Method q = method /\ URL q = u /\ Body q = body)
  /\ (forall q resp, exchanges (snd out) = (exchanges s ++ [(q, inr resp)])%list ->
        ~ (200 <= StatusCode resp < 300)%Z -> fst out = inl (statusError resp))
  /\ (forall q err, exchanges (snd out) = (exchanges s ++ [(q, inl err)])%list ->
        fst out = inl err)
  /\ (http_NewRequest_error method u = None -> requireAuth = true ->
        Token (client s) = "" -> out = (inl ErrAuthRequired, s)).
Proof.
  cbn zeta.
  assert (Unsent : forall err, doJSON method u body requireAuth s = (inl err, s) ->
            client (snd (doJSON method u body requireAuth s)) = client s
            /\ (forall resp, fst (doJSON method u body requireAuth s) = inr resp ->
                  (200 <= StatusCode resp < 300)%Z
                  /\ exists q, exchanges (snd (doJSON method u body requireAuth s))
                               = (exchanges s ++ [(q, inr resp)])%list
                               /\ Method q = method /\ URL q = u /\ Body q = body)
            /\ (forall q resp, exchanges (snd (doJSON method u body requireAuth s))
                               = (exchanges s ++ [(q, inr resp)])%list ->
                  ~ (200 <= StatusCode resp < 300)%Z ->
                  fst (doJSON method u body requireAuth s) = inl (statusError resp))
            /\ (forall q err, exchanges (snd (doJSON method u body requireAuth s))
                              = (exchanges s ++ [(q, inl err)])%list ->
                  fst (doJSON method u body requireAuth s) = inl err)).
  { intros err ->. cbn [fst snd].
    assert (No : forall x, exchanges s <> (exchanges s ++ [x])%list).
    { intros x E. apply (f_equal (@List.length _)) in E. rewrite length_app in E.
      cbn in E. lia. }
    split; [reflexivity | split; [discriminate | split]]; intros q r E; now destruct (No _ E). }
  destruct (http_NewRequest_error method u) as [err |] eqn:B.
  { destruct (Unsent err) as (U1 & U2 & U3 & U4); [unfold doJSON; now rewrite B |].
    split; [exact U1 | split; [exact U2 | split; [exact U3 | split; [exact U4 |]]]].
    intros H. discriminate H. }
  destruct (requireAuth && (Token (client s) =? "")) eqn:G.
  { assert (E : doJSON method u body requireAuth s = (inl ErrAuthRequired, s)).
    { unfold doJSON, go.then_, getClient, token. now rewrite B, G. }
    destruct (Unsent _ E) as (U1 & U2 & U3 & U4).
    split; [exact U1 | split; [exact U2 | split; [exact U3 | split; [exact U4 | auto]]]]. }
  clear Unsent.
  assert (T : requireAuth = true -> Token (client s) <> "").
  { intros ->. cbn in G. now apply String.eqb_neq. }
  rewrite (doJSON_sends method u body requireAuth s B T). cbn zeta. cbn [fst snd client exchanges].
  set (q := {| Method := method; URL := u; ContentType := "application/json";
               XVaultNamespace := _; XVaultToken := _; Body := body |}).
  set (reply := replyTo (client s) (exchanges s) q).
  split; [reflexivity | split; [| split; [| split]]].
  - intros resp E. destruct reply as [err | r]; [discriminate E |].
    destruct (replyError (inr r)) eqn:RE; [discriminate E |]. injection E as <-.
    split; [now apply replyError_2xx |]. exists q. auto.
  - intros q' resp E N. apply app_inv_head in E. injection E as _ ->.
    unfold replyError.
    destruct (Z.ltb_spec (StatusCode resp) 200), (Z.leb_spec 300 (StatusCode resp));
      cbn; try reflexivity; lia.
  - intros q' err E. apply app_inv_head in E. injection E as _ ->. reflexivity.
  - intros _ -> E. rewrite E in T. now destruct T.
Qed.

Lemma TrimRight_append_cut (s : string) (cut : ascii) :
  strings.TrimRight (s ++ String cut "") cut = strings.TrimRight s cut.
Proof.
  induction s as [| c s IH]; cbn [append strings.TrimRight].
  - now rewrite Ascii.eqb_refl.
  - now rewrite IH.
Qed.

Lemma TrimRight_no_cut (s : string) (cut : ascii) :
  strings.HasSuffix (strings.TrimRight s cut) (String cut "") = false.
Proof.
  induction s as [| c s IH]; [reflexivity |]. cbn [strings.TrimRight].
  destruct (strings.TrimRight s cut) as [| d t] eqn:E.
  - destruct (Ascii.eqb c cut) eqn:C; [reflexivity |]. cbn. now rewrite C.
  - cbn [strings.HasSuffix]. cbn [String.eqb].
    destruct (Ascii.eqb c cut); exact IH.
Qed.

Lemma TrimLeft_no_cut (s : string) (cut : ascii) :
  strings.HasPrefix (strings.TrimLeft s cut) (String cut "") = false.
Proof.
  induction s as [| c s IH]; [reflexivity |]. cbn [strings.TrimLeft].
  destruct (Ascii.eqb c cut) eqn:C; [exact IH |].
  unfold strings.HasPrefix. cbn [prefix].
  destruct (ascii_dec cut c) as [-> |]; [| reflexivity]. now rewrite Ascii.eqb_refl in C.
Qed.

(** What the two trims take away is slashes and nothing else. *)
Lemma TrimRight_split (s : string) (cut : ascii) :
  exists k, s = strings.TrimRight s cut ++ string_of_list_ascii (repeat cut k).
Proof.
  induction s as [| c s [k IH]]; [now exists 0%nat |]. cbn [strings.TrimRight].
  destruct (strings.TrimRight s cut) as [| d t] eqn:E.
  - destruct (Ascii.eqb_spec c cut) as [-> | N].
    + exists (S k). cbn. now rewrite IH at 1.
    + exists k. cbn. now rewrite IH at 1.
  - exists k. cbn [append]. now rewrite IH at 1.
Qed.

Lemma TrimLeft_split (s : string) (cut : ascii) :
  exists j, s = string_of_list_ascii (repeat cut j) ++ strings.TrimLeft s cut.
Proof.
  induction s as [| c s [j IH]]; [now exists 0%nat |]. cbn [strings.TrimLeft].
  destruct (Ascii.eqb_spec c cut) as [-> | N].
  - exists (S j). cbn. now rewrite IH at 1.
  - now exists 0%nat.
Qed.

(** X22. [url] joins the address and the path with exactly one slash: the
    address is some [base] followed by slashes only, the path is slashes only
    followed by some [rest], [base] does not end in a slash and [rest] does not
    begin with one, and the result is [base], one slash, [rest]. So slashes at
    the end of the address or at the start of the path are of no
    consequence. *)
Theorem url_joins_with_one_slash (c : Client) (p : string) :
  (exists base rest k j,
     Addr c = base ++ string_of_list_ascii (repeat "/"%char k)
     /\ p = string_of_list_ascii (repeat "/"%char j) ++ rest
     /\ strings.HasSuffix base "/" = false /\ strings.HasPrefix rest "/" = false
     /\ url c p = base ++ "/" ++ rest)
  /\ url c ("/" ++ p) = url c p
  /\ url {| Addr := Addr c ++ "/"; Namespace := Namespace c; Token := Token c;
            RoleID := RoleID c; SecretID := SecretID c; AuthPath := AuthPath c;
            HTTPClient := HTTPClient c |} p = url c p.
Proof.
  unfold url. split; [| split].
  - destruct (TrimRight_split (Addr c) "/") as [k A], (TrimLeft_split p "/") as [j P].
    exists (strings.TrimRight (Addr c) "/"), (strings.TrimLeft p "/"), k, j.
    split; [exact A | split; [exact P |]].
    split; [apply TrimRight_no_cut | split; [apply TrimLeft_no_cut | reflexivity]].
  - reflexivity.
  - cbn [Addr]. now rewrite TrimRight_append_cut.
Qed.

End ClientMore.

Section IssuerMore.
Context {lib : Lib} {wire : Wire}.

Lemma set_Client_same (i : Issuer) (c : Client) : Client_ i = Some c -> set_Client c i = i.
Proof. destruct i. cbn. now intros ->. Qed.

Lemma Issuer_Issue_unfold (i : Issuer) (c : Client) (history : list Exchange) :
  Client_ i = Some c ->
  let out := Client_Issue (PKIPath i) (Role i) (issuerRequest i)
               {| client := c; exchanges := history |} in
  snd (fst (Issuer_Issue i history)) = set_Client (client (snd out)) i
  /\ snd (Issuer_Issue i history) = exchanges (snd out)
  /\ (forall err, fst out = inl err -> fst (fst (Issuer_Issue i history)) = inl err).
Proof.
  intros C. cbn zeta. unfold Issuer_Issue. rewrite C.
  change {| CommonName := Issuer_CommonName i; AltNames := Issuer_AltNames i;
            URISANs := Issuer_URISANs i;
            TTL := if (0 <? Issuer_TTL i)%Z then Duration_String (Issuer_TTL i) else "" |}
    with (issuerRequest i).
  destruct (Client_Issue _ _ _ _) as [r s']. cbn [fst snd].
  repeat split. now intros err ->.
Qed.

Lemma Issuer_Issue_client_error (i : Issuer) (c : Client) (history : list Exchange)
    (err : error) (s' : Session) :
  Client_ i = Some c ->
  Client_Issue (PKIPath i) (Role i) (issuerRequest i) {| client := c; exchanges := history |}
    = (inl err, s') ->
  Issuer_Issue i history = (inl err, set_Client (client s') i, exchanges s').
Proof.
  intros C E.
  destruct (Issuer_Issue_unfold i c history C) as (I' & H' & E'). cbn zeta in *.
  rewrite E in *. cbn [fst snd] in *.
  now rewrite (surjective_pairing (Issuer_Issue i history)),
    (surjective_pairing (fst (Issuer_Issue i history))), I', H', (E' err eq_refl).
Qed.

Lemma Issuer_Issue_key_pair_of (i : Issuer) (c : Client) (history : list Exchange)
    (resp : IssueResponse) (s' : Session) (b : certmanager.Bundle) :
  Client_ i = Some c ->
  Client_Issue (PKIPath i) (Role i) (issuerRequest i) {| client := c; exchanges := history |}
    = (inr resp, s') ->
  fst (fst (Issuer_Issue i history)) = inr b ->
  exists cert, tls_X509KeyPair (Certificate resp) (PrivateKey resp) = inr cert
               /\ certmanager.Cert b = Some cert.
Proof.
  intros C E B.
  pose proof (Issuer_Issue_of_response i c history resp s' C E) as R. rewrite B in R.
  destruct (tls_X509KeyPair (Certificate resp) (PrivateKey resp)) as [err | cert];
    [discriminate R |].
  exists cert. split; [reflexivity |].
  destruct (appendChain x509.NewCertPool (CAChain resp)) as [pool |]; [| discriminate R].
  destruct ((List.length (CAChain resp) =? 0)%nat && negb (IssuingCA resp =? ""));
    [destruct (AppendCertsFromPEM pool (IssuingCA resp)) as [pool' ok] |];
    cbv iota beta in R;
    repeat match type of R with
           | inr _ = (if ?g then _ else _) => destruct g; try discriminate R
           | inr _ = match ?g with _ => _ end => destruct g; try discriminate R
           end;
    now injection R as ->.
Qed.

(** X23. How [Issuer.Issue] fails before it reads any CA material. Without
    a client it returns ["vault client required"] and sends nothing; an error
    of its client's [Issue] is returned as it is; and when the certificate and
    the private key of the response do not make a key pair, the key pair's
    error is returned, whatever the CA fields hold. A bundle, when one is
    returned, carries the key pair of the response. The issuer's fields are
    never changed, only its client's token may be. *)
Theorem Issuer_Issue_passes_failures_on (i : Issuer) (history : list Exchange) :
  (Client_ i = None -> Issuer_Issue i history = (inl "vault client required", i, history))
  /\ (forall c, Client_ i = Some c ->
        Addr c = "" \/ PKIPath i = "" \/ Role i = "" ->
        exists err, Issuer_Issue i history = (inl err, i, history))
  /\ (forall c err s',
        Client_ i = Some c ->
        Client_Issue (PKIPath i) (Role i) (issuerRequest i)
          {| client := c; exchanges := history |} = (inl err, s') ->
        Issuer_Issue i history = (inl err, set_Client (client s') i, exchanges s'))
  /\ (forall c resp s',
        Client_ i = Some c ->
        Client_Issue (PKIPath i) (Role i) (issuerRequest i)
          {| client := c; exchanges := history |} = (inr resp, s') ->
        (forall err, tls_X509KeyPair (Certificate resp) (PrivateKey resp) = inl err ->
           Issuer_Issue i history = (inl err, set_Client (client s') i, exchanges s'))
        /\ (forall b, fst (fst (Issuer_Issue i history)) = inr b ->
              exists cert, tls_X509KeyPair (Certificate resp) (PrivateKey resp) = inr cert
                           /\ certmanager.Cert b = Some cert)).
Proof.
  split; [| split; [| split]].
  - intros C. unfold Issuer_Issue. now rewrite C.
  - intros c C Bad.
    destruct (Issuer_Issue_unfold i c history C) as (I' & H' & E'). cbn zeta in *.
    assert (Off : exists err, Client_Issue (PKIPath i) (Role i) (issuerRequest i)
                                {| client := c; exchanges := history |}
                              = (inl err, {| client := c; exchanges := history |})).
    { destruct (Client_Issue_fails_without_a_request_aux (PKIPath i) (Role i)
                  (issuerRequest i) {| client := c; exchanges := history |})
        as [Off | (A & P & R)]; [exact Off |].
      cbn [client] in A. destruct Bad as [B | [B | B]]; contradiction. }
    destruct Off as [err Off]. exists err. rewrite Off in *. cbn [fst snd client exchanges] in *.
    rewrite (surjective_pairing (Issuer_Issue i history)),
      (surjective_pairing (fst (Issuer_Issue i history))), I', H', (E' err eq_refl).
    now rewrite (set_Client_same i c C).
  - intros c err s' C E. now apply (Issuer_Issue_client_error i c history).
  - intros c resp s' C E.
    destruct (Issuer_Issue_unfold i c history C) as (I' & H' & _). cbn zeta in *.
    pose proof (Issuer_Issue_of_response i c history resp s' C E) as R.
    rewrite E in *. cbn [fst snd] in *. split.
    + intros err K. rewrite K in R.
      now rewrite (surjective_pairing (Issuer_Issue i history)),
        (surjective_pairing (fst (Issuer_Issue i history))), I', H', R.
    + intros b B. now apply (Issuer_Issue_key_pair_of i c history resp s').
Qed.

(** X24. What [Issuer.Issue] asks for: every request it sends is its
    client's login or an issuance request, under a non-empty token, to the
    issuer's PKI path and role, for the issuer's common name, alternative
    names and URI SANs; the TTL asked for is the issuer's when that is
    positive and is left out otherwise. Of the issuer only the client's
    token may have changed afterwards. *)
Theorem Issuer_Issue_requests (i : Issuer) (c : Client) (history : list Exchange) :
  Client_ i = Some c ->
  let out := Issuer_Issue i history in
  let asked ttl :=
    {| CommonName := Issuer_CommonName i; AltNames := Issuer_AltNames i;
       URISANs := Issuer_URISANs i; TTL := ttl |} in
  (exists tok, snd (fst out) = set_Client (set_Token tok c) i)
  /\ exists new,
       snd out = (history ++ new)%list
       /\ Forall (fun x =>
            fst x = loginRequest c
            \/ exists tok ttl,
                 tok <> ""
                 /\ fst x = issueRequest c (PKIPath i) (Role i) (asked ttl) tok
                 /\ ((0 < Issuer_TTL i)%Z -> ttl = Duration_String (Issuer_TTL i))
                 /\ ((Issuer_TTL i <= 0)%Z -> ttl = "")) new.
Proof.
  intros C. cbn zeta.
  destruct (Issuer_Issue_unfold i c history C) as (I' & H' & _). cbn zeta in *.
  destruct (Client_Issue_trace (PKIPath i) (Role i) (issuerRequest i)
              {| client := c; exchanges := history |}) as ((tok & Fr) & new & X & Sent & _).
  cbn [client exchanges] in *. rewrite I', H', Fr, X.
  split; [now exists tok |]. exists new. split; [reflexivity |].
  eapply Forall_impl; [| exact Sent]. intros x [L | (t & T & Q)]; [now left | right].
  exists t, (TTL (issuerRequest i)). split; [exact T | split; [exact Q |]].
  cbn [issuerRequest TTL]. destruct (Z.ltb_spec 0 (Issuer_TTL i)); split; intros; auto; lia.
Qed.

Lemma Issuer_Issue_Cert (i : Issuer) (history : list Exchange) (b : certmanager.Bundle) :
  fst (fst (Issuer_Issue i history)) = inr b -> exists cert, certmanager.Cert b = Some cert.
Proof.
  intros B. destruct (Client_ i) as [c |] eqn:C.
  2:{ unfold Issuer_Issue in B. rewrite C in B. discriminate B. }
  destruct (Client_Issue (PKIPath i) (Role i) (issuerRequest i)
              {| client := c; exchanges := history |}) as [[err | resp] s'] eqn:E.
  - rewrite (Issuer_Issue_client_error i c history err s' C E) in B. discriminate B.
  - destruct (Issuer_Issue_key_pair_of i c history resp s' b C E B) as (cert & _ & K). eauto.
Qed.

(** What a [*vault.Issuer] returns to the manager: an error, or a bundle
    with a key pair. *)
Lemma asIssuer_contract (i : Issuer) (history : list Exchange) (n : nat) :
  (exists err, asIssuer i history n = (None, Some err))
  \/ (exists b cert, asIssuer i history n = (Some b, None) /\ certmanager.Cert b = Some cert).
Proof.
  unfold asIssuer. destruct (issuerAfter n i history) as [i' history'].
  destruct (fst (fst (Issuer_Issue i' history'))) as [err | b] eqn:R; [eauto |].
  right. destruct (Issuer_Issue_Cert i' history' b R) as [cert K]. eauto.
Qed.

(** X25. A manager in front of a [*vault.Issuer]: however many refreshes
    were attempted, [GetCertificate] and [GetClientCertificate] return
    [ErrNotReady] or a certificate that is not nil, and never panic; and
    [Run] does not panic either. *)
Theorem manager_of_vault_issuer (i : Issuer) (history : list Exchange)
    (o : certmanager.Options) :
  let m0 := certmanager.NewWithOptions (asIssuer i history) o in
  (forall n,
     let m := certmanager.mgr (certmanager.refreshes n (certmanager.boot m0)) in
     (certmanager.GetCertificate m = go.Done (None, Some certmanager.ErrNotReady)
      \/ exists cert, certmanager.GetCertificate m = go.Done (Some cert, None))
     /\ certmanager.GetClientCertificate m = certmanager.GetCertificate m)
  /\ (forall ctx n,
        (certmanager.MinRefresh o <= time.maxDuration)%Z ->
        exists r, fst (certmanager.Run ctx n (certmanager.boot m0)) = go.Done r).
Proof.
  cbn zeta. split.
  - intros n. split; [| reflexivity].
    unfold certmanager.GetCertificate, certmanager.Current.
    destruct (certmanager_facts.refreshes_curr n
                (certmanager.boot (certmanager.NewWithOptions (asIssuer i history) o)))
      as [[_ ->] | (k & _ & Ok & _ & ->)]; cbn [certmanager.boot certmanager.mgr
        certmanager.curr certmanager.NewWithOptions certmanager.issuer certmanager.issues] in *.
    + now left.
    + right. destruct (asIssuer_contract i history (0 + k)) as [[err E] | (b & cert & E & K)];
        rewrite E in *; [discriminate Ok |].
      exists cert. cbn. now rewrite K.
  - intros ctx n Le.
    destruct (certmanager_run.NewWithOptions_safe (asIssuer i history) o) as (N & M & I).
    apply certmanager_run.Run_safe; cbn [certmanager.boot certmanager.mgr]; auto.
    intros k. rewrite I. destruct (asIssuer_contract i history k) as [[err E] | (b & c & E & _)];
      rewrite E; discriminate.
Qed.

End IssuerMore.

Import examples.

(** The retry test again: the data returned is the reply to the second
    issuance request, sent under the token [good] that the client then
    holds. *)
Lemma Client_Issue_returns_reply_under_good_token :
  let s := {| client := staleClient; exchanges := [] |} in
  let s' := snd (Client_Issue (lib := stillLib) (wire := labelWire) "pki" "role" svcRequest s) in
  Token (client s') <> ""
  /\ (exists before resp,
        exchanges s'
        = (exchanges s ++ before
           ++ [(issueRequest (lib := stillLib) (client s) "pki" "role" svcRequest
                  (Token (client s')), inr resp)])%list
        /\ (200 <= StatusCode resp < 300)%Z
        /\ json_Decode_issue (Wire := labelWire) (ResponseBody resp) = inr issued)
  /\ Certificate issued <> "" /\ PrivateKey issued <> ""
  /\ Addr (client s) <> "" /\ "pki" <> "" /\ "role" <> "".
Proof.
  apply (Client_Issue_returns_last_reply (lib := stillLib) (wire := labelWire)
           "pki" "role" svcRequest {| client := staleClient; exchanges := [] |} issued).
  vm_compute. reflexivity.
Defined.

(** And a second issuance after it starts with an issuance request, not
    with a login. *)
Lemma Client_Issue_twice_logs_in_once :
  let s1 := snd (Client_Issue (lib := stillLib) (wire := labelWire) "pki" "role" svcRequest
                   {| client := staleClient; exchanges := [] |}) in
  let q := issueRequest (lib := stillLib) (client s1) "pki" "role" svcRequest
             (Token (client s1)) in
  Client_ensureToken (lib := stillLib) (wire := labelWire) s1 = (None, s1)
  /\ exists rest,
       exchanges (snd (Client_Issue (lib := stillLib) (wire := labelWire)
                         "pki" "role" svcRequest s1))
       = (exchanges s1
          ++ (q, replyTo (wire := labelWire) (client s1) (exchanges s1) q) :: rest)%list.
Proof.
  apply (Client_Issue_reuses_token (lib := stillLib) (wire := labelWire)
           "pki" "role" svcRequest {| client := staleClient; exchanges := [] |} issued
           "pki" "role" svcRequest).
  - vm_compute. reflexivity.
  - discriminate.
  - discriminate.
  - reflexivity.
Defined.

(** The issuer of the example program asks for six hours. *)
Lemma Issuer_asks_for_six_hours :
  let i := issuerFor "no ca" (6 * 3600 * time.Second)%Z false in
  let c := tokClient "no ca" in
  let out := Issuer_Issue (lib := pemLib) (wire := pkiWire) i [] in
  let asked ttl :=
    {| CommonName := Issuer_CommonName i; AltNames := Issuer_AltNames i;
       URISANs := Issuer_URISANs i; TTL := ttl |} in
  (exists tok, snd (fst out) = set_Client (set_Token tok c) i)
  /\ exists new,
       snd out = ([] ++ new)%list
       /\ Forall (fun x =>
            fst x = loginRequest (lib := pemLib) c
            \/ exists tok ttl,
                 tok <> ""
                 /\ fst x = issueRequest (lib := pemLib) c (PKIPath i) (Role i) (asked ttl) tok
                 /\ ((0 < Issuer_TTL i)%Z -> ttl = Duration_String (Lib := pemLib) (Issuer_TTL i))
                 /\ ((Issuer_TTL i <= 0)%Z -> ttl = "")) new.
Proof.
  apply (Issuer_Issue_requests (lib := pemLib) (wire := pkiWire)
           (issuerFor "no ca" (6 * 3600 * time.Second)%Z false) (tokClient "no ca") []).
  reflexivity.
Defined.

End vault_requests.
